(** * NMDOT CAD to GIS conversion wrapper: a shallow embedding

    The development follows [scripts/cad_to_gdb_wrapper.py], function by
    function.

    - Python strings are lists of characters; a character is a code point
      in U+0000..U+00FF (the type [ascii], eight bits), and [isalnum],
      [isdigit], [isspace] and [lower] are the ones of Python's [str] on
      that range.
    - [os.path] is [posixpath].
    - The file system is a tree of directories and files; [os] and
      [shutil] act on it, and raise where the tree does not allow the
      operation.
    - The engine ([arcpy]), the visualization host and the clock are the
      surroundings of a run: a record says how they answer, the run keeps
      the log of its messages and the trace of its calls.
    - Coordinates of an extent are binary64 floats. *)

From Stdlib Require Import Ascii String.
From Stdlib Require Import List Bool Arith NArith Lia.
From Stdlib Require Import Sorting.Sorted Sorting.Permutation.
From Stdlib Require Import Floats.
From Stdlib Require DecimalString.
Import ListNotations.

Set Implicit Arguments.
Set Warnings "-register-all,-abstract-large-number".

(* ================================================================== *)
(** ** Python strings *)

Module PyStr.

Definition pystr := list ascii.

(** A literal, written as a Rocq string. *)
Definition str (s : string) : pystr := list_ascii_of_string s.

Definition code (c : ascii) : N := N_of_ascii c.

Definition in_range (lo hi : N) (c : ascii) : bool :=
  ((lo <=? code c) && (code c <=? hi))%N.

Definition pystr_eq_dec : forall a b : pystr, {a = b} + {a <> b} :=
  list_eq_dec ascii_dec.

Definition eqs (a b : pystr) : bool :=
  if pystr_eq_dec a b then true else false.

(** [c.isspace()]: TAB..CR, FS..US, SPACE, NEL and NBSP. *)
Definition isspace (c : ascii) : bool :=
  in_range 9 13 c || in_range 28 32 c
  || (code c =? 133)%N || (code c =? 160)%N.

(** [c.isdigit()]: the decimal digits and the superscripts 1, 2, 3. *)
Definition isdigit (c : ascii) : bool :=
  in_range 48 57 c || in_range 178 179 c || (code c =? 185)%N.

(** [c.isalpha()]: categories Lu, Ll, Lo of the range. *)
Definition isalpha (c : ascii) : bool :=
  in_range 65 90 c || in_range 97 122 c
  || (code c =? 170)%N || (code c =? 181)%N || (code c =? 186)%N
  || in_range 192 214 c || in_range 216 246 c || in_range 248 255 c.

(** [c.isnumeric()] adds the vulgar fractions to the digits. *)
Definition isnumeric (c : ascii) : bool :=
  isdigit c || in_range 188 190 c.

(** [c.isalnum()] is [isalpha or isdecimal or isdigit or isnumeric]. *)
Definition isalnum (c : ascii) : bool :=
  isalpha c || isdigit c || isnumeric c.

(** [c.lower()] for one character. *)
Definition lower_char (c : ascii) : ascii :=
  if in_range 65 90 c || in_range 192 214 c || in_range 216 222 c
  then ascii_of_N (code c + 32) else c.

(** [s.lower()]. *)
Definition lower (s : pystr) : pystr := map lower_char s.

Fixpoint dropwhile (p : ascii -> bool) (s : pystr) : pystr :=
  match s with
  | [] => []
  | c :: t => if p c then dropwhile p t else s
  end.

Definition lstrip (p : ascii -> bool) (s : pystr) : pystr := dropwhile p s.
Definition rstrip (p : ascii -> bool) (s : pystr) : pystr :=
  rev (dropwhile p (rev s)).

(** [s.strip()] with [p] the set of characters that are removed. *)
Definition strip_with (p : ascii -> bool) (s : pystr) : pystr :=
  rstrip p (lstrip p s).

(** [s.strip()]: white space at both ends. *)
Definition strip (s : pystr) : pystr := strip_with isspace s.

Definition underscore : ascii := "_"%char.
Definition is_underscore (c : ascii) : bool := Ascii.eqb c underscore.

(** [s.strip("_")]. *)
Definition strip_underscores (s : pystr) : pystr :=
  strip_with is_underscore s.

(** [s.startswith(p)]. *)
Fixpoint startswith (s p : pystr) : bool :=
  match p, s with
  | [], _ => true
  | _ :: _, [] => false
  | a :: p', b :: s' => Ascii.eqb a b && startswith s' p'
  end.

(** [s.endswith(p)]. *)
Definition endswith (s p : pystr) : bool := startswith (rev s) (rev p).

(** ["__" in s]. *)
Fixpoint contains_uu (s : pystr) : bool :=
  match s with
  | a :: ((b :: _) as t) =>
      (is_underscore a && is_underscore b) || contains_uu t
  | _ => false
  end.

(** [s.replace("__", "_")]: one pass from the left, occurrences that do
    not overlap. *)
Fixpoint replace_uu (s : pystr) : pystr :=
  match s with
  | a :: ((b :: t') as t) =>
      if is_underscore a && is_underscore b
      then underscore :: replace_uu t'
      else a :: replace_uu t
  | _ => s
  end.

(** [s.split(sep)] for a one-character separator: never empty. *)
Fixpoint split (sep : ascii) (s : pystr) : list pystr :=
  match s with
  | [] => [[]]
  | c :: t =>
      if Ascii.eqb c sep then [] :: split sep t
      else match split sep t with
           | [] => [[c]]
           | w :: ws => (c :: w) :: ws
           end
  end.

(** [sep.join(parts)]. *)
Fixpoint join_with (sep : pystr) (parts : list pystr) : pystr :=
  match parts with
  | [] => []
  | [w] => w
  | w :: ws => w ++ sep ++ join_with sep ws
  end.

(** [str(n)] for a natural number. *)
Definition of_N (n : N) : pystr :=
  str (DecimalString.NilZero.string_of_uint (N.to_uint n)).

Definition of_nat (n : nat) : pystr := of_N (N.of_nat n).

(** [str(b)] for a boolean. *)
Definition of_bool (b : bool) : pystr :=
  if b then str "True" else str "False".

(** Truth value of a string: non-empty. *)
Definition truthy (s : pystr) : bool :=
  match s with [] => false | _ => true end.

(** Comparison of strings: lexicographic on the code points. *)
Fixpoint leb (a b : pystr) : bool :=
  match a, b with
  | [], _ => true
  | _ :: _, [] => false
  | x :: a', y :: b' =>
      if (code x <? code y)%N then true
      else if (code y <? code x)%N then false
      else leb a' b'
  end.

Definition ltb (a b : pystr) : bool := leb a b && negb (eqs a b).

(** [sorted(l)]: insertion into a sorted list, stable. *)
Fixpoint insert_sorted (x : pystr) (l : list pystr) : list pystr :=
  match l with
  | [] => [x]
  | y :: t => if leb y x then y :: insert_sorted x t else x :: l
  end.

Definition sorted (l : list pystr) : list pystr :=
  fold_left (fun acc x => insert_sorted x acc) l [].

End PyStr.
Import PyStr.

(* ================================================================== *)
(** ** The name sanitizer *)

Module Sanitizer.

Definition MAX_LEN : nat := 64.

(** The loop [while "__" in cleaned: cleaned = cleaned.replace(...)].
    Every pass that runs shortens the string, so [length s] passes are
    enough (lemma [collapse_no_uu] below). *)
Fixpoint collapse_loop (fuel : nat) (s : pystr) : pystr :=
  match fuel with
  | O => s
  | S f => if contains_uu s then collapse_loop f (replace_uu s) else s
  end.

Definition collapse (s : pystr) : pystr := collapse_loop (length s) s.

(** [c if c.isalnum() else "_"]. *)
Definition keep_or_underscore (c : ascii) : ascii :=
  if isalnum c then c else underscore.

(** [_clean_name(s)]. *)
Definition _clean_name (s : pystr) : pystr :=
  let s := strip s in
  match s with
  | [] => str "CAD_Project"
  | _ :: _ =>
      let cleaned := map keep_or_underscore s in
      let cleaned :=
        match cleaned with
        | c0 :: _ => if isdigit c0 then str "X_" ++ cleaned else cleaned
        | [] => cleaned
        end in
      let cleaned := collapse cleaned in
      firstn MAX_LEN (strip_underscores cleaned)
  end.

End Sanitizer.
Import Sanitizer.

(* ================================================================== *)
(** ** [os.path], in its POSIX flavour ([posixpath]) *)

Module OsPath.

Definition sep : ascii := "/"%char.
Definition dot : pystr := str ".".
Definition dotdot : pystr := str "..".

Definition is_nil (l : list pystr) : bool :=
  match l with [] => true | _ => false end.

(** [os.path.join(a, b)]. *)
Definition join (a b : pystr) : pystr :=
  if startswith b [sep] then b
  else if negb (truthy a) || endswith a [sep] then a ++ b
  else a ++ [sep] ++ b.

(** [os.path.basename(p)], that is [p[p.rfind(sep) + 1:]]: what follows
    the last separator. *)
Definition basename (p : pystr) : pystr := last (split sep p) [].

(** The number of leading slashes [normpath] keeps: POSIX allows one or
    two, and treats three or more as one. *)
Definition initial_slashes (path : pystr) : nat :=
  if startswith path [sep] then
    if startswith path [sep; sep] && negb (startswith path [sep; sep; sep])
    then 2 else 1
  else 0.

(** One turn of the loop of [normpath] over the components. *)
Definition norm_step (init : nat) (new_comps : list pystr) (comp : pystr)
  : list pystr :=
  if eqs comp [] || eqs comp dot then new_comps
  else if negb (eqs comp dotdot)
          || ((init =? 0) && is_nil new_comps)
          || (negb (is_nil new_comps) && eqs (last new_comps []) dotdot)
  then new_comps ++ [comp]
  else removelast new_comps.

(** [os.path.normpath(path)]. *)
Definition normpath (path : pystr) : pystr :=
  match path with
  | [] => dot
  | _ :: _ =>
      let init := initial_slashes path in
      let comps := fold_left (norm_step init) (split sep path) [] in
      let p := repeat sep init ++ join_with [sep] comps in
      match p with [] => dot | _ :: _ => p end
  end.

End OsPath.
Import OsPath.

(* ================================================================== *)
(** ** The clock: [datetime.now().strftime("%Y%m%d_%H%M%S")] *)

Module Clock.

Record timestamp := mkTs {
  year : N; month : N; day : N;
  hour : N; minute : N; second : N }.

(** The values a [datetime] holds. *)
Definition valid_ts (t : timestamp) : bool :=
  ((1 <=? year t) && (year t <=? 9999)
   && (1 <=? month t) && (month t <=? 12)
   && (1 <=? day t) && (day t <=? 31)
   && (hour t <=? 23) && (minute t <=? 59) && (second t <=? 59))%N.

(** A number in decimal, padded with zeros on the left to [w] digits
    ([%Y] is taken with its four digits). *)
Definition pad (w : nat) (n : N) : pystr :=
  let d := of_N n in repeat "0"%char (w - length d) ++ d.

Definition strftime (t : timestamp) : pystr :=
  pad 4 (year t) ++ pad 2 (month t) ++ pad 2 (day t) ++ str "_"
  ++ pad 2 (hour t) ++ pad 2 (minute t) ++ pad 2 (second t).

End Clock.
Import Clock.

(* ================================================================== *)
(** ** Exceptions *)

Inductive exn :=
| ExecuteError (messages : pystr)   (* arcpy.ExecuteError *)
| PyException (text : pystr).       (* any other Exception *)

Inductive result (A : Type) :=
| Ok (a : A)
| Raise (e : exn).
Arguments Ok {A} a.
Arguments Raise {A} e.

(* ================================================================== *)
(** ** The file system: a tree of directories, no links, no permissions.
    A path is resolved component by component from the root of the tree
    (the working directory is the root). *)

Module FS.

Inductive node :=
| File (data : pystr)
| Dir (entries : list (pystr * node)).

Definition is_dir_node (n : node) : bool :=
  match n with Dir _ => true | File _ => false end.

Fixpoint assoc (k : pystr) (es : list (pystr * node)) : option node :=
  match es with
  | [] => None
  | (k', v) :: t => if eqs k k' then Some v else assoc k t
  end.

(** Replace the entry [k], or add it at the end. *)
Fixpoint set_entry (k : pystr) (v : node) (es : list (pystr * node))
  : list (pystr * node) :=
  match es with
  | [] => [(k, v)]
  | (k', v') :: t =>
      if eqs k k' then (k, v) :: t else (k', v') :: set_entry k v t
  end.

(** Without the entries named [k]. *)
Definition del_entry (k : pystr) (es : list (pystr * node))
  : list (pystr * node) :=
  filter (fun e => negb (eqs k (fst e))) es.

(** The components a path names, [.] and [..] resolved on the text of
    the path, as [os.path.normpath] does.  The system resolves them on
    the tree instead, so the two agree on the paths that hold no empty,
    [.] or [..] component ([plain_path] below); the properties that go
    through [os.listdir], [os.makedirs] or [os.path.isfile] for an
    arbitrary path are stated for such paths. *)
Definition locate_step (acc : list pystr) (c : pystr) : list pystr :=
  if eqs c [] || eqs c dot then acc
  else if eqs c dotdot then removelast acc
  else acc ++ [c].

Definition locate (p : pystr) : list pystr :=
  fold_left locate_step (split sep p) [].

Fixpoint lookup (n : node) (cs : list pystr) : option node :=
  match cs with
  | [] => Some n
  | c :: cs' =>
      match n with
      | Dir es =>
          match assoc c es with
          | Some ch => lookup ch cs'
          | None => None
          end
      | File _ => None
      end
  end.

(** [os.path.exists], [os.path.isdir], [os.path.isfile]. *)
Definition exists_ (fs : node) (p : pystr) : bool :=
  match lookup fs (locate p) with Some _ => true | None => false end.

Definition isdir (fs : node) (p : pystr) : bool :=
  match lookup fs (locate p) with Some (Dir _) => true | _ => false end.

Definition isfile (fs : node) (p : pystr) : bool :=
  match lookup fs (locate p) with Some (File _) => true | _ => false end.

(** Whether the way along [cs] meets a file before its end: the system
    then answers [ENOTDIR], not [ENOENT]. *)
Fixpoint through_file (n : node) (cs : list pystr) : bool :=
  match cs with
  | [] => false
  | c :: cs' =>
      match n with
      | File _ => true
      | Dir es =>
          match assoc c es with
          | Some ch => through_file ch cs'
          | None => false
          end
      end
  end.

(** [os.listdir(p)]: the names in the directory, in the order the
    system gives them; [NotADirectoryError] when [p] is a file or runs
    through one, [FileNotFoundError] when nothing is there. *)
Definition listdir (fs : node) (p : pystr) : result (list pystr) :=
  match lookup fs (locate p) with
  | Some (Dir es) => Ok (map fst es)
  | Some (File _) => Raise (PyException (str "NotADirectoryError"))
  | None =>
      if through_file fs (locate p)
      then Raise (PyException (str "NotADirectoryError"))
      else Raise (PyException (str "FileNotFoundError"))
  end.

(** [os.walk(top)] below a node: top down, a directory before its
    sub-directories, each with its directory names and its other
    names. *)
Fixpoint walk_node (top : pystr) (n : node)
  : list (pystr * list pystr * list pystr) :=
  match n with
  | File _ => []
  | Dir es =>
      (top,
       map fst (filter (fun e => is_dir_node (snd e)) es),
       map fst (filter (fun e => negb (is_dir_node (snd e))) es))
      :: flat_map
           (fun e =>
              match snd e with
              | Dir _ => walk_node (join top (fst e)) (snd e)
              | File _ => []
              end) es
  end.

(** [os.walk(top)]: nothing when [top] is not a directory (the errors
    of the scan are ignored). *)
Definition walk (fs : node) (top : pystr)
  : list (pystr * list pystr * list pystr) :=
  match lookup fs (locate top) with
  | Some (Dir es) => walk_node top (Dir es)
  | _ => []
  end.

(** The tree with the directories of [cs] made below [n]. *)
Fixpoint mkdirs (n : node) (cs : list pystr) : option node :=
  match cs with
  | [] => match n with Dir _ => Some n | File _ => None end
  | c :: cs' =>
      match n with
      | File _ => None
      | Dir es =>
          match assoc c es with
          | Some ch =>
              match mkdirs ch cs' with
              | Some ch' => Some (Dir (set_entry c ch' es))
              | None => None
              end
          | None =>
              match mkdirs (Dir []) cs' with
              | Some ch' => Some (Dir (set_entry c ch' es))
              | None => None
              end
          end
      end
  end.

(** [os.makedirs(p, exist_ok=True)]: [FileExistsError] when [p] is a
    file, [NotADirectoryError] when it runs through one. *)
Definition makedirs (fs : node) (p : pystr) : result node :=
  match p with
  | [] => Raise (PyException (str "FileNotFoundError"))
  | _ :: _ =>
      match mkdirs fs (locate p) with
      | Some fs' => Ok fs'
      | None =>
          if through_file fs (locate p)
          then Raise (PyException (str "NotADirectoryError"))
          else Raise (PyException (str "FileExistsError"))
      end
  end.

(** The tree without what is at [cs]. *)
Fixpoint remove (n : node) (cs : list pystr) : option node :=
  match cs with
  | [] => None
  | [c] =>
      match n with
      | Dir es => match assoc c es with
                  | Some _ => Some (Dir (del_entry c es))
                  | None => None
                  end
      | File _ => None
      end
  | c :: cs' =>
      match n with
      | Dir es =>
          match assoc c es with
          | Some ch =>
              match remove ch cs' with
              | Some ch' => Some (Dir (set_entry c ch' es))
              | None => None
              end
          | None => None
          end
      | File _ => None
      end
  end.

(** [shutil.rmtree(p)]: [p] must be a directory. *)
Definition rmtree (fs : node) (p : pystr) : result node :=
  match lookup fs (locate p) with
  | Some (Dir _) =>
      match remove fs (locate p) with
      | Some fs' => Ok fs'
      | None => Raise (PyException (str "OSError"))
      end
  | Some (File _) => Raise (PyException (str "NotADirectoryError"))
  | None => Raise (PyException (str "FileNotFoundError"))
  end.

(** The tree with [new] at [cs]; the directory above must be there. *)
Fixpoint put (n : node) (cs : list pystr) (new : node) : option node :=
  match cs with
  | [] => Some new
  | c :: cs' =>
      match n with
      | File _ => None
      | Dir es =>
          match cs', assoc c es with
          | [], _ => Some (Dir (set_entry c new es))
          | _ :: _, Some ch =>
              match put ch cs' new with
              | Some ch' => Some (Dir (set_entry c ch' es))
              | None => None
              end
          | _ :: _, None => None
          end
      end
  end.

Fixpoint is_prefix (a b : list pystr) : bool :=
  match a, b with
  | [], _ => true
  | _ :: _, [] => false
  | x :: a', y :: b' => eqs x y && is_prefix a' b'
  end.

(** Two places of the tree, neither above the other. *)
Definition apart (a b : list pystr) : bool :=
  negb (is_prefix a b) && negb (is_prefix b a).

(** [shutil.copytree(src, dst)]: [src] must be a directory and [dst]
    must not exist; the directories above [dst] are made.  The entries
    of [src] are listed before [dst] is made, so a [dst] that is a child
    of [src] gets the entries [src] had; with a [dst] deeper inside
    [src] the copy meets itself and recurs until it fails. *)
Definition copytree (fs : node) (src dst : pystr) : result node :=
  match lookup fs (locate src) with
  | Some (Dir es) =>
      if exists_ fs dst then Raise (PyException (str "FileExistsError"))
      else if is_prefix (locate src) (locate dst)
              && negb (length (locate dst) =? S (length (locate src)))
      then Raise (PyException (str "RecursionError"))
      else
        match mkdirs fs (locate dst) with
        | Some fs1 =>
            match put fs1 (locate dst) (Dir es) with
            | Some fs2 => Ok fs2
            | None => Raise (PyException (str "OSError"))
            end
        | None => Raise (PyException (str "NotADirectoryError"))
        end
  | Some (File _) => Raise (PyException (str "NotADirectoryError"))
  | None => Raise (PyException (str "FileNotFoundError"))
  end.

(** A well-formed tree: in every directory the names are distinct,
    non-empty, without a separator, and neither [.] nor [..]. *)
Definition valid_name (k : pystr) : bool :=
  truthy k && negb (existsb (fun c => Ascii.eqb c sep) k)
  && negb (eqs k dot) && negb (eqs k dotdot).

Fixpoint nodupb (l : list pystr) : bool :=
  match l with
  | [] => true
  | x :: t => negb (existsb (eqs x) t) && nodupb t
  end.

Fixpoint wf (n : node) : bool :=
  match n with
  | File _ => true
  | Dir es =>
      nodupb (map fst es)
      && forallb (fun e => valid_name (fst e) && wf (snd e)) es
  end.

End FS.
Import FS.

(* ================================================================== *)
(** ** What the run sees of ArcGIS: messages, the engine, the host *)

Module Arcpy.

Inductive level := Message | Warning | Error.

(** A spatial reference object, with the attributes the script reads. *)
Record spatial_ref := mkSr {
  sr_name : pystr;
  sr_factoryCode : pystr;
  sr_linearUnitName : pystr;
  sr_GCS : option pystr }.

Record extent := mkExtent {
  XMin : float; YMin : float; XMax : float; YMax : float }.

(** The calls the run makes to the engine and to the host. *)
Inductive call :=
| CreateFeatureDataset (out_gdb name : pystr) (sr : option spatial_ref)
| CADToGeodatabase (inputs out_gdb name : pystr) (reference_scale : N)
                   (sr : option spatial_ref)
| AddDataFromPath (path : pystr).

(** [arcpy.mp.ArcGISProject("CURRENT")] and its active map. *)
Inductive host :=
| HostFault (e : exn)
| NoActiveMap
| ActiveMap (addDataFromPath : pystr -> result unit).

(** The surroundings of one run: where the script is, the two readings
    of the clock, and how the engine and the host answer. *)
Record env := mkEnv {
  script_dir : pystr;
  now_store : timestamp;
  now_staging : timestamp;
  SpatialReference : pystr -> result spatial_ref;
  create_feature_dataset : pystr -> pystr -> option spatial_ref -> result unit;
  cad_to_geodatabase : pystr -> pystr -> pystr -> option spatial_ref -> result unit;
  describe_extent : pystr -> result extent;
  current_project : host }.

(** The same surroundings with another host. *)
Definition set_host (ev : env) (h : host) : env :=
  mkEnv (script_dir ev) (now_store ev) (now_staging ev) (SpatialReference ev)
        (create_feature_dataset ev) (cad_to_geodatabase ev)
        (describe_extent ev) h.

(** What a run can change: the tree as the file operations of the
    script itself leave it (what the engine writes into the store is not
    part of it), the messages, the calls made, the derived outputs. *)
Record world := mkWorld {
  w_fs : node;
  w_log : list (level * pystr);
  w_calls : list call;
  w_derived : list (N * pystr) }.

(** Computations of the run: they change the world and may raise. *)
Definition M (A : Type) : Type := world -> result A * world.

Definition ret {A} (a : A) : M A := fun w => (Ok a, w).
Definition raise {A} (e : exn) : M A := fun w => (Raise e, w).
Definition bind {A B} (m : M A) (k : A -> M B) : M B :=
  fun w => match m w with
           | (Ok a, w') => k a w'
           | (Raise e, w') => (Raise e, w')
           end.

Definition emit (l : level) (text : pystr) : M unit :=
  fun w => (Ok tt, mkWorld (w_fs w) (w_log w ++ [(l, text)])
                           (w_calls w) (w_derived w)).
Definition AddMessage := emit Message.
Definition AddWarning := emit Warning.
Definition AddError := emit Error.

Definition record (c : call) : M unit :=
  fun w => (Ok tt, mkWorld (w_fs w) (w_log w) (w_calls w ++ [c])
                           (w_derived w)).

Definition SetParameterAsText (i : N) (v : pystr) : M unit :=
  fun w => (Ok tt, mkWorld (w_fs w) (w_log w) (w_calls w)
                           (w_derived w ++ [(i, v)])).

(** A question to the file system. *)
Definition ask {A} (f : node -> A) : M A := fun w => (Ok (f (w_fs w)), w).

(** An operation that changes the file system, or raises. *)
Definition change (f : node -> result node) : M unit :=
  fun w => match f (w_fs w) with
           | Ok fs' => (Ok tt, mkWorld fs' (w_log w) (w_calls w)
                                       (w_derived w))
           | Raise e => (Raise e, w)
           end.

Definition lift {A} (r : result A) : M A :=
  fun w => (r, w).

(** [str(e)] in a handler. *)
Definition exn_text (e : exn) : pystr :=
  match e with ExecuteError m => m | PyException t => t end.

End Arcpy.
Import Arcpy.

Declare Scope run_scope.
Delimit Scope run_scope with run.
Notation "x <- m ;; k" := (bind m (fun x => k))
  (at level 61, m at next level, right associativity) : run_scope.
Notation "m ;;; k" := (bind m (fun _ => k))
  (at level 61, right associativity) : run_scope.
Open Scope run_scope.

(* ================================================================== *)
(** ** The script *)

Module Wrapper.

Definition exts : list pystr := [str ".dwg"; str ".dgn"; str ".dxf"].

(** [f.lower().endswith(exts)]. *)
Definition has_cad_ext (f : pystr) : bool :=
  existsb (endswith (lower f)) exts.

(** The inner loop of the walk: the drawings among the files of one
    directory, each joined to the directory. *)
Definition collect (t : pystr * list pystr * list pystr) : list pystr :=
  match t with
  | (root, _, files) => map (join root) (filter has_cad_ext files)
  end.

(** [_find_cad_files(folder, recursive)]. *)
Definition _find_cad_files (fs : node) (folder : pystr) (recursive : bool)
  : result (list pystr) :=
  if recursive then
    Ok (sorted (flat_map collect (walk fs folder)))
  else
    match listdir fs folder with
    | Ok names => Ok (sorted (map (join folder) (filter has_cad_ext names)))
    | Raise e => Raise e
    end.

(** [_unique_gdb_path(output_folder, base_name)], with the reading of
    the clock it makes. *)
Definition _unique_gdb_path (now : timestamp) (output_folder base_name : pystr)
  : pystr :=
  let stamp := strftime now in
  let gdb_name := base_name ++ str "_Converted_" ++ stamp ++ str ".gdb" in
  join output_folder gdb_name.

(** The name of the staging dataset (lines 259 to 261 of [main]). *)
Definition staging_dataset_name (now : timestamp) (project_name : pystr)
  : pystr :=
  let stamp := strftime now in
  _clean_name (str "CAD_RAW_" ++ project_name ++ str "_" ++ stamp).

(** [_copy_template_gdb(template_gdb, target_gdb)], on the file
    system. *)
Definition _copy_template_gdb (template_gdb target_gdb : pystr) (fs : node)
  : result node :=
  if exists_ fs target_gdb then
    match rmtree fs target_gdb with
    | Ok fs1 => copytree fs1 template_gdb target_gdb
    | Raise e => Raise e
    end
  else copytree fs template_gdb target_gdb.

(** The same function as a step of a run, statement by statement: what
    [shutil.rmtree] removed stays removed when [shutil.copytree] then
    raises. *)
Definition copy_template_step (template_gdb target_gdb : pystr) : M unit :=
  there <- ask (fun fs => exists_ fs target_gdb) ;;
  (if there then change (fun fs => rmtree fs target_gdb) else ret tt) ;;;
  change (fun fs => copytree fs template_gdb target_gdb).

(** [try: m  except Exception as e: h e]. *)
Definition try_except {A} (m : M A) (h : exn -> M A) : M A :=
  fun w => match m w with
           | (Ok a, w') => (Ok a, w')
           | (Raise e, w') => h e w'
           end.

Definition MSG_NO_MAP : pystr :=
  str "No active map found. To auto-add results, open or create a map in the current ArcGIS Pro project before running the tool.".
Definition MSG_SKIPPED (e : exn) : pystr :=
  str "Auto-add to map skipped: " ++ exn_text e.

(** [_add_dataset_to_map(dataset_path)]. *)
Definition _add_dataset_to_map (ev : env) (dataset_path : pystr) : M unit :=
  try_except
    (match current_project ev with
     | HostFault e => raise e
     | NoActiveMap =>
         AddWarning MSG_NO_MAP
     | ActiveMap addDataFromPath =>
         record (AddDataFromPath dataset_path) ;;;
         lift (addDataFromPath dataset_path) ;;;
         AddMessage (str "Added output dataset to the active map.")
     end)
    (fun e => AddMessage (MSG_SKIPPED e)).

Definition EXTENT_LIMIT : float := 5000000%float.

Definition EXTENT_WARNING : pystr :=
  str "Output extent is extremely large. This usually indicates an incorrect coordinate system definition.".

Definition width (ext : extent) : float :=
  PrimFloat.abs (PrimFloat.sub (XMax ext) (XMin ext)).
Definition height (ext : extent) : float :=
  PrimFloat.abs (PrimFloat.sub (YMax ext) (YMin ext)).

(** [width > 5_000_000 or height > 5_000_000]. *)
Definition suspicious (ext : extent) : bool :=
  PrimFloat.ltb EXTENT_LIMIT (width ext)
  || PrimFloat.ltb EXTENT_LIMIT (height ext).

(** [_warn_if_extent_suspicious(dataset_path)]. *)
Definition _warn_if_extent_suspicious (ev : env) (dataset_path : pystr)
  : M unit :=
  try_except
    (ext <- lift (describe_extent ev dataset_path) ;;
     if suspicious ext then AddWarning EXTENT_WARNING else ret tt)
    (fun _ => ret tt).

(** The parameters of the script tool. *)
Record request := mkRequest {
  cad_folder : pystr;
  output_folder : pystr;
  prj_file : pystr;
  project_name : pystr;
  auto_add : bool;
  search_subfolders : bool }.

Definition RULE : pystr :=
  str "--------------------------------------------------".

Definition MSG_INVALID_INPUT : pystr :=
  str "Input CAD Folder is invalid or missing.".
Definition MSG_NO_FILES : pystr :=
  str "No CAD files (.dwg/.dgn/.dxf) found in the input folder.".
Definition MSG_TIP : pystr :=
  str " Tip: If your CAD files are inside subfolders, enable 'Search subfolders'.".
Definition MSG_OUTPUT_REQUIRED : pystr := str "Output Folder is required.".
Definition MSG_NO_PRJ : pystr :=
  str "No projection file provided. CAD data will be imported WITHOUT a defined coordinate system.".
Definition MSG_REMINDER : pystr :=
  str "Reminder: CAD coordinates are NOT transformed. If output is misaligned, verify the CAD drawing's coordinate system in Civil 3D or OpenRoads before rerunning.".

(** Where the template is looked for (lines 217 and 218): beside the
    script. *)
Definition template_gdb_path (ev : env) : pystr :=
  join (script_dir ev) (str "template.gdb").
Definition MSG_NO_TEMPLATE (template_gdb : pystr) : pystr :=
  str "template.gdb not found next to script: " ++ template_gdb.

(** The message of the run that found no drawing (lines 188 to 190). *)
Definition no_files_message (search_subfolders : bool) : pystr :=
  if negb search_subfolders then MSG_NO_FILES ++ MSG_TIP else MSG_NO_FILES.

(** The project identifier (lines 181 to 184). *)
Definition project_identifier (cad_folder project_name : pystr) : pystr :=
  _clean_name
    (if truthy project_name then project_name
     else basename (normpath cad_folder)).

(** The report on the spatial reference (lines 206 to 215). *)
Definition report_sr (sr : option spatial_ref) : M unit :=
  match sr with
  | Some r =>
      AddMessage RULE ;;;
      AddMessage (str "CAD Coordinate System Definition") ;;;
      AddMessage RULE ;;;
      AddMessage (str "Name: " ++ sr_name r) ;;;
      AddMessage (str "Factory Code: " ++ sr_factoryCode r) ;;;
      AddMessage (str "Linear Unit: " ++ sr_linearUnitName r) ;;;
      AddMessage (str "Datum: " ++ match sr_GCS r with
                                   | Some g => g
                                   | None => str "Unknown"
                                   end)
  | None => AddMessage (str "No spatial reference will be defined on import.")
  end.

Definition banner (title : pystr) : M unit :=
  AddMessage RULE ;;; AddMessage title ;;; AddMessage RULE.

(** The body of the [try] of [main] from line 233 on: the store, the
    staging dataset, the conversion, the checks.  (The arrow of the
    first title, U+2192, is written [->].) *)
Definition convert (ev : env) (rq : request) (name : pystr)
           (cad_files : list pystr) (sr : option spatial_ref)
           (template_gdb : pystr) : M (option (pystr * pystr)) :=
  banner (str "Starting CAD -> Geodatabase conversion") ;;;
  banner (str "STEP 1: Validating inputs") ;;;
  AddMessage (str "Found " ++ of_nat (length cad_files) ++ str " CAD files") ;;;
  AddMessage (str "Project Name: " ++ name) ;;;
  let out_gdb := _unique_gdb_path (now_store ev) (output_folder rq) name in
  banner (str "STEP 2: Creating output Geodatabase from template") ;;;
  AddMessage (str "Creating output GDB from template: " ++ out_gdb) ;;;
  copy_template_step template_gdb out_gdb ;;;
  banner (str "STEP 3: Creating staging Feature Dataset") ;;;
  let staging := staging_dataset_name (now_staging ev) name in
  AddMessage (str "Creating staging Feature Dataset: " ++ staging) ;;;
  record (CreateFeatureDataset out_gdb staging sr) ;;;
  lift (create_feature_dataset ev out_gdb staging sr) ;;;
  let cad_inputs := join_with (str ";") cad_files in
  banner (str "STEP 4: CAD to Geodatabase Conversion") ;;;
  AddMessage (str "Running CADToGeodatabase...") ;;;
  record (CADToGeodatabase cad_inputs out_gdb staging 1000 sr) ;;;
  lift (cad_to_geodatabase ev cad_inputs out_gdb staging sr) ;;;
  let staging_path := join out_gdb staging in
  _warn_if_extent_suspicious ev staging_path ;;;
  AddMessage (str "CAD To Geodatabase completed successfully.") ;;;
  AddMessage (str "Output GDB: " ++ out_gdb) ;;;
  AddMessage (str "Staging Dataset: " ++ staging_path) ;;;
  banner (str "STEP 5: Map addition (optional)") ;;;
  (if auto_add rq then _add_dataset_to_map ev staging_path else ret tt) ;;;
  ret (Some (out_gdb, staging_path)).

(** The body of the [try] of [main]: [None] is an early [return],
    [Some] the two paths when the end of the block is reached. *)
Definition main_try (ev : env) (rq : request) : M (option (pystr * pystr)) :=
  input_ok <- ask (fun fs => truthy (cad_folder rq) && isdir fs (cad_folder rq)) ;;
  if negb input_ok then AddError MSG_INVALID_INPUT ;;; ret None
  else
    let name := project_identifier (cad_folder rq) (project_name rq) in
    found <- ask (fun fs => _find_cad_files fs (cad_folder rq) (search_subfolders rq)) ;;
    cad_files <- lift found ;;
    if is_nil cad_files then
      AddError (no_files_message (search_subfolders rq)) ;;;
      ret None
    else
      AddMessage (str "Found " ++ of_nat (length cad_files)
                  ++ str " CAD files (recursive="
                  ++ of_bool (search_subfolders rq) ++ str ")") ;;;
      if negb (truthy (output_folder rq)) then
        AddError MSG_OUTPUT_REQUIRED ;;; ret None
      else
        change (fun fs => makedirs fs (output_folder rq)) ;;;
        prj_ok <- ask (fun fs => truthy (prj_file rq) && isfile fs (prj_file rq)) ;;
        sr <- (if negb prj_ok then AddWarning MSG_NO_PRJ ;;; ret None
               else r <- lift (SpatialReference ev (prj_file rq)) ;; ret (Some r)) ;;
        report_sr sr ;;;
        let template_gdb := template_gdb_path ev in
        template_ok <- ask (fun fs => isdir fs template_gdb) ;;
        if negb template_ok then
          AddError (MSG_NO_TEMPLATE template_gdb) ;;;
          ret None
        else if is_nil cad_files then
          AddError MSG_NO_FILES ;;; ret None
        else convert ev rq name cad_files sr template_gdb.

(** [main()]: the handlers report and raise again; after the block, the
    reminder and the derived outputs. *)
Definition main (ev : env) (rq : request) : M (option (pystr * pystr)) :=
  fun w =>
    match main_try ev rq w with
    | (Ok None, w') => (Ok None, w')
    | (Ok (Some (out_gdb, staging_path)), w') =>
        (AddWarning MSG_REMINDER ;;;
         SetParameterAsText 6 out_gdb ;;;
         SetParameterAsText 7 staging_path ;;;
         ret (Some (out_gdb, staging_path))) w'
    | (Raise (ExecuteError m), w') =>
        (AddError (str "ArcGIS geoprocessing error occurred.") ;;;
         AddError m ;;;
         raise (ExecuteError m)) w'
    | (Raise (PyException t), w') =>
        (AddError (str "Unexpected error occurred.") ;;;
         AddError t ;;;
         raise (PyException t)) w'
    end.

End Wrapper.
Import Wrapper.

(* ================================================================== *)
(** ** Notions used to state what the names are made of *)

Module Naming.

Definition opens_with_underscore (s : pystr) : bool :=
  match s with c :: _ => is_underscore c | [] => false end.

(** Without every underscore that is followed by an underscore. *)
Fixpoint squeeze (s : pystr) : pystr :=
  match s with
  | [] => []
  | a :: t =>
      if is_underscore a && opens_with_underscore t then squeeze t
      else a :: squeeze t
  end.

Definition name_char (c : ascii) : Prop := isalnum c = true \/ c = underscore.

(** The number a string of decimal digits writes. *)
Definition digits_value (s : pystr) : N :=
  fold_left (fun acc c => (acc * 10 + (code c - 48))%N) s 0%N.

(** [pad w n] has [w] digits that write [n], for every [n] below [bound]. *)
Definition pad_ok (w : nat) (bound : nat) : bool :=
  forallb (fun k => let n := N.of_nat k in
                    (length (pad w n) =? w)
                    && (digits_value (pad w n) =? n)%N
                    && forallb (in_range 48 57) (pad w n))
          (seq 0 bound).

End Naming.
Import Naming.

(* ================================================================== *)
(** ** Notions used to state what the discovery returns *)

Module Discovery.

Definition le_str (a b : pystr) : Prop := leb a b = true.

(** What [join] puts before a name that does not start with a separator. *)
Definition base (a : pystr) : pystr :=
  if negb (truthy a) || endswith a [sep] then a else a ++ [sep].

(** The components after the first, each behind its separator. *)
Definition tail_of (cs : list pystr) : pystr := concat (map (cons sep) cs).

Definition joins (top : pystr) (comps : list pystr) : pystr :=
  fold_left join comps top.

Definition sep_free (k : pystr) : Prop := ~ In sep k.

Definition opens_with_sep (r : pystr) : Prop :=
  match r with [] => True | c :: _ => c = sep end.

Definition is_file_entry (e : pystr * node) : bool := negb (is_dir_node (snd e)).

(** The drawings below a node, each as the names that lead to it, in the
    order of the walk. *)
Fixpoint cad_chains (n : node) : list (list pystr) :=
  match n with
  | File _ => []
  | Dir es =>
      map (fun f => [f])
          (filter has_cad_ext (map fst (filter is_file_entry es)))
      ++ flat_map
           (fun e => match snd e with
                     | Dir _ => map (cons (fst e)) (cad_chains (snd e))
                     | File _ => []
                     end) es
  end.

Definition good_name (c : pystr) : Prop := c <> [] /\ sep_free c.

End Discovery.
Import Discovery.

(* ================================================================== *)
(** ** Reading the log and the trace of a run *)

Module Trace.

(** The warning of line 201. *)
Definition is_no_prj_warning (e : level * pystr) : bool :=
  match fst e with Warning => eqs (snd e) MSG_NO_PRJ | _ => false end.

(** The spatial reference a call to the engine carries. *)
Definition call_sr (c : call) : option spatial_ref :=
  match c with
  | CreateFeatureDataset _ _ sr => sr
  | CADToGeodatabase _ _ _ _ sr => sr
  | AddDataFromPath _ => None
  end.

End Trace.
Import Trace.

(* ================================================================== *)
(** ** Sample surroundings, used to run the definitions *)

Module Sample.

Definition ts1 : timestamp := mkTs 2025 12 15 19 0 10.
Definition ts2 : timestamp := mkTs 2025 12 15 19 0 11.

Definition template_node : node :=
  Dir [(str "gdb", File (str "template")); (str "schema", Dir [])].

(** A project folder with drawings at two levels, the script with its
    template beside it, and an output folder that holds an old store. *)
Definition tree : node :=
  Dir [(str "data",
        Dir [(str "roads",
              Dir [(str "b.DXF", File (str "dxf"));
                   (str "a.dwg", File (str "dwg"));
                   (str "notes.txt", File (str "text"));
                   (str "sub", Dir [(str "c.dgn", File (str "dgn"))])]);
             (str "empty", Dir [(str "readme.md", File [])]);
             (str "___", Dir [(str "a.dwg", File [])])]);
       (str "tool", Dir [(str "template.gdb", template_node)]);
       (str "bare", Dir []);
       (str "out",
        Dir [(str "roads_Converted_20251215_190010.gdb",
              Dir [(str "old", File (str "kept?"))])])].

(** An engine that succeeds, with the host and the extent to choose. *)
Definition env_ok (h : host) (d : pystr -> result extent) : env :=
  mkEnv (str "/tool") ts1 ts1
        (fun _ => Ok (mkSr (str "NAD83") (str "26913") (str "Meter") None))
        (fun _ _ _ => Ok tt) (fun _ _ _ _ => Ok tt) d h.

Definition small_extent : extent := mkExtent 0 0 1000 2000.
Definition huge_extent : extent := mkExtent 0 0 5000001 10.

Definition world0 : world := mkWorld tree [] [] [].

Definition old_store : pystr := str "/out/roads_Converted_20251215_190010.gdb".
Definition template_path : pystr := str "/tool/template.gdb".

Definition env1 : env := env_ok NoActiveMap (fun _ => Ok small_extent).

(** Drawings below [/data/roads], a new output folder, no projection
    file, no project name. *)
Definition rq1 : request :=
  mkRequest (str "/data/roads") (str "/out2") [] [] true true.

(** The same drawings, sent to the folder that holds the old store. *)
Definition rq_again : request :=
  mkRequest (str "/data/roads") (str "/out") [] [] true true.

Definition made1 : node :=
  match makedirs tree (output_folder rq1) with Ok fs => fs | Raise _ => tree end.
Definition store1 : pystr :=
  _unique_gdb_path ts1 (str "/out2") (str "roads").
Definition copied1 : node :=
  match _copy_template_gdb template_path store1 made1 with
  | Ok fs => fs
  | Raise _ => tree
  end.

Definition boom : exn := PyException (str "boom").

Definition long_name : pystr := repeat "a"%char 64.
Definition name41 : pystr := repeat "a"%char 41.


(** U+00E9, a letter outside [A-Za-z]. *)
Definition e_acute : ascii := ascii_of_N 233.

End Sample.

(* ================================================================== *)
(** ** Notions used to state what the script does beyond its names:
    well-formed names, the shape of a tree, what a run keeps *)

Unset Implicit Arguments.

(** A character of a name: [isalnum] accepts it, or it is an underscore. *)
Definition is_name_char (c : ascii) : bool := isalnum c || is_underscore c.

(** A name the sanitizer has nothing to do on: not empty, at most 64
    characters of names, no ["__"], no underscore at either end, no
    digit in front. *)
Definition well_formed_name (r : pystr) : bool :=
  match r with
  | [] => false
  | c :: _ => negb (isdigit c) && negb (is_underscore c)
  end
  && forallb is_name_char r
  && negb (contains_uu r)
  && negb (is_underscore (last r underscore))
  && (length r <=? MAX_LEN).

(** What is at a place of the tree: nothing, a file, or a directory. *)
Inductive kind := Absent | IsFile | IsDir.

Definition kind_of (o : option node) : kind :=
  match o with
  | None => Absent
  | Some (File _) => IsFile
  | Some (Dir _) => IsDir
  end.

(** Two trees with the same names at the same places, files for files
    and directories for directories, whatever the order of the entries
    and the contents of the files. *)
Fixpoint same_shape (n n' : node) : bool :=
  match n, n' with
  | File _, File _ => true
  | Dir es, Dir es' =>
      forallb (fun e => match assoc (fst e) es' with
                        | Some ch' => same_shape (snd e) ch'
                        | None => false
                        end) es
      && forallb (fun e' => match assoc (fst e') es with
                            | Some _ => true
                            | None => false
                            end) es'
  | _, _ => false
  end.

(** A second arrangement of the sample project: the same names at the
    same places, listed in another order, with other file contents. *)
Definition shuffled : node :=
  Dir [(str "out",
        Dir [(str "roads_Converted_20251215_190010.gdb",
              Dir [(str "old", File [])])]);
       (str "bare", Dir []);
       (str "data",
        Dir [(str "___", Dir [(str "a.dwg", File (str "other"))]);
             (str "roads",
              Dir [(str "sub", Dir [(str "c.dgn", File [])]);
                   (str "notes.txt", File []);
                   (str "a.dwg", File (str "changed"));
                   (str "b.DXF", File [])]);
             (str "empty", Dir [(str "readme.md", File (str "hello"))])]);
       (str "tool",
        Dir [(str "template.gdb",
              Dir [(str "schema", Dir []); (str "gdb", File [])])])].

(** A folder that holds a directory named like a drawing. *)
Definition site : node :=
  Dir [(str "site",
        Dir [(str "plans.dwg", Dir [(str "sheet1.txt", File [])]);
             (str "a.dxf", File (str "dxf"))])].

(** The name [_unique_gdb_path] gives the store inside the output folder. *)
Definition gdb_name (now : timestamp) (base_name : pystr) : pystr :=
  base_name ++ str "_Converted_" ++ strftime now ++ str ".gdb".

(** A relation between the world before a computation and the world
    after it that every run of the computation satisfies, however it
    ends. *)
Definition keeps (P : world -> world -> Prop) {A : Type} (m : M A) : Prop :=
  forall w r w', m w = (r, w') -> P w w'.

(** The same derived outputs. *)
Definition same_outputs (w w' : world) : Prop := w_derived w' = w_derived w.

(** The same tree at every place apart from [cs]. *)
Definition same_outside (cs : list pystr) (w w' : world) : Prop :=
  forall p, apart cs p = true -> lookup (w_fs w') p = lookup (w_fs w) p.

(** With the directory [dir] in place at the start, it still is at the
    end, and the tree is the same at every place apart from [cs]. *)
Definition same_beside (dir : pystr) (cs : list pystr) (w w' : world) : Prop :=
  isdir (w_fs w) dir = true ->
  isdir (w_fs w') dir = true /\ same_outside cs w w'.

(** The first line a handler of [main] writes (lines 297 and 301). *)
Definition handler_headline (e : exn) : pystr :=
  match e with
  | ExecuteError _ => str "ArcGIS geoprocessing error occurred."
  | PyException _ => str "Unexpected error occurred."
  end.

(** The log, longer or the same. *)
Definition log_grows (w w' : world) : Prop :=
  exists new, w_log w' = w_log w ++ new.

(** A path in normal form: not empty, absolute or relative, and every
    component a name (not empty, not [.], not [..]); so no doubled or
    trailing separator.  On such a path the resolution on the text and
    the resolution on the tree are the same. *)
Definition plain_path (p : pystr) : bool :=
  match split sep p with
  | [] => false
  | c :: cs =>
      if eqs c [] then negb (is_nil cs) && forallb valid_name cs
      else forallb valid_name (c :: cs)
  end.

(** The paths of a run in normal form: the two folders, the template,
    and the projection file when one is given. *)
Definition plain_request (ev : env) (rq : request) : bool :=
  plain_path (cad_folder rq) && plain_path (output_folder rq)
  && (negb (truthy (prj_file rq)) || plain_path (prj_file rq))
  && plain_path (template_gdb_path ev).

(** Some place on the way along [cs], its end included, holds a file. *)
Definition file_on_the_way (fs : node) (cs : list pystr) : bool :=
  existsb (fun k => match lookup fs (firstn k cs) with
                    | Some (File _) => true
                    | _ => false
                    end)
          (seq 0 (S (length cs))).





(** Extents for the sanity check: 10 wide and 6,000,000 high; 5,000,001
    wide with its corners exchanged; 5,000,000 by 5,000,000, the limit
    itself; one with a coordinate that is not a number. *)
Definition tall_extent : extent := mkExtent 0 0 10 6000000.
Definition reversed_extent : extent := mkExtent 5000001 0 0 10.
Definition limit_extent : extent := mkExtent 0 0 5000000 5000000.
Definition nan_extent : extent := mkExtent nan 0 6000000 10.

Set Implicit Arguments.

(* ================================================================== *)
(** * Properties *)

(** ** The extent sanity checker *)

(** C8: when the extent can be read, the checker returns normally,
    leaves the file system, the calls and the derived outputs as they
    are, and adds one warning to the log exactly when
    [|XMax - XMin| > 5,000,000] or [|YMax - YMin| > 5,000,000] in
    binary64 arithmetic, and nothing otherwise; when the extent cannot be
    read, the checker returns normally and leaves the world as it is.
    So an extent 6,000,000 high is reported, and so is one 5,000,001
    wide with its corners exchanged; an extent of exactly 5,000,000 by
    5,000,000 is not, nor is one with a coordinate that is not a
    number. *)
Theorem C8_extent_checker (ev : env) (p : pystr) (w : world) :
  match describe_extent ev p with
  | Ok ext =>
      let wide :=
        PrimFloat.ltb 5000000
          (PrimFloat.abs (PrimFloat.sub (XMax ext) (XMin ext))) in
      let high :=
        PrimFloat.ltb 5000000
          (PrimFloat.abs (PrimFloat.sub (YMax ext) (YMin ext))) in
      _warn_if_extent_suspicious ev p w
      = (Ok tt,
         mkWorld (w_fs w)
                 (w_log w ++ (if wide || high
                              then [(Warning, EXTENT_WARNING)] else []))
                 (w_calls w) (w_derived w))
  | Raise _ => _warn_if_extent_suspicious ev p w = (Ok tt, w)
  end
  /\ (forall q w0,
        _warn_if_extent_suspicious
          (Sample.env_ok NoActiveMap (fun _ => Ok tall_extent)) q w0
        = (Ok tt, mkWorld (w_fs w0) (w_log w0 ++ [(Warning, EXTENT_WARNING)])
                          (w_calls w0) (w_derived w0))
        /\ _warn_if_extent_suspicious
             (Sample.env_ok NoActiveMap (fun _ => Ok reversed_extent)) q w0
           = (Ok tt, mkWorld (w_fs w0)
                             (w_log w0 ++ [(Warning, EXTENT_WARNING)])
                             (w_calls w0) (w_derived w0))
        /\ _warn_if_extent_suspicious
             (Sample.env_ok NoActiveMap (fun _ => Ok limit_extent)) q w0
           = (Ok tt, w0)
        /\ _warn_if_extent_suspicious
             (Sample.env_ok NoActiveMap (fun _ => Ok nan_extent)) q w0
           = (Ok tt, w0)).
Proof.
  split.
  - unfold _warn_if_extent_suspicious, try_except, bind, lift.
    destruct (describe_extent ev p) as [ext|e]; [|reflexivity].
    cbv zeta. unfold suspicious, width, height, EXTENT_LIMIT.
    destruct (PrimFloat.ltb 5000000
                (PrimFloat.abs (PrimFloat.sub (XMax ext) (XMin ext))) ||
              PrimFloat.ltb 5000000
                (PrimFloat.abs (PrimFloat.sub (YMax ext) (YMin ext)))).
    + reflexivity.
    + destruct w. unfold ret. cbn [w_fs w_log w_calls w_derived].
      now rewrite app_nil_r.
  - intros q [fs lg cs dr]. repeat split; reflexivity.
Qed.

Example extent_small :
  _warn_if_extent_suspicious
    (Sample.env_ok NoActiveMap (fun _ => Ok Sample.small_extent)) (str "x")
    Sample.world0 = (Ok tt, Sample.world0).
Proof. vm_compute. reflexivity. Qed.

Example extent_huge :
  w_log (snd (_warn_if_extent_suspicious
    (Sample.env_ok NoActiveMap (fun _ => Ok Sample.huge_extent)) (str "x")
    Sample.world0)) = [(Warning, EXTENT_WARNING)].
Proof. vm_compute. reflexivity. Qed.

(** ** Registration with the visualization host *)

Lemma bind_same_result A B (m : M A) (k1 k2 : A -> M B) w :
  (forall a w', fst (k1 a w') = fst (k2 a w')) ->
  fst (bind m k1 w) = fst (bind m k2 w).
Proof.
  intros H. unfold bind. destruct (m w) as [[a|e] w']; [apply H|reflexivity].
Qed.

Lemma registration_returns ev p w :
  exists w', _add_dataset_to_map ev p w = (Ok tt, w').
Proof.
  unfold _add_dataset_to_map, try_except.
  destruct (current_project ev) as [e| |add]; try (eexists; reflexivity).
  unfold bind, record, lift. simpl. destruct (add p) as [[]|e]; eexists; reflexivity.
Qed.

Lemma main_try_ignores_host ev h rq w :
  fst (main_try (set_host ev h) rq w) = fst (main_try ev rq w).
Proof.
  unfold main_try.
  apply bind_same_result. intros ok w1.
  destruct (negb ok); [reflexivity|].
  apply bind_same_result. intros found w2.
  apply bind_same_result. intros files w3.
  destruct (is_nil files) eqn:Hnil; [reflexivity|].
  apply bind_same_result. intros _ w4.
  destruct (negb (truthy (output_folder rq))); [reflexivity|].
  apply bind_same_result. intros _ w5.
  apply bind_same_result. intros prj_ok w6.
  cbn [SpatialReference set_host].
  apply bind_same_result. intros sr w7.
  apply bind_same_result. intros _ w8.
  cbv zeta.
  change (template_gdb_path (set_host ev h)) with (template_gdb_path ev).
  apply bind_same_result. intros tok w9.
  destruct (negb tok); [reflexivity|].
  unfold convert. cbv zeta.
  cbn [now_store now_staging create_feature_dataset cad_to_geodatabase set_host].
  repeat (apply bind_same_result; intros ? ?).
  unfold bind. destruct (auto_add rq); [|reflexivity].
  match goal with
  | |- context [_add_dataset_to_map (set_host ev h) ?p ?w] =>
      destruct (registration_returns (set_host ev h) p w) as [wa ->];
      destruct (registration_returns ev p w) as [wb ->]
  end.
  reflexivity.
Qed.

Lemma main_result ev rq w : fst (main ev rq w) = fst (main_try ev rq w).
Proof.
  unfold main. destruct (main_try ev rq w) as [[[[g s]|]|[m|t]] w'];
    reflexivity.
Qed.

Lemma main_ignores_host ev h rq w :
  fst (main (set_host ev h) rq w) = fst (main ev rq w).
Proof. rewrite !main_result. apply main_try_ignores_host. Qed.


(** C7, as stated, fails: a fault of the host is caught, but it is
    reported with [AddMessage], and the log holds no warning. *)
Lemma C7_fault_is_a_message_not_a_warning :
  _add_dataset_to_map
    (Sample.env_ok (HostFault Sample.boom) (fun _ => Ok Sample.small_extent))
    (str "/out/x.gdb/CAD_RAW_x") Sample.world0
  = (Ok tt, mkWorld Sample.tree
              [(Message, str "Auto-add to map skipped: boom")] [] [])
  /\ ~ (exists t,
          In (Warning, t)
             (w_log (snd (_add_dataset_to_map
                (Sample.env_ok (HostFault Sample.boom)
                               (fun _ => Ok Sample.small_extent))
                (str "/out/x.gdb/CAD_RAW_x") Sample.world0)))).
Proof.
  split; [vm_compute; reflexivity|].
  intros [t Ht]. vm_compute in Ht. destruct Ht as [Ht|[]]. discriminate Ht.
Qed.

(** C7, amended: the registration step always returns normally and leaves
    the file system alone, so the run goes on to its end whatever the
    host does, and whether the run returns or raises, and what it returns,
    is the same with every host; a missing active map is reported as a
    warning, and a failure raised by the host is reported as an
    informational message ("Auto-add to map skipped: ..."). *)
Theorem C7_registration_never_fails (ev : env) (p : pystr) (w : world) :
  (forall h rq w0, fst (main (set_host ev h) rq w0) = fst (main ev rq w0))
  /\ exists w',
      _add_dataset_to_map ev p w = (Ok tt, w')
      /\ w_fs w' = w_fs w
      /\ (forall A (x : A),
            (_add_dataset_to_map ev p ;;; ret x) w = (Ok x, w'))
      /\ match current_project ev with
         | HostFault e => w_log w' = w_log w ++ [(Message, MSG_SKIPPED e)]
         | NoActiveMap => w_log w' = w_log w ++ [(Warning, MSG_NO_MAP)]
         | ActiveMap add =>
             match add p with
             | Ok _ =>
                 w_log w' = w_log w
                   ++ [(Message, str "Added output dataset to the active map.")]
             | Raise e => w_log w' = w_log w ++ [(Message, MSG_SKIPPED e)]
             end
         end.
Proof.
  split; [intros h rq w0; apply main_ignores_host|].
  unfold _add_dataset_to_map, try_except.
  destruct (current_project ev) as [e| |add].
  - eexists; split; [reflexivity|]. simpl. repeat split.
  - eexists; split; [reflexivity|]. simpl. repeat split.
  - unfold bind, record, lift; simpl.
    destruct (add p) as [[]|e]; simpl.
    + eexists; split; [reflexivity|]. simpl. repeat split.
    + eexists; split; [reflexivity|]. simpl. repeat split.
Qed.

(** ** A run that finds no drawing *)

(** C4: when the input folder is a directory and the discovery returns the
    empty list, the run reports one error and returns; the text of the
    error depends on the recursion flag; the file system, the calls to
    the engine and the derived outputs are as before, so no store is
    made. *)
Theorem C4_no_input_files (ev : env) (rq : request) (w : world) :
  truthy (cad_folder rq) && isdir (w_fs w) (cad_folder rq) = true ->
  _find_cad_files (w_fs w) (cad_folder rq) (search_subfolders rq) = Ok [] ->
  main ev rq w
  = (Ok None,
     mkWorld (w_fs w)
             (w_log w ++ [(Error, no_files_message (search_subfolders rq))])
             (w_calls w) (w_derived w))
  /\ no_files_message true <> no_files_message false.
Proof.
  intros Hin Hfind. split.
  - unfold main, main_try, bind, ask, lift. cbn beta iota.
    rewrite Hin. cbn. rewrite Hfind. reflexivity.
  - intro H. apply (f_equal (@length ascii)) in H. vm_compute in H. discriminate H.
Qed.

Lemma C4_no_input_files_witness :
  main (Sample.env_ok NoActiveMap (fun _ => Ok Sample.small_extent))
       (mkRequest (str "/data/empty") (str "/out") [] [] true false)
       Sample.world0
  = (Ok None,
     mkWorld Sample.tree [(Error, no_files_message false)] [] [])
  /\ no_files_message true <> no_files_message false.
Proof.
  apply (C4_no_input_files
           (Sample.env_ok NoActiveMap (fun _ => Ok Sample.small_extent))
           (mkRequest (str "/data/empty") (str "/out") [] [] true false)
           Sample.world0); reflexivity.
Defined.

(** ** Provisioning the store over an existing one *)

(** C2, as stated, fails: with a store already at the allocated path, the
    copy of the template returns normally; the old store is removed and
    the template takes its place; the run as a whole ends with its two
    paths. *)
Lemma C2_existing_store_is_replaced :
  _unique_gdb_path Sample.ts1 (str "/out") (str "roads") = Sample.old_store
  /\ lookup Sample.tree (locate Sample.old_store)
     = Some (Dir [(str "old", File (str "kept?"))])
  /\ (exists fs',
        _copy_template_gdb Sample.template_path Sample.old_store Sample.tree
        = Ok fs'
        /\ lookup fs' (locate Sample.old_store) = Some Sample.template_node
        /\ lookup fs' (locate Sample.old_store ++ [str "old"]) = None)
  /\ fst (main Sample.env1 Sample.rq_again Sample.world0)
     = Ok (Some (Sample.old_store,
                 join Sample.old_store (str "CAD_RAW_roads_20251215_190010")))
  /\ lookup (w_fs (snd (main Sample.env1 Sample.rq_again Sample.world0)))
            (locate Sample.old_store)
     = Some Sample.template_node.
Proof.
  split; [reflexivity|]. split; [reflexivity|].
  split; [eexists; split; [vm_compute; reflexivity|]; split; reflexivity|].
  split; vm_compute; reflexivity.
Qed.

(** ** The sanitizer on names it does not repair *)

(** C3 at its failing inputs: a name that starts with an underscore and a
    digit comes out starting with the digit; a name of punctuation only
    comes out empty; a letter outside A-Z, a-z is kept as it is. *)
Theorem C3_sanitizer_failing_inputs :
  _clean_name (str "_1") = str "1"
  /\ _clean_name (str "!!!") = []
  /\ _clean_name [Sample.e_acute] = [Sample.e_acute].
Proof. repeat split. Qed.

(** ** The staging name of a long project identifier *)

(** C1 at its failing inputs: for an identifier of 64 characters the 64
    characters kept by the sanitizer hold nothing of the timestamp, and
    for one of 41 characters the last digit of the seconds is cut, so two
    runs one second apart get the same staging name. *)
Theorem C1_staging_name_collides :
  _clean_name Sample.long_name = Sample.long_name
  /\ _clean_name Sample.name41 = Sample.name41
  /\ valid_ts Sample.ts1 = true /\ valid_ts Sample.ts2 = true
  /\ strftime Sample.ts1 <> strftime Sample.ts2
  /\ staging_dataset_name Sample.ts1 Sample.long_name
     = staging_dataset_name Sample.ts2 Sample.long_name
  /\ staging_dataset_name Sample.ts1 Sample.name41
     = staging_dataset_name Sample.ts2 Sample.name41.
Proof.
  repeat split; try reflexivity.
  intro H. vm_compute in H. discriminate H.
Qed.

(** ** The identifier of a folder whose name has no letter or digit *)

(** C10 at its failing input: the folder [/data/___] is a directory, and
    the identifier derived from it, with or without a separator at the
    end, is the empty string. *)
Theorem C10_identifier_can_be_empty :
  isdir Sample.tree (str "/data/___") = true
  /\ project_identifier (str "/data/___") [] = []
  /\ project_identifier (str "/data/___/") [] = [].
Proof. repeat split. Qed.

(** ** The file system: entries and look-up *)

Lemma eqs_refl (a : pystr) : eqs a a = true.
Proof. unfold eqs. destruct (pystr_eq_dec a a); congruence. Qed.

Lemma eqs_true (a b : pystr) : eqs a b = true <-> a = b.
Proof. unfold eqs. destruct (pystr_eq_dec a b); split; congruence. Qed.

Lemma eqs_false (a b : pystr) : eqs a b = false <-> a <> b.
Proof. unfold eqs. destruct (pystr_eq_dec a b); split; congruence. Qed.

Lemma assoc_set_same k v es : assoc k (set_entry k v es) = Some v.
Proof.
  induction es as [|[k' v'] t IH]; simpl.
  - now rewrite eqs_refl.
  - destruct (eqs k k') eqn:E; simpl.
    + now rewrite eqs_refl.
    + now rewrite E.
Qed.

Lemma assoc_set_other k k' v es :
  k <> k' -> assoc k' (set_entry k v es) = assoc k' es.
Proof.
  intros Hne. induction es as [|[k0 v0] t IH]; simpl.
  - destruct (eqs k' k) eqn:E; [apply eqs_true in E; congruence|reflexivity].
  - destruct (eqs k k0) eqn:E; simpl.
    + apply eqs_true in E; subst k0.
      destruct (eqs k' k) eqn:E'; [apply eqs_true in E'; congruence|reflexivity].
    + now rewrite IH.
Qed.

Lemma assoc_del_same k es : assoc k (del_entry k es) = None.
Proof.
  unfold del_entry. induction es as [|[k' v'] t IH]; simpl; [reflexivity|].
  destruct (eqs k k') eqn:E; simpl; [assumption|now rewrite E].
Qed.

Lemma assoc_del_other k k' es :
  k <> k' -> assoc k' (del_entry k es) = assoc k' es.
Proof.
  intros Hne. unfold del_entry.
  induction es as [|[k0 v0] t IH]; simpl; [reflexivity|].
  destruct (eqs k k0) eqn:E; simpl.
  - apply eqs_true in E; subst k0.
    destruct (eqs k' k) eqn:E'; [apply eqs_true in E'; congruence|assumption].
  - now rewrite IH.
Qed.

(** After [mkdirs] the path names a directory. *)
Lemma mkdirs_lookup cs : forall n n',
  mkdirs n cs = Some n' -> exists es, lookup n' cs = Some (Dir es).
Proof.
  induction cs as [|c cs IH]; intros n n' H; simpl in *.
  - destruct n; inversion H; subst. eexists; reflexivity.
  - destruct n as [d|es]; [discriminate|].
    destruct (assoc c es) as [ch|] eqn:A.
    + destruct (mkdirs ch cs) as [ch'|] eqn:R; inversion H; subst.
      simpl. rewrite assoc_set_same. eapply IH; eassumption.
    + destruct (mkdirs (Dir []) cs) as [ch'|] eqn:R; inversion H; subst.
      simpl. rewrite assoc_set_same. eapply IH; eassumption.
Qed.

Lemma makedirs_isdir fs p fs' :
  makedirs fs p = Ok fs' -> isdir fs' p = true.
Proof.
  unfold makedirs, isdir. destruct p as [|c t]; [discriminate|].
  destruct (mkdirs fs (locate (c :: t))) as [n|] eqn:E;
    [|destruct (through_file fs (locate (c :: t))); discriminate].
  intros H; inversion H; subst.
  destruct (mkdirs_lookup _ _ E) as [es ->]. reflexivity.
Qed.

(** ** The copy of the template as a step of the run *)

Lemma copy_template_step_ok tpl tgt fs lg cs dr fs' :
  _copy_template_gdb tpl tgt fs = Ok fs' ->
  copy_template_step tpl tgt (mkWorld fs lg cs dr)
  = (Ok tt, mkWorld fs' lg cs dr).
Proof.
  unfold _copy_template_gdb, copy_template_step, bind, ask, change, ret.
  cbv beta iota zeta delta [w_fs w_log w_calls w_derived].
  destruct (exists_ fs tgt).
  - destruct (rmtree fs tgt) as [fs1|e]; [|discriminate].
    cbv beta iota zeta delta [w_fs w_log w_calls w_derived].
    intros H. rewrite H. reflexivity.
  - intros H. rewrite H. reflexivity.
Qed.

Lemma copy_template_step_raise tpl tgt fs lg cs dr e :
  _copy_template_gdb tpl tgt fs = Raise e ->
  exists fs1,
    copy_template_step tpl tgt (mkWorld fs lg cs dr)
    = (Raise e, mkWorld fs1 lg cs dr)
    /\ (fs1 = fs \/ rmtree fs tgt = Ok fs1).
Proof.
  unfold _copy_template_gdb, copy_template_step, bind, ask, change, ret.
  cbv beta iota zeta delta [w_fs w_log w_calls w_derived].
  destruct (exists_ fs tgt).
  - destruct (rmtree fs tgt) as [fs1|e0].
    + cbv beta iota zeta delta [w_fs w_log w_calls w_derived].
      intros H. rewrite H. exists fs1. auto.
    + intros H. inversion H; subst. exists fs. auto.
  - intros H. rewrite H. exists fs. auto.
Qed.

(** ** The steps of the run *)

Lemma bind_ok_inv A B (m : M A) (k : A -> M B) w (b : B) w' :
  bind m k w = (Ok b, w') ->
  exists a w1, m w = (Ok a, w1) /\ k a w1 = (Ok b, w').
Proof.
  unfold bind. destruct (m w) as [[a|e] w1]; intros H.
  - eauto.
  - discriminate.
Qed.

Ltac bind_inv H :=
  let a := fresh "a" in
  let w := fresh "w" in
  apply bind_ok_inv in H; destruct H as (a & w & _ & H).

(** The conversion proper never ends in an early return. *)
Lemma convert_not_early ev rq name files sr t w w' :
  convert ev rq name files sr t w <> (Ok None, w').
Proof.
  unfold convert. cbv zeta. intros H.
  repeat bind_inv H. discriminate H.
Qed.

Lemma last_snoc A (l : list A) (x d : A) : last (l ++ [x]) d = x.
Proof. apply last_last. Qed.

Ltac norm_run E :=
  cbv beta iota zeta
      delta [main_try bind ask lift change AddError AddWarning AddMessage
             emit ret report_sr w_fs w_log w_calls w_derived] in E.

Ltac norm_all :=
  cbv beta iota zeta
      delta [main main_try convert banner bind ask lift change
             AddError AddWarning AddMessage emit ret report_sr record
             SetParameterAsText raise _warn_if_extent_suspicious
             _add_dataset_to_map try_except
             w_fs w_log w_calls w_derived].

(** ** A run without its template *)

(** C9: a run that returns after the error on the missing template has
    made the output folder before ([os.makedirs] comes first): the file
    system it leaves is the one [makedirs] gave, the output folder is a
    directory in it, the template still is not, and the engine was not
    called, so no store was made. *)
Theorem C9_missing_template_leaves_output_dir
        (ev : env) (rq : request) (w w' : world) :
  main ev rq w = (Ok None, w') ->
  last (w_log w') (Message, [])
  = (Error, MSG_NO_TEMPLATE (template_gdb_path ev)) ->
  makedirs (w_fs w) (output_folder rq) = Ok (w_fs w')
  /\ isdir (w_fs w') (output_folder rq) = true
  /\ isdir (w_fs w') (template_gdb_path ev) = false
  /\ w_calls w' = w_calls w /\ w_derived w' = w_derived w.
Proof.
  intros Hm Hlast. unfold main in Hm. destruct w as [fs0 log0 calls0 der0].
  destruct (main_try ev rq _) as [[[[g s]|]|e] w1] eqn:E.
  - exfalso. revert Hm.
    unfold bind, AddWarning, emit, SetParameterAsText, ret. simpl. discriminate.
  - inversion Hm; subst w1. clear Hm. norm_run E.
    destruct (negb (truthy (cad_folder rq) && isdir fs0 (cad_folder rq))) eqn:Hin; norm_run E.
    { inversion E; subst; clear E. cbn [w_log] in Hlast. rewrite last_snoc in Hlast.
      exfalso. vm_compute in Hlast. discriminate Hlast. }
    destruct (_find_cad_files fs0 (cad_folder rq) (search_subfolders rq)) as [files|e] eqn:Hf; norm_run E.
    2:{ discriminate E. }
    destruct (is_nil files) eqn:Hnil; norm_run E.
    { inversion E; subst; clear E. cbn [w_log] in Hlast. rewrite last_snoc in Hlast.
      exfalso. unfold no_files_message in Hlast. destruct (search_subfolders rq); vm_compute in Hlast; discriminate Hlast. }
    destruct (negb (truthy (output_folder rq))) eqn:Hout; norm_run E.
    { inversion E; subst; clear E. cbn [w_log] in Hlast. rewrite last_snoc in Hlast.
      exfalso. vm_compute in Hlast. discriminate Hlast. }
    destruct (makedirs fs0 (output_folder rq)) as [made|e] eqn:Hmk; norm_run E.
    2:{ discriminate E. }
    destruct (negb (truthy (prj_file rq) && isfile made (prj_file rq))) eqn:Hprj; norm_run E.
    + destruct (negb (isdir made (template_gdb_path ev))) eqn:Ht; norm_run E.
      * inversion E; subst; clear E. cbn [w_fs w_calls w_derived].
        repeat split; try assumption;
          [eapply makedirs_isdir; eassumption | now apply negb_true_iff].
      * exfalso; eapply convert_not_early; eassumption.
    + destruct (SpatialReference ev (prj_file rq)) as [r|e] eqn:Hsr; norm_run E.
      2:{ discriminate E. }
      destruct (negb (isdir made (template_gdb_path ev))) eqn:Ht; norm_run E.
      * inversion E; subst; clear E. cbn [w_fs w_calls w_derived].
        repeat split; try assumption;
          [eapply makedirs_isdir; eassumption | now apply negb_true_iff].
      * exfalso; eapply convert_not_early; eassumption.
  - destruct e; revert Hm; unfold bind, AddError, emit, raise; simpl;
      discriminate.
Qed.

Lemma C9_missing_template_witness :
  isdir Sample.tree (str "/fresh/out") = false
  /\ makedirs Sample.tree (str "/fresh/out")
     = Ok (w_fs (snd (main (mkEnv (str "/nowhere") Sample.ts1 Sample.ts1
                                  (fun _ => Raise Sample.boom)
                                  (fun _ _ _ => Ok tt) (fun _ _ _ _ => Ok tt)
                                  (fun _ => Raise Sample.boom) NoActiveMap)
                           (mkRequest (str "/data/roads") (str "/fresh/out")
                                      [] [] true false)
                           Sample.world0)))
  /\ isdir (w_fs (snd (main (mkEnv (str "/nowhere") Sample.ts1 Sample.ts1
                                   (fun _ => Raise Sample.boom)
                                   (fun _ _ _ => Ok tt) (fun _ _ _ _ => Ok tt)
                                   (fun _ => Raise Sample.boom) NoActiveMap)
                            (mkRequest (str "/data/roads") (str "/fresh/out")
                                       [] [] true false)
                            Sample.world0)))
           (str "/fresh/out") = true.
Proof.
  split; [reflexivity|].
  pose proof (C9_missing_template_leaves_output_dir
                (mkEnv (str "/nowhere") Sample.ts1 Sample.ts1
                       (fun _ => Raise Sample.boom)
                       (fun _ _ _ => Ok tt) (fun _ _ _ _ => Ok tt)
                       (fun _ => Raise Sample.boom) NoActiveMap)
                (mkRequest (str "/data/roads") (str "/fresh/out")
                           [] [] true false)
                Sample.world0
                (w' := snd (main (mkEnv (str "/nowhere") Sample.ts1 Sample.ts1
                       (fun _ => Raise Sample.boom)
                       (fun _ _ _ => Ok tt) (fun _ _ _ _ => Ok tt)
                       (fun _ => Raise Sample.boom) NoActiveMap)
                (mkRequest (str "/data/roads") (str "/fresh/out")
                           [] [] true false)
                Sample.world0))
                eq_refl eq_refl) as H.
  split; apply H.
Defined.

(** ** A run without a projection file *)

(** C6: in a run whose other steps go through (a valid input folder with
    drawings, an output folder that can be made, the template, an engine
    that succeeds), a projection file that is missing or not supplied is
    no error: the run ends with its two paths, the log holds the warning
    about the missing definition exactly once and no error, the staging
    dataset is created with no spatial reference, and no later call
    carries one. *)
Theorem C6_missing_prj_is_a_warning
        (ev : env) (rq : request) (w : world) (files : list pystr)
        (fs1 fs2 : node) :
  let name := project_identifier (cad_folder rq) (project_name rq) in
  let out_gdb := _unique_gdb_path (now_store ev) (output_folder rq) name in
  let staging := staging_dataset_name (now_staging ev) name in
  truthy (cad_folder rq) && isdir (w_fs w) (cad_folder rq) = true ->
  _find_cad_files (w_fs w) (cad_folder rq) (search_subfolders rq) = Ok files ->
  is_nil files = false ->
  truthy (output_folder rq) = true ->
  makedirs (w_fs w) (output_folder rq) = Ok fs1 ->
  truthy (prj_file rq) && isfile fs1 (prj_file rq) = false ->
  isdir fs1 (template_gdb_path ev) = true ->
  _copy_template_gdb (template_gdb_path ev) out_gdb fs1 = Ok fs2 ->
  create_feature_dataset ev out_gdb staging None = Ok tt ->
  cad_to_geodatabase ev (join_with (str ";") files) out_gdb staging None
  = Ok tt ->
  exists w' new_log new_calls,
    main ev rq w = (Ok (Some (out_gdb, join out_gdb staging)), w')
    /\ w_fs w' = fs2
    /\ w_log w' = w_log w ++ new_log
    /\ length (filter is_no_prj_warning new_log) = 1
    /\ (forall t, ~ In (Error, t) new_log)
    /\ w_calls w'
       = w_calls w ++ CreateFeatureDataset out_gdb staging None :: new_calls
    /\ (forall c, In c new_calls -> call_sr c = None).
Proof.
  intros name out_gdb staging Hin Hf Hnil Hout Hmk Hprj Ht Hcp Hfd Hconv.
  destruct w as [fs0 log0 calls0 der0]. cbn [w_fs w_log w_calls] in *.
  norm_all. rewrite Hin. cbn [negb]. norm_all. rewrite Hf. norm_all.
  rewrite Hnil. norm_all. rewrite Hout. cbn [negb]. norm_all.
  rewrite Hmk. norm_all. rewrite Hprj. cbn [negb]. norm_all.
  rewrite Ht. cbn [negb]. norm_all.
  fold name. fold out_gdb.
  rewrite (@copy_template_step_ok _ _ _ _ _ _ _ Hcp). norm_all.
  fold staging. rewrite Hfd. norm_all. rewrite Hconv. norm_all.
  destruct (describe_extent ev (join out_gdb staging)) as [ext|e];
    [destruct (suspicious ext)|]; norm_all.
  all: destruct (auto_add rq); norm_all.
  all: try (destruct (current_project ev) as [e'| |add];
            [ | | destruct (add (join out_gdb staging)) as [[]|e'']];
            norm_all).
  all: repeat rewrite <- app_assoc.
  all: do 3 eexists; split; [reflexivity|]; cbn [w_fs w_log w_calls].
  all: split; [reflexivity|]; split; [reflexivity|].
  all: split; [vm_compute; reflexivity|].
  all: split; [intros t H; cbn [In app] in H;
               repeat (destruct H as [H|H]; [discriminate H|]); exact H|].
  all: split; [reflexivity|].
  all: intros c H; cbn [In app] in H;
       repeat (destruct H as [H|H]; [subst c; reflexivity|]); destruct H.
Qed.

Lemma C6_missing_prj_witness :
  exists w' new_log new_calls,
    main Sample.env1 Sample.rq1 Sample.world0
    = (Ok (Some (Sample.store1,
                 join Sample.store1 (str "CAD_RAW_roads_20251215_190010"))),
       w')
    /\ w_fs w' = Sample.copied1
    /\ w_log w' = [] ++ new_log
    /\ length (filter is_no_prj_warning new_log) = 1
    /\ (forall t, ~ In (Error, t) new_log)
    /\ w_calls w'
       = [] ++ CreateFeatureDataset Sample.store1
                 (str "CAD_RAW_roads_20251215_190010") None :: new_calls
    /\ (forall c, In c new_calls -> call_sr c = None).
Proof.
  exact (C6_missing_prj_is_a_warning Sample.env1 Sample.rq1 Sample.world0
           (files := [str "/data/roads/a.dwg"; str "/data/roads/b.DXF";
                      str "/data/roads/sub/c.dgn"])
           (fs1 := Sample.made1) (fs2 := Sample.copied1)
           eq_refl eq_refl eq_refl eq_refl eq_refl eq_refl eq_refl eq_refl
           eq_refl eq_refl).
Defined.

(** ** The file system: removing, making and placing a directory *)

Lemma apart_cons c t cs ts :
  apart (c :: cs) (t :: ts) = true -> c <> t \/ (c = t /\ apart cs ts = true).
Proof.
  unfold apart. simpl. destruct (eqs c t) eqn:E.
  - apply eqs_true in E. subst t. rewrite eqs_refl. simpl. auto.
  - apply eqs_false in E. auto.
Qed.

Lemma apart_nonempty cs ts : apart cs ts = true -> cs <> [] /\ ts <> [].
Proof.
  unfold apart. destruct cs, ts; simpl; try discriminate; split; discriminate.
Qed.

Lemma remove_lookup_same cs : forall n x,
  cs <> [] -> lookup n cs = Some x ->
  exists n1, remove n cs = Some n1 /\ lookup n1 cs = None.
Proof.
  induction cs as [|c cs IH]; intros n x Hne H; [congruence|].
  destruct n as [d|es]; [discriminate|]. simpl in H.
  destruct (assoc c es) as [ch|] eqn:A; [|discriminate].
  destruct cs as [|c2 cs'].
  - simpl. rewrite A. eexists; split; [reflexivity|].
    simpl. now rewrite assoc_del_same.
  - destruct (IH ch x) as (ch1 & R & L); [discriminate|assumption|].
    change (remove (Dir es) (c :: c2 :: cs')) with
      (match assoc c es with
       | Some ch => match remove ch (c2 :: cs') with
                    | Some ch' => Some (Dir (set_entry c ch' es))
                    | None => None end
       | None => None end).
    rewrite A, R. eexists; split; [reflexivity|].
    change (lookup (Dir (set_entry c ch1 es)) (c :: c2 :: cs')) with
      (match assoc c (set_entry c ch1 es) with
       | Some ch => lookup ch (c2 :: cs') | None => None end).
    now rewrite assoc_set_same.
Qed.

Lemma remove_lookup_other cs : forall n n1 ts,
  remove n cs = Some n1 -> apart cs ts = true -> lookup n1 ts = lookup n ts.
Proof.
  induction cs as [|c cs IH]; intros n n1 ts R Hap; [discriminate|].
  destruct ts as [|t ts]; [apply apart_nonempty in Hap; tauto|].
  destruct n as [d|es]; [destruct cs; discriminate|].
  destruct (assoc c es) as [ch|] eqn:A; [|destruct cs; simpl in R; rewrite A in R; discriminate].
  destruct cs as [|c2 cs'].
  - simpl in R. rewrite A in R. inversion R; subst; clear R.
    destruct (apart_cons _ _ _ _ Hap) as [Hne|[-> Hap']].
    + simpl. now rewrite assoc_del_other.
    + unfold apart in Hap'. simpl in Hap'. discriminate.
  - change (remove (Dir es) (c :: c2 :: cs')) with
      (match assoc c es with
       | Some ch => match remove ch (c2 :: cs') with
                    | Some ch' => Some (Dir (set_entry c ch' es))
                    | None => None end
       | None => None end) in R.
    rewrite A in R. destruct (remove ch (c2 :: cs')) as [ch1|] eqn:R1; [|discriminate].
    inversion R; subst; clear R.
    destruct (apart_cons _ _ _ _ Hap) as [Hne|[-> Hap']].
    + simpl. now rewrite assoc_set_other.
    + simpl. rewrite assoc_set_same, A. eapply IH; eassumption.
Qed.

Lemma remove_then_mkdirs cs : forall n x,
  cs <> [] -> lookup n cs = Some x ->
  exists n1 n2, remove n cs = Some n1 /\ mkdirs n1 cs = Some n2.
Proof.
  induction cs as [|c cs IH]; intros n x Hne H; [congruence|].
  destruct n as [d|es]; [discriminate|]. simpl in H.
  destruct (assoc c es) as [ch|] eqn:A; [|discriminate].
  destruct cs as [|c2 cs'].
  - simpl. rewrite A. do 2 eexists; split; [reflexivity|].
    simpl. rewrite assoc_del_same. reflexivity.
  - destruct (IH ch x) as (ch1 & ch2 & R & L); [discriminate|assumption|].
    change (remove (Dir es) (c :: c2 :: cs')) with
      (match assoc c es with
       | Some ch => match remove ch (c2 :: cs') with
                    | Some ch' => Some (Dir (set_entry c ch' es))
                    | None => None end
       | None => None end).
    rewrite A, R. do 2 eexists; split; [reflexivity|].
    change (mkdirs (Dir (set_entry c ch1 es)) (c :: c2 :: cs')) with
      (match assoc c (set_entry c ch1 es) with
       | Some ch => match mkdirs ch (c2 :: cs') with
                    | Some ch' => Some (Dir (set_entry c ch' (set_entry c ch1 es)))
                    | None => None end
       | None => match mkdirs (Dir []) (c2 :: cs') with
                    | Some ch' => Some (Dir (set_entry c ch' (set_entry c ch1 es)))
                    | None => None end
       end).
    rewrite assoc_set_same, L. reflexivity.
Qed.

Lemma lookup_nil_dir ts : ts <> [] -> lookup (Dir []) ts = None.
Proof. destruct ts; [congruence|reflexivity]. Qed.

Lemma mkdirs_lookup_other cs : forall n n' ts,
  mkdirs n cs = Some n' -> apart cs ts = true -> lookup n' ts = lookup n ts.
Proof.
  induction cs as [|c cs IH]; intros n n' ts R Hap;
    [apply apart_nonempty in Hap; tauto|].
  destruct ts as [|t ts]; [apply apart_nonempty in Hap; tauto|].
  destruct n as [d|es]; [discriminate|]. simpl in R.
  destruct (assoc c es) as [ch|] eqn:A.
  - destruct (mkdirs ch cs) as [ch'|] eqn:R1; inversion R; subst; clear R.
    destruct (apart_cons _ _ _ _ Hap) as [Hne|[-> Hap']].
    + simpl. now rewrite assoc_set_other.
    + simpl. rewrite assoc_set_same, A. eapply IH; eassumption.
  - destruct (mkdirs (Dir []) cs) as [ch'|] eqn:R1; inversion R; subst; clear R.
    destruct (apart_cons _ _ _ _ Hap) as [Hne|[-> Hap']].
    + simpl. now rewrite assoc_set_other.
    + simpl. rewrite assoc_set_same, A.
      rewrite (IH _ _ _ R1 Hap'). apply lookup_nil_dir.
      apply apart_nonempty in Hap'. tauto.
Qed.

Lemma put_lookup cs : forall n x new,
  lookup n cs = Some x ->
  exists n', put n cs new = Some n' /\ lookup n' cs = Some new.
Proof.
  induction cs as [|c cs IH]; intros n x new H.
  - eexists; split; reflexivity.
  - destruct n as [d|es]; [discriminate|]. simpl in H.
    destruct (assoc c es) as [ch|] eqn:A; [|discriminate].
    destruct cs as [|c2 cs'].
    + simpl. eexists; split; [reflexivity|]. simpl. now rewrite assoc_set_same.
    + destruct (IH ch x new H) as (ch' & P & L).
      change (put (Dir es) (c :: c2 :: cs') new) with
        (match assoc c es with
         | Some ch => match put ch (c2 :: cs') new with
                      | Some ch' => Some (Dir (set_entry c ch' es))
                      | None => None end
         | None => None end).
      rewrite A, P.
      eexists; split; [reflexivity|].
      change (lookup (Dir (set_entry c ch' es)) (c :: c2 :: cs')) with
        (match assoc c (set_entry c ch' es) with
         | Some ch => lookup ch (c2 :: cs') | None => None end).
      rewrite assoc_set_same. exact L.
Qed.

Lemma put_lookup_other cs : forall n n' new ts,
  put n cs new = Some n' -> apart cs ts = true -> lookup n' ts = lookup n ts.
Proof.
  induction cs as [|c cs IH]; intros n n' new ts R Hap;
    [apply apart_nonempty in Hap; tauto|].
  destruct ts as [|t ts]; [apply apart_nonempty in Hap; tauto|].
  destruct n as [d|es]; [discriminate|].
  destruct cs as [|c2 cs'].
  - simpl in R. inversion R; subst; clear R.
    destruct (apart_cons _ _ _ _ Hap) as [Hne|[-> Hap']].
    + simpl. now rewrite assoc_set_other.
    + unfold apart in Hap'. simpl in Hap'. discriminate.
  - change (put (Dir es) (c :: c2 :: cs') new) with
      (match assoc c es with
       | Some ch => match put ch (c2 :: cs') new with
                    | Some ch' => Some (Dir (set_entry c ch' es))
                    | None => None end
       | None => None end) in R.
    destruct (assoc c es) as [ch|] eqn:A; [|discriminate].
    destruct (put ch (c2 :: cs') new) as [ch'|] eqn:P; [|discriminate].
    inversion R; subst; clear R.
    destruct (apart_cons _ _ _ _ Hap) as [Hne|[-> Hap']].
    + simpl. now rewrite assoc_set_other.
    + simpl. rewrite assoc_set_same, A. eapply IH; eassumption.
Qed.

(** C2, amended: when the allocated path already holds a store (a
    directory) and the template is a directory elsewhere in the tree,
    provisioning does not fail: the old store is removed, a copy of the
    template takes its place, and the rest of the tree is as before. *)
Theorem C2_provisioning_replaces_existing_store
        (fs : node) (template target : pystr)
        (es old : list (pystr * node)) :
  lookup fs (locate template) = Some (Dir es) ->
  lookup fs (locate target) = Some (Dir old) ->
  apart (locate target) (locate template) = true ->
  exists fs',
    _copy_template_gdb template target fs = Ok fs'
    /\ lookup fs' (locate target) = Some (Dir es)
    /\ (forall p, apart (locate target) p = true ->
                  lookup fs' p = lookup fs p).
Proof.
  intros Htpl Htgt Hap.
  destruct (apart_nonempty _ _ Hap) as [Hne _].
  destruct (remove_then_mkdirs _ Hne Htgt) as (n1 & n2 & Hrm & Hmk).
  destruct (remove_lookup_same _ Hne Htgt) as (n1' & Hrm' & Hgone).
  rewrite Hrm in Hrm'. inversion Hrm'; subst n1'; clear Hrm'.
  destruct (mkdirs_lookup _ _ Hmk) as [es2 Hdir].
  destruct (put_lookup _ _ (Dir es) Hdir) as (n3 & Hput & Hnew).
  exists n3. split; [|split].
  - unfold _copy_template_gdb, exists_, rmtree. rewrite Htgt, Hrm.
    unfold copytree, exists_.
    rewrite (remove_lookup_other _ _ _ Hrm Hap), Htpl, Hgone.
    assert (Hp : is_prefix (locate template) (locate target) = false).
    { unfold apart in Hap. apply andb_true_iff in Hap. destruct Hap as [_ H].
      now apply negb_true_iff in H. }
    rewrite Hp. cbn [andb]. rewrite Hmk, Hput. reflexivity.
  - exact Hnew.
  - intros p Hp.
    rewrite (put_lookup_other _ _ _ _ Hput Hp).
    rewrite (mkdirs_lookup_other _ _ _ Hmk Hp).
    apply (remove_lookup_other _ _ _ Hrm Hp).
Qed.

Lemma C2_provisioning_witness :
  exists fs',
    _copy_template_gdb Sample.template_path Sample.old_store Sample.tree = Ok fs'
    /\ lookup fs' (locate Sample.old_store) = Some Sample.template_node
    /\ (forall p, apart (locate Sample.old_store) p = true ->
                  lookup fs' p = lookup Sample.tree p).
Proof.
  exact (C2_provisioning_replaces_existing_store Sample.tree
           Sample.template_path Sample.old_store
           (es := [(str "gdb", File (str "template")); (str "schema", Dir [])])
           (old := [(str "old", File (str "kept?"))])
           eq_refl eq_refl eq_refl).
Defined.

(** ** The order on strings and [sorted] *)

Lemma code_inj (a b : ascii) : code a = code b -> a = b.
Proof.
  unfold code. intros H.
  rewrite <- (ascii_N_embedding a), <- (ascii_N_embedding b). now rewrite H.
Qed.

Lemma leb_refl (a : pystr) : leb a a = true.
Proof.
  induction a as [|x a IH]; simpl; [reflexivity|].
  now rewrite N.ltb_irrefl.
Qed.

Lemma leb_total (a b : pystr) : leb a b = true \/ leb b a = true.
Proof.
  revert b. induction a as [|x a IH]; intros [|y b]; simpl; auto.
  destruct (N.ltb_spec (code x) (code y)); auto.
  destruct (N.ltb_spec (code y) (code x)); auto.
Qed.

Lemma leb_trans (a b c : pystr) :
  leb a b = true -> leb b c = true -> leb a c = true.
Proof.
  revert b c. induction a as [|x a IH]; intros [|y b] [|z c]; simpl; auto;
    try discriminate.
  destruct (N.ltb_spec (code x) (code y)), (N.ltb_spec (code y) (code x)),
    (N.ltb_spec (code y) (code z)), (N.ltb_spec (code z) (code y)),
    (N.ltb_spec (code x) (code z)), (N.ltb_spec (code z) (code x));
    try discriminate; try lia; auto.
  apply IH.
Qed.

Lemma leb_antisym (a b : pystr) :
  leb a b = true -> leb b a = true -> a = b.
Proof.
  revert b. induction a as [|x a IH]; intros [|y b]; simpl; auto;
    try discriminate.
  destruct (N.ltb_spec (code x) (code y)), (N.ltb_spec (code y) (code x));
    try discriminate; try lia.
  intros H1 H2. f_equal; [apply code_inj; lia|auto].
Qed.


Lemma insert_sorted_perm x l : Permutation (insert_sorted x l) (x :: l).
Proof.
  induction l as [|y t IH]; simpl; [reflexivity|].
  destruct (leb y x); [|reflexivity].
  rewrite IH. apply perm_swap.
Qed.

Lemma sorted_perm_acc l : forall acc,
  Permutation (fold_left (fun acc x => insert_sorted x acc) l acc) (l ++ acc).
Proof.
  induction l as [|x t IH]; intros acc; simpl; [reflexivity|].
  rewrite IH. rewrite insert_sorted_perm. symmetry. apply Permutation_middle.
Qed.

Lemma sorted_perm l : Permutation (sorted l) l.
Proof. unfold sorted. rewrite sorted_perm_acc. now rewrite app_nil_r. Qed.

Lemma insert_sorted_sorted x l :
  StronglySorted le_str l -> StronglySorted le_str (insert_sorted x l).
Proof.
  induction 1 as [|y t Hs IH Hall]; simpl.
  - constructor; constructor.
  - destruct (leb y x) eqn:E.
    + constructor; [assumption|].
      rewrite Forall_forall. intros z Hz.
      apply (Permutation_in _ (insert_sorted_perm x t)) in Hz.
      destruct Hz as [<-|Hz]; [exact E|].
      rewrite Forall_forall in Hall. now apply Hall.
    + assert (Hxy : le_str x y).
      { destruct (leb_total x y) as [H|H]; [exact H|congruence]. }
      constructor; [constructor; assumption|].
      constructor; [exact Hxy|].
      rewrite Forall_forall in *. intros z Hz.
      eapply leb_trans; [exact Hxy|now apply Hall].
Qed.

Lemma sorted_sorted_acc l : forall acc,
  StronglySorted le_str acc ->
  StronglySorted le_str (fold_left (fun acc x => insert_sorted x acc) l acc).
Proof.
  induction l as [|x t IH]; intros acc H; simpl; [exact H|].
  apply IH. now apply insert_sorted_sorted.
Qed.

Lemma sorted_sorted l : StronglySorted le_str (sorted l).
Proof. apply sorted_sorted_acc. constructor. Qed.



Lemma sorted_in l p : In p (sorted l) <-> In p l.
Proof.
  split; apply Permutation_in; [|symmetry]; apply sorted_perm.
Qed.

(** ** Induction on the tree, and what a well-formed tree gives *)

Lemma node_rect_nested (P : node -> Prop)
      (HF : forall d, P (File d))
      (HD : forall es, Forall (fun e => P (snd e)) es -> P (Dir es)) :
  forall n, P n.
Proof.
  fix IH 1. intros [d|es]; [apply HF|].
  apply HD. induction es as [|e t IHt]; constructor; [apply IH|exact IHt].
Qed.

Lemma existsb_eqs_in x l : existsb (eqs x) l = true <-> In x l.
Proof.
  rewrite existsb_exists. split.
  - intros (y & Hy & E). apply eqs_true in E. now subst.
  - intros H. exists x. split; [assumption|apply eqs_refl].
Qed.

Lemma nodupb_NoDup l : nodupb l = true -> NoDup l.
Proof.
  induction l as [|x t IH]; simpl; intros H; constructor;
    apply andb_true_iff in H; destruct H as [H1 H2].
  - apply negb_true_iff in H1. intros Hin.
    apply existsb_eqs_in in Hin. congruence.
  - auto.
Qed.

Lemma wf_dir es :
  wf (Dir es) = true ->
  NoDup (map fst es)
  /\ Forall (fun e => valid_name (fst e) = true /\ wf (snd e) = true) es.
Proof.
  simpl. intros H. apply andb_true_iff in H. destruct H as [H1 H2].
  split; [now apply nodupb_NoDup|].
  rewrite forallb_forall in H2. rewrite Forall_forall. intros e He.
  apply andb_true_iff. now apply H2.
Qed.

Lemma assoc_in k v es : assoc k es = Some v -> In (k, v) es.
Proof.
  induction es as [|[k' v'] t IH]; simpl; [discriminate|].
  destruct (eqs k k') eqn:E.
  - apply eqs_true in E. subst. intros H; inversion H; auto.
  - auto.
Qed.

Lemma in_assoc k v es : NoDup (map fst es) -> In (k, v) es -> assoc k es = Some v.
Proof.
  induction es as [|[k' v'] t IH]; simpl; [tauto|].
  intros Hnd [H|H].
  - inversion H; subst. now rewrite eqs_refl.
  - inversion Hnd as [|? ? Hnotin Hnd']; subst.
    destruct (eqs k k') eqn:E.
    + apply eqs_true in E. subst k'. exfalso. apply Hnotin.
      apply in_map_iff. exists (k, v). auto.
    + auto.
Qed.

Lemma lookup_app cs : forall n ds,
  lookup n (cs ++ ds)
  = match lookup n cs with Some m => lookup m ds | None => None end.
Proof.
  induction cs as [|c cs IH]; intros n ds; simpl; [reflexivity|].
  destruct n as [d|es]; [reflexivity|].
  destruct (assoc c es); [apply IH|reflexivity].
Qed.

Lemma wf_lookup cs : forall n m,
  wf n = true -> lookup n cs = Some m -> wf m = true.
Proof.
  induction cs as [|c cs IH]; intros n m Hwf H; simpl in H.
  - now inversion H; subst.
  - destruct n as [d|es]; [discriminate|].
    destruct (assoc c es) as [ch|] eqn:A; [|discriminate].
    apply (IH ch); [|assumption].
    destruct (wf_dir _ Hwf) as [_ Hall]. rewrite Forall_forall in Hall.
    apply (Hall (c, ch)). now apply assoc_in.
Qed.

(** ** Joining names to a folder *)

Lemma valid_name_inv k :
  valid_name k = true -> k <> [] /\ sep_free k.
Proof.
  unfold valid_name, sep_free. intros H.
  repeat (apply andb_true_iff in H; destruct H as [H ?]).
  split.
  - destruct k; [discriminate|discriminate].
  - intros Hin. apply negb_true_iff in H2.
    assert (existsb (fun c => Ascii.eqb c sep) k = true); [|congruence].
    apply existsb_exists. exists sep. split; [assumption|apply Ascii.eqb_refl].
Qed.

Lemma join_base a k : sep_free k -> join a k = base a ++ k.
Proof.
  intros Hk. unfold join, base.
  assert (Hs : startswith k [sep] = false).
  { destruct k as [|c k]; [reflexivity|]. cbn [startswith].
    destruct (Ascii.eqb sep c) eqn:E; [|reflexivity].
    apply Ascii.eqb_eq in E. subst c. exfalso. apply Hk. now left. }
  rewrite Hs. destruct (negb (truthy a) || endswith a [sep]);
    [reflexivity|now rewrite <- app_assoc].
Qed.


Lemma endswith_sep_app x k :
  k <> [] -> sep_free k -> endswith (x ++ k) [sep] = false.
Proof.
  intros Hne Hk. unfold endswith. rewrite rev_app_distr.
  destruct (rev k) as [|c r] eqn:E.
  - apply (f_equal (@rev ascii)) in E. rewrite rev_involutive in E.
    simpl in E. congruence.
  - cbn [startswith rev app]. destruct (Ascii.eqb sep c) eqn:Ec; [|reflexivity].
    apply Ascii.eqb_eq in Ec. subst c. exfalso. apply Hk.
    apply in_rev. rewrite E. now left.
Qed.

Lemma base_after_name x k :
  k <> [] -> sep_free k -> base (x ++ k) = x ++ k ++ [sep].
Proof.
  intros Hne Hk. unfold base. rewrite (endswith_sep_app x Hne Hk).
  destruct (x ++ k) eqn:E.
  - apply app_eq_nil in E. destruct E; congruence.
  - cbn [truthy negb orb]. rewrite <- E. now rewrite <- app_assoc.
Qed.

Lemma joins_cons top k cs : joins top (k :: cs) = joins (join top k) cs.
Proof. reflexivity. Qed.

Lemma joins_valid cs : forall x k,
  k <> [] -> sep_free k ->
  Forall (fun c => c <> [] /\ sep_free c) cs ->
  joins (x ++ k) cs = x ++ k ++ tail_of cs.
Proof.
  induction cs as [|c cs IH]; intros x k Hne Hk Hall.
  - simpl. unfold tail_of. simpl. now rewrite app_nil_r.
  - inversion Hall as [|? ? [Hc1 Hc2] Hall']; subst.
    rewrite joins_cons, (join_base _ Hc2), (base_after_name x Hne Hk).
    replace ((x ++ k ++ [sep]) ++ c) with ((x ++ k ++ [sep]) ++ c) by reflexivity.
    rewrite (IH (x ++ k ++ [sep]) c Hc1 Hc2 Hall').
    unfold tail_of. simpl. repeat rewrite <- app_assoc. reflexivity.
Qed.

Lemma joins_shape top k cs :
  Forall (fun c => c <> [] /\ sep_free c) (k :: cs) ->
  joins top (k :: cs) = base top ++ k ++ tail_of cs.
Proof.
  intros Hall. inversion Hall as [|? ? [Hk1 Hk2] Hall']; subst.
  rewrite joins_cons, (join_base _ Hk2). now apply joins_valid.
Qed.

Lemma tail_of_opens cs : opens_with_sep (tail_of cs).
Proof. destruct cs; simpl; auto. Qed.

Lemma sep_free_split k : forall k' r r',
  sep_free k -> sep_free k' -> opens_with_sep r -> opens_with_sep r' ->
  k ++ r = k' ++ r' -> k = k' /\ r = r'.
Proof.
  unfold sep_free.
  induction k as [|c k IH]; intros [|c' k'] r r' Hk Hk' Hr Hr' E; simpl in E.
  - auto.
  - subst r. simpl in Hr. subst c'. exfalso. apply Hk'. now left.
  - subst r'. simpl in Hr'. subst c. exfalso. apply Hk. now left.
  - inversion E; subst.
    destruct (IH k' r r') as [-> ->]; auto.
    + intros H; apply Hk; now right.
    + intros H; apply Hk'; now right.
Qed.

Lemma tail_of_inj cs : forall cs',
  Forall sep_free cs -> Forall sep_free cs' ->
  tail_of cs = tail_of cs' -> cs = cs'.
Proof.
  induction cs as [|c cs IH]; intros [|c' cs'] H H' E.
  - reflexivity.
  - discriminate.
  - discriminate.
  - unfold tail_of in E. simpl in E. inversion E as [E'].
    destruct (@sep_free_split c c' (tail_of cs) (tail_of cs')
                (Forall_inv H) (Forall_inv H')
                (tail_of_opens _) (tail_of_opens _) E') as [-> Et].
    f_equal. apply IH; [exact (Forall_inv_tail H)|exact (Forall_inv_tail H')|exact Et].
Qed.

Lemma joins_inj top a b :
  a <> [] -> b <> [] ->
  Forall (fun c => c <> [] /\ sep_free c) a ->
  Forall (fun c => c <> [] /\ sep_free c) b ->
  joins top a = joins top b -> a = b.
Proof.
  destruct a as [|k cs]; [congruence|]. destruct b as [|k' cs']; [congruence|].
  intros _ _ Ha Hb E.
  rewrite (joins_shape top Ha), (joins_shape top Hb) in E.
  apply app_inv_head in E.
  inversion Ha as [|? ? [_ Hk] Ha']; inversion Hb as [|? ? [_ Hk'] Hb']; subst.
  assert (Fa : Forall sep_free cs) by (eapply Forall_impl; [|exact Ha']; simpl; tauto).
  assert (Fb : Forall sep_free cs') by (eapply Forall_impl; [|exact Hb']; simpl; tauto).
  destruct (@sep_free_split k k' (tail_of cs) (tail_of cs')
              Hk Hk' (tail_of_opens _) (tail_of_opens _) E) as [-> Et].
  f_equal. now apply tail_of_inj.
Qed.

(** ** The extension of a joined path *)

Lemma startswith_nil s : startswith s [] = true.
Proof. destruct s; reflexivity. Qed.




(** ** The walk of a tree *)

Lemma flat_map_flat_map A B C (f : B -> list C) (g : A -> list B) l :
  flat_map f (flat_map g l) = flat_map (fun x => flat_map f (g x)) l.
Proof.
  induction l as [|x t IH]; simpl; [reflexivity|].
  now rewrite flat_map_app, IH.
Qed.

Lemma map_flat_map A B C (f : B -> C) (g : A -> list B) l :
  map f (flat_map g l) = flat_map (fun x => map f (g x)) l.
Proof.
  induction l as [|x t IH]; simpl; [reflexivity|].
  now rewrite map_app, IH.
Qed.

Lemma flat_map_ext_forall A B (f g : A -> list B) l :
  Forall (fun x => f x = g x) l -> flat_map f l = flat_map g l.
Proof.
  induction 1 as [|x t Hx _ IH]; simpl; [reflexivity|]. now rewrite Hx, IH.
Qed.

Lemma walk_collect n : forall top,
  flat_map collect (walk_node top n) = map (joins top) (cad_chains n).
Proof.
  induction n as [d|es IH] using node_rect_nested; intros top;
    [reflexivity|].
  cbn [walk_node cad_chains flat_map]. rewrite map_app. f_equal.
  - unfold collect at 1. rewrite map_map. reflexivity.
  - rewrite flat_map_flat_map, map_flat_map.
    apply flat_map_ext_forall.
    eapply Forall_impl; [|exact IH]. intros [k ch] H. cbn [fst snd] in *.
    destruct ch as [d|es']; [reflexivity|].
    rewrite H, map_map. reflexivity.
Qed.

Lemma wf_entry es k ch :
  wf (Dir es) = true -> In (k, ch) es -> good_name k /\ wf ch = true.
Proof.
  intros Hwf Hin. destruct (wf_dir _ Hwf) as [_ Hall].
  rewrite Forall_forall in Hall. destruct (Hall _ Hin) as [Hv Hw].
  split; [now apply valid_name_inv|assumption].
Qed.

Lemma cad_chains_sound n :
  wf n = true ->
  forall cs, In cs (cad_chains n) ->
    cs <> [] /\ Forall good_name cs
    /\ (exists d, lookup n cs = Some (File d))
    /\ has_cad_ext (last cs []) = true.
Proof.
  induction n as [d|es IH] using node_rect_nested; intros Hwf cs Hin;
    [destruct Hin|].
  destruct (wf_dir _ Hwf) as [Hnd _].
  cbn [cad_chains] in Hin. apply in_app_or in Hin. destruct Hin as [Hin|Hin].
  - apply in_map_iff in Hin. destruct Hin as (f & <- & Hf).
    apply filter_In in Hf. destruct Hf as [Hf Hext].
    apply in_map_iff in Hf. destruct Hf as ([k ch] & Hk & He). simpl in Hk. subst k.
    apply filter_In in He. destruct He as [He Hfile].
    destruct ch as [d|es']; [|discriminate].
    destruct (@wf_entry es f (File d) Hwf He) as [Hg _].
    repeat split; try discriminate; auto.
    exists d. simpl. now rewrite (@in_assoc f (File d) es Hnd He).
  - apply in_flat_map in Hin. destruct Hin as ([k ch] & He & Hin).
    cbn [fst snd] in Hin. destruct ch as [d|es']; [destruct Hin|].
    apply in_map_iff in Hin. destruct Hin as (cs' & <- & Hcs').
    destruct (@wf_entry es k (Dir es') Hwf He) as [Hg Hw].
    rewrite Forall_forall in IH. specialize (IH _ He). cbn [snd] in IH.
    destruct (IH Hw cs' Hcs') as (Hne & Hall & (d & Hl) & Hext).
    repeat split; try discriminate; auto.
    + exists d. cbn [lookup]. now rewrite (@in_assoc k (Dir es') es Hnd He).
    + destruct cs'; [congruence|exact Hext].
Qed.

Lemma cad_chains_complete n :
  forall cs d, cs <> [] -> lookup n cs = Some (File d) ->
               has_cad_ext (last cs []) = true -> In cs (cad_chains n).
Proof.
  induction n as [d0|es IH] using node_rect_nested; intros cs d Hne Hl Hext.
  - destruct cs; [congruence|discriminate].
  - destruct cs as [|c cs]; [congruence|]. cbn [lookup] in Hl.
    destruct (assoc c es) as [ch|] eqn:A; [|discriminate].
    apply assoc_in in A. cbn [cad_chains]. apply in_or_app.
    destruct cs as [|c2 cs'].
    + left. simpl in Hl. inversion Hl; subst.
      apply in_map_iff. exists c. split; [reflexivity|].
      apply filter_In. split; [|exact Hext].
      apply in_map_iff. exists (c, File d). split; [reflexivity|].
      apply filter_In. split; [assumption|reflexivity].
    + right. apply in_flat_map. exists (c, ch). split; [assumption|].
      cbn [fst snd]. destruct ch as [d'|es']; [discriminate|].
      apply in_map. rewrite Forall_forall in IH.
      apply (IH _ A (c2 :: cs') d); [discriminate|exact Hl|exact Hext].
Qed.

Lemma NoDup_flat_map_keys A (f : pystr * node -> list A) es :
  NoDup (map fst es) ->
  (forall e, In e es -> NoDup (f e)) ->
  (forall e1 e2 x, In e1 es -> In e2 es -> In x (f e1) -> In x (f e2) ->
                   fst e1 = fst e2) ->
  NoDup (flat_map f es).
Proof.
  induction es as [|e t IH]; intros Hnd Hf Hdisj; simpl; [constructor|].
  inversion Hnd as [|? ? Hnotin Hnd']; subst.
  apply NoDup_app.
  - apply Hf. now left.
  - apply IH; [assumption| |].
    + intros e' He'. apply Hf. now right.
    + intros e1 e2 x H1 H2. apply Hdisj; now right.
  - intros x Hx Hx'. apply in_flat_map in Hx'. destruct Hx' as (e' & He' & Hx').
    apply Hnotin. rewrite (Hdisj e e' x); auto; [|now left|now right].
    now apply in_map.
Qed.

Lemma NoDup_map_inj A B (f : A -> B) l :
  (forall x y, f x = f y -> x = y) -> NoDup l -> NoDup (map f l).
Proof.
  intros Hinj Hnd. apply NoDup_map_NoDup_ForallPairs; [|assumption].
  intros x y _ _. apply Hinj.
Qed.

Lemma NoDup_names_files es :
  NoDup (map fst es) -> NoDup (map fst (filter is_file_entry es)).
Proof.
  induction es as [|[k ch] t IH]; simpl; intros H; [constructor|].
  inversion H as [|? ? Hnotin Hnd]; subst.
  destruct (is_file_entry (k, ch)); simpl; auto.
  constructor; auto. intros Hin. apply Hnotin.
  apply in_map_iff in Hin. destruct Hin as (e & He & Hin).
  apply filter_In in Hin. apply in_map_iff. exists e. tauto.
Qed.

Lemma cad_chains_nodup n : wf n = true -> NoDup (cad_chains n).
Proof.
  induction n as [d|es IH] using node_rect_nested; intros Hwf;
    [constructor|].
  destruct (wf_dir _ Hwf) as [Hnd _].
  cbn [cad_chains]. apply NoDup_app.
  - apply NoDup_map_inj; [intros x y H; now inversion H|].
    apply NoDup_filter. now apply NoDup_names_files.
  - apply NoDup_flat_map_keys; [assumption| |].
    + intros [k ch] He. cbn [fst snd]. destruct ch as [d|es']; [constructor|].
      apply NoDup_map_inj; [intros x y H; now inversion H|].
      rewrite Forall_forall in IH. apply (IH _ He).
      now destruct (@wf_entry es k (Dir es') Hwf He).
    + intros [k1 c1] [k2 c2] x _ _ H1 H2. cbn [fst snd] in *.
      destruct c1; [destruct H1|]. destruct c2; [destruct H2|].
      apply in_map_iff in H1. destruct H1 as (a & <- & _).
      apply in_map_iff in H2. destruct H2 as (b & E & _).
      now inversion E.
  - intros cs H1 H2.
    apply in_map_iff in H1. destruct H1 as (f & <- & _).
    apply in_flat_map in H2. destruct H2 as ([k ch] & He & H2).
    cbn [fst snd] in H2. destruct ch as [d|es']; [destruct H2|].
    apply in_map_iff in H2. destruct H2 as (cs' & E & Hcs').
    inversion E; subst.
    rewrite Forall_forall in IH. specialize (IH _ He). cbn [snd] in IH.
    destruct (@wf_entry es _ _ Hwf He) as [_ Hw].
    destruct (@cad_chains_sound _ Hw _ Hcs') as [Hne _]. congruence.
Qed.

Lemma isdir_lookup fs p :
  isdir fs p = true -> exists es, lookup fs (locate p) = Some (Dir es).
Proof.
  unfold isdir. destruct (lookup fs (locate p)) as [[d|es]|]; try discriminate.
  eauto.
Qed.

Lemma lookup_child es name :
  lookup (Dir es) [name] = assoc name es.
Proof. simpl. destruct (assoc name es); reflexivity. Qed.

Lemma names_assoc es name :
  NoDup (map fst es) ->
  (In name (map fst es) <-> exists child, assoc name es = Some child).
Proof.
  intros Hnd. split.
  - intros H. apply in_map_iff in H. destruct H as ([k v] & <- & H).
    exists v. now apply in_assoc.
  - intros [child H]. apply assoc_in in H.
    apply in_map_iff. now exists (name, child).
Qed.



Example discover_recursive :
  _find_cad_files Sample.tree (str "/data/roads") true
  = Ok [str "/data/roads/a.dwg"; str "/data/roads/b.DXF";
        str "/data/roads/sub/c.dgn"].
Proof. reflexivity. Qed.

Example discover_flat :
  _find_cad_files Sample.tree (str "/data/roads") false
  = Ok [str "/data/roads/a.dwg"; str "/data/roads/b.DXF"].
Proof. reflexivity. Qed.

(** ** The base name of a normalized path *)

Lemma split_nonempty s : split sep s <> [].
Proof.
  induction s as [|c t IH]; simpl; [discriminate|].
  destruct (Ascii.eqb c sep); [discriminate|].
  destruct (split sep t); discriminate.
Qed.

Lemma split_snoc_sep s : split sep (s ++ [sep]) = split sep s ++ [[]].
Proof.
  induction s as [|c t IH]; [reflexivity|].
  cbn [app split]. rewrite IH.
  destruct (Ascii.eqb c sep); [reflexivity|].
  destruct (split sep t) eqn:E; [now apply split_nonempty in E|reflexivity].
Qed.

Lemma last_cons_nonempty A (x : A) l d : l <> [] -> last (x :: l) d = last l d.
Proof. destruct l; [congruence|reflexivity]. Qed.

Lemma basename_sep_cons x : basename (sep :: x) = basename x.
Proof.
  unfold basename. cbn [split]. rewrite Ascii.eqb_refl.
  apply last_cons_nonempty, split_nonempty.
Qed.

Lemma basename_slashes k x : basename (repeat sep k ++ x) = basename x.
Proof.
  induction k as [|k IH]; [reflexivity|].
  cbn [repeat app]. now rewrite basename_sep_cons.
Qed.

Lemma startswith_snoc p q s :
  length q <= length p -> startswith (p ++ s) q = startswith p q.
Proof.
  revert q. induction p as [|a p IH]; intros [|b q] H; simpl in *;
    try reflexivity; try lia.
  - apply startswith_nil.
  - f_equal. apply IH. lia.
Qed.

(** The number of slashes kept is zero for both paths or for neither. *)
Lemma initial_slashes_zero p :
  p <> [] ->
  (initial_slashes (p ++ [sep]) =? 0) = (initial_slashes p =? 0).
Proof.
  intros Hne. unfold initial_slashes.
  rewrite (@startswith_snoc p [sep] [sep]);
    [|destruct p; [congruence|simpl; lia]].
  destruct (startswith p [sep]); [|reflexivity].
  destruct (_ && _), (_ && _); reflexivity.
Qed.

Lemma norm_step_zero i j acc c :
  (i =? 0) = (j =? 0) -> norm_step i acc c = norm_step j acc c.
Proof. intros H. unfold norm_step. now rewrite H. Qed.

Lemma fold_norm_step_zero i j l : forall acc,
  (i =? 0) = (j =? 0) ->
  fold_left (norm_step i) l acc = fold_left (norm_step j) l acc.
Proof.
  induction l as [|c l IH]; intros acc H; simpl; [reflexivity|].
  rewrite (@norm_step_zero i j acc c H). now apply IH.
Qed.

(** The base name of [normpath p], from the components kept. *)
Lemma basename_normpath p :
  p <> [] ->
  basename (normpath p)
  = let i := initial_slashes p in
    let j := join_with [sep] (fold_left (norm_step i) (split sep p) []) in
    if (i =? 0) && negb (truthy j) then dot else basename j.
Proof.
  intros Hne. destruct p as [|c t]; [congruence|].
  unfold normpath. cbv zeta.
  set (i := initial_slashes (c :: t)).
  set (j := join_with [sep] _).
  destruct i as [|i']; cbn [repeat app Nat.eqb andb].
  - destruct j; reflexivity.
  - now rewrite basename_sep_cons, basename_slashes.
Qed.

Theorem basename_normpath_trailing_sep (p : pystr) :
  p <> [] ->
  basename (normpath (p ++ [sep])) = basename (normpath p).
Proof.
  intros Hne.
  rewrite (@basename_normpath p Hne).
  rewrite basename_normpath by (destruct p; discriminate).
  cbv zeta. rewrite split_snoc_sep, fold_left_app. cbn [fold_left].
  rewrite (@initial_slashes_zero p Hne).
  rewrite (@fold_norm_step_zero _ _ (split sep p) [] (@initial_slashes_zero p Hne)).
  unfold norm_step at 1 3 5. cbn [eqs orb].
  reflexivity.
Qed.


(** ** The loop that collapses underscores *)

Lemma is_underscore_eq c : is_underscore c = true -> c = underscore.
Proof. apply Ascii.eqb_eq. Qed.

(** Induction on a string by its length. *)
Lemma pystr_length_ind (P : pystr -> Prop) :
  (forall s, (forall t, length t < length s -> P t) -> P s) ->
  forall s, P s.
Proof.
  intros H s.
  assert (G : forall n t, length t < n -> P t).
  { induction n as [|n IH]; intros t Ht; [lia|].
    apply H. intros u Hu. apply IH. lia. }
  apply (G (S (length s))). lia.
Qed.

Lemma replace_uu_length s : length (replace_uu s) <= length s.
Proof.
  induction s as [s IH] using pystr_length_ind.
  destruct s as [|a [|b t]]; cbn [replace_uu]; try lia.
  destruct (is_underscore a && is_underscore b).
  - assert (length (replace_uu t) <= length t) by (apply IH; simpl; lia).
    simpl. lia.
  - assert (length (replace_uu (b :: t)) <= length (b :: t))
      by (apply IH; simpl; lia).
    simpl in *. lia.
Qed.

Lemma replace_uu_shorter s :
  contains_uu s = true -> length (replace_uu s) < length s.
Proof.
  induction s as [|a t IH]; [discriminate|].
  destruct t as [|b t']; [discriminate|].
  cbn [contains_uu replace_uu].
  destruct (is_underscore a && is_underscore b); cbn [orb].
  - intros _. pose proof (replace_uu_length t'). simpl. lia.
  - intros H. specialize (IH H). simpl in *. lia.
Qed.

Lemma collapse_loop_no_uu fuel : forall s,
  length s <= fuel -> contains_uu (collapse_loop fuel s) = false.
Proof.
  induction fuel as [|f IH]; intros s H; simpl.
  - destruct s; [reflexivity|simpl in H; lia].
  - destruct (contains_uu s) eqn:E; [|exact E].
    apply IH. pose proof (replace_uu_shorter s E). lia.
Qed.

(** The loop ends: after [collapse] no ["__"] is left. *)
Lemma collapse_no_uu s : contains_uu (collapse s) = false.
Proof. apply collapse_loop_no_uu. reflexivity. Qed.

Lemma replace_uu_cons2 a b t :
  replace_uu (a :: b :: t)
  = if is_underscore a && is_underscore b
    then underscore :: replace_uu t else a :: replace_uu (b :: t).
Proof. reflexivity. Qed.

Lemma squeeze_cons2 c a t :
  squeeze (c :: a :: t)
  = if is_underscore c && is_underscore a
    then squeeze (a :: t) else c :: squeeze (a :: t).
Proof. reflexivity. Qed.

Lemma squeeze_cons_replace : forall t c,
  squeeze (c :: replace_uu t) = squeeze (c :: t).
Proof.
  intros t. induction t as [t IH] using pystr_length_ind.
  intros c. destruct t as [|a [|b t']]; try reflexivity.
  rewrite replace_uu_cons2.
  destruct (is_underscore a && is_underscore b) eqn:E.
  - apply andb_true_iff in E. destruct E as [Ea Eb].
    apply is_underscore_eq in Ea, Eb. subst a b.
    assert (H : squeeze (underscore :: replace_uu t')
                = squeeze (underscore :: t')) by (apply IH; simpl; lia).
    rewrite (squeeze_cons2 c underscore (replace_uu t')), H.
    rewrite (squeeze_cons2 c underscore (underscore :: t')).
    rewrite (squeeze_cons2 underscore underscore t').
    reflexivity.
  - assert (H : squeeze (a :: replace_uu (b :: t'))
                = squeeze (a :: b :: t')) by (apply IH; simpl; lia).
    rewrite (squeeze_cons2 c a (replace_uu (b :: t'))), H.
    now rewrite (squeeze_cons2 c a (b :: t')).
Qed.

Lemma squeeze_replace s : squeeze (replace_uu s) = squeeze s.
Proof.
  destruct s as [|a [|b t]]; try reflexivity.
  rewrite replace_uu_cons2.
  destruct (is_underscore a && is_underscore b) eqn:E.
  - apply andb_true_iff in E. destruct E as [Ea Eb].
    apply is_underscore_eq in Ea, Eb. subst a b.
    rewrite squeeze_cons_replace. reflexivity.
  - apply squeeze_cons_replace.
Qed.

Lemma squeeze_fixed s : contains_uu s = false -> squeeze s = s.
Proof.
  induction s as [|a t IH]; [reflexivity|].
  destruct t as [|b t'];
    [intros _; cbn [squeeze opens_with_underscore];
     now rewrite andb_false_r|].
  cbn [contains_uu]. intros H. apply orb_false_iff in H. destruct H as [H1 H2].
  cbn [squeeze opens_with_underscore] in *. rewrite H1. f_equal. now apply IH.
Qed.

Lemma collapse_loop_squeeze fuel : forall s,
  squeeze (collapse_loop fuel s) = squeeze s.
Proof.
  induction fuel as [|f IH]; intros s; simpl; [reflexivity|].
  destruct (contains_uu s); [|reflexivity].
  now rewrite IH, squeeze_replace.
Qed.

(** What the loop computes. *)
Lemma collapse_squeeze s : collapse s = squeeze s.
Proof.
  rewrite <- (squeeze_fixed (collapse s) (collapse_no_uu s)).
  apply collapse_loop_squeeze.
Qed.

(** ** What the sanitizer guarantees *)

Lemma contains_uu_app_l a : forall b,
  contains_uu (a ++ b) = false -> contains_uu a = false.
Proof.
  induction a as [|x a IH]; intros b H; [reflexivity|].
  destruct a as [|y a']; [reflexivity|].
  cbn [app contains_uu] in *. apply orb_false_iff in H. destruct H as [H1 H2].
  rewrite H1. cbn [orb]. apply (IH b). exact H2.
Qed.

Lemma contains_uu_app_r a : forall b,
  contains_uu (a ++ b) = false -> contains_uu b = false.
Proof.
  induction a as [|x a IH]; intros b H; [exact H|].
  apply IH. cbn [app] in H. destruct (a ++ b) as [|y r] eqn:E; [reflexivity|].
  cbn [contains_uu] in H. apply orb_false_iff in H. tauto.
Qed.

Lemma dropwhile_split p s : exists pre, s = pre ++ dropwhile p s.
Proof.
  induction s as [|c t [pre IH]]; simpl; [now exists []|].
  destruct (p c); [|now exists []].
  exists (c :: pre). simpl. now rewrite <- IH.
Qed.

Lemma strip_with_split p s :
  exists pre post, s = pre ++ strip_with p s ++ post.
Proof.
  unfold strip_with, rstrip, lstrip.
  destruct (dropwhile_split p s) as [pre Hpre].
  destruct (dropwhile_split p (rev (dropwhile p s))) as [post Hpost].
  exists pre, (rev post). rewrite <- rev_app_distr, <- Hpost, rev_involutive.
  exact Hpre.
Qed.

Lemma strip_with_no_uu p s :
  contains_uu s = false -> contains_uu (strip_with p s) = false.
Proof.
  intros H. destruct (strip_with_split p s) as (pre & post & E).
  rewrite E in H. apply contains_uu_app_r in H. now apply contains_uu_app_l in H.
Qed.

Lemma firstn_no_uu n s :
  contains_uu s = false -> contains_uu (firstn n s) = false.
Proof.
  intros H. rewrite <- (firstn_skipn n s) in H. now apply contains_uu_app_l in H.
Qed.

Lemma Forall_prefix (P : ascii -> Prop) n (s : pystr) :
  Forall P s -> Forall P (firstn n s).
Proof.
  intros H. rewrite <- (firstn_skipn n s) in H.
  apply Forall_app in H. tauto.
Qed.

Lemma Forall_strip_with (P : ascii -> Prop) p s :
  Forall P s -> Forall P (strip_with p s).
Proof.
  intros H. destruct (strip_with_split p s) as (pre & post & E).
  rewrite E in H. apply Forall_app in H. destruct H as [_ H].
  apply Forall_app in H. tauto.
Qed.

Lemma Forall_replace_uu (P : ascii -> Prop) (s : pystr) :
  P underscore -> Forall P s -> Forall P (replace_uu s).
Proof.
  intros Hu. induction s as [s IH] using pystr_length_ind. intros H.
  destruct s as [|a [|b t]]; try exact H.
  rewrite replace_uu_cons2.
  inversion H as [|? ? Ha H']; subst. inversion H' as [|? ? Hb H'']; subst.
  destruct (is_underscore a && is_underscore b); constructor; auto;
    apply IH; simpl; auto.
Qed.

Lemma Forall_collapse (P : ascii -> Prop) (s : pystr) :
  P underscore -> Forall P s -> Forall P (collapse s).
Proof.
  intros Hu. unfold collapse. generalize (length s) as fuel.
  intros fuel. revert s. induction fuel as [|f IH]; intros s H; simpl; auto.
  destruct (contains_uu s); auto. apply IH. now apply Forall_replace_uu.
Qed.

Lemma dropwhile_head p s :
  match dropwhile p s with [] => True | c :: _ => p c = false end.
Proof.
  induction s as [|c t IH]; simpl; [exact I|].
  destruct (p c) eqn:E; [exact IH|exact E].
Qed.

Lemma dropwhile_stop p l c r :
  p c = false -> dropwhile p (l ++ c :: r) = dropwhile p l ++ c :: r.
Proof.
  intros Hc. induction l as [|x l IH]; simpl; [now rewrite Hc|].
  destruct (p x); [exact IH|reflexivity].
Qed.

Lemma rstrip_cons p c t : p c = false -> rstrip p (c :: t) = c :: rstrip p t.
Proof.
  intros Hc. unfold rstrip. simpl.
  rewrite (@dropwhile_stop p (rev t) c [] Hc), rev_app_distr. reflexivity.
Qed.

Lemma strip_with_head p s :
  match strip_with p s with [] => True | c :: _ => p c = false end.
Proof.
  unfold strip_with, lstrip. pose proof (dropwhile_head p s) as H.
  destruct (dropwhile p s) as [|c t]; [exact I|].
  now rewrite (@rstrip_cons p c t H).
Qed.

Lemma name_char_b c : isalnum c || is_underscore c = true -> name_char c.
Proof.
  intros H. apply orb_true_iff in H. destruct H as [H|H]; [now left|].
  right. now apply is_underscore_eq.
Qed.

(** X1: the sanitizer is a total function, and for every input its result
    has at most 64 characters, holds no ["__"], is made of characters
    that [isalnum] accepts and of underscores, and does not start with an
    underscore; an input that is empty once stripped gives the default
    name. *)
Theorem sanitizer_guarantees (s : pystr) :
  length (_clean_name s) <= 64
  /\ contains_uu (_clean_name s) = false
  /\ Forall name_char (_clean_name s)
  /\ opens_with_underscore (_clean_name s) = false
  /\ (strip s = [] -> _clean_name s = str "CAD_Project").
Proof.
  unfold _clean_name. destruct (strip s) as [|c0 t] eqn:Es.
  - split; [vm_compute; lia|]. split; [reflexivity|].
    split; [|split; [reflexivity|reflexivity]].
    apply Forall_forall. intros c Hin. apply name_char_b.
    revert c Hin. apply forallb_forall. reflexivity.
  - set (cleaned := map keep_or_underscore (c0 :: t)).
    set (prefixed := match cleaned with
                     | c :: _ => if isdigit c then str "X_" ++ cleaned else cleaned
                     | [] => cleaned
                     end).
    assert (Hc : Forall name_char cleaned).
    { unfold cleaned. apply Forall_forall. intros c Hin.
      apply in_map_iff in Hin. destruct Hin as (x & <- & _).
      unfold keep_or_underscore.
      destruct (isalnum x) eqn:E; [now left|now right]. }
    assert (Hp : Forall name_char prefixed).
    { unfold prefixed. destruct cleaned as [|c r]; [constructor|].
      destruct (isdigit c); [|exact Hc].
      constructor; [now left|]. constructor; [now right|exact Hc]. }
    split; [|split; [|split; [|split]]].
    + apply firstn_le_length.
    + apply firstn_no_uu, strip_with_no_uu, collapse_no_uu.
    + apply Forall_prefix, Forall_strip_with, Forall_collapse;
        [now right|exact Hp].
    + pose proof (strip_with_head is_underscore (collapse prefixed)) as H.
      unfold strip_underscores.
      destruct (strip_with is_underscore (collapse prefixed)); [reflexivity|].
      exact H.
    + discriminate.
Qed.

(** ** The timestamp in the names *)

Lemma pad_ok_spec w bound n :
  pad_ok w bound = true -> (n < N.of_nat bound)%N ->
  length (pad w n) = w /\ digits_value (pad w n) = n
  /\ Forall (fun c => in_range 48 57 c = true) (pad w n).
Proof.
  unfold pad_ok. rewrite forallb_forall. intros H Hn.
  specialize (H (N.to_nat n)). rewrite N2Nat.id in H.
  assert (Hin : In (N.to_nat n) (seq 0 bound)) by (apply in_seq; lia).
  specialize (H Hin). cbv zeta in H.
  apply andb_true_iff in H. destruct H as [H H3].
  apply andb_true_iff in H. destruct H as [H1 H2].
  split; [now apply Nat.eqb_eq|]. split; [now apply N.eqb_eq|].
  apply Forall_forall. now apply forallb_forall.
Qed.

Lemma pad2_ok : pad_ok 2 100 = true.
Proof. vm_compute. reflexivity. Qed.

Lemma pad4_ok : pad_ok 4 10000 = true.
Proof. vm_compute. reflexivity. Qed.

Lemma app_same_length A (a a' b b' : list A) :
  length a = length a' -> a ++ b = a' ++ b' -> a = a' /\ b = b'.
Proof.
  revert a'. induction a as [|x a IH]; intros [|y a'] Hl E; simpl in *;
    try lia; [auto|].
  inversion E; subst. destruct (IH a') as [-> ->]; auto.
Qed.

Lemma valid_ts_bounds t :
  valid_ts t = true ->
  (year t < 10000 /\ month t < 100 /\ day t < 100
   /\ hour t < 100 /\ minute t < 100 /\ second t < 100)%N.
Proof.
  unfold valid_ts. intros H.
  repeat (apply andb_true_iff in H; destruct H as [H ?]).
  repeat match goal with
         | X : (_ <=? _)%N = true |- _ => apply N.leb_le in X
         end.
  lia.
Qed.

Theorem strftime_injective (t1 t2 : timestamp) :
  valid_ts t1 = true -> valid_ts t2 = true ->
  strftime t1 = strftime t2 -> t1 = t2.
Proof.
  intros V1 V2 E.
  destruct (valid_ts_bounds _ V1) as (Y1 & M1 & D1 & h1 & m1 & s1).
  destruct (valid_ts_bounds _ V2) as (Y2 & M2 & D2 & h2 & m2 & s2).
  destruct t1 as [y mo d h mi s], t2 as [y' mo' d' h' mi' s'].
  cbn [year month day hour minute second] in *.
  unfold strftime in E. cbn [year month day hour minute second] in E.
  pose proof (@pad_ok_spec 4 10000 y pad4_ok Y1) as (Ly & Vy & _).
  pose proof (@pad_ok_spec 4 10000 y' pad4_ok Y2) as (Ly' & Vy' & _).
  pose proof (@pad_ok_spec 2 100 mo pad2_ok M1) as (Lmo & Vmo & _).
  pose proof (@pad_ok_spec 2 100 mo' pad2_ok M2) as (Lmo' & Vmo' & _).
  pose proof (@pad_ok_spec 2 100 d pad2_ok D1) as (Ld & Vd & _).
  pose proof (@pad_ok_spec 2 100 d' pad2_ok D2) as (Ld' & Vd' & _).
  pose proof (@pad_ok_spec 2 100 h pad2_ok h1) as (Lh & Vh & _).
  pose proof (@pad_ok_spec 2 100 h' pad2_ok h2) as (Lh' & Vh' & _).
  pose proof (@pad_ok_spec 2 100 mi pad2_ok m1) as (Lmi & Vmi & _).
  pose proof (@pad_ok_spec 2 100 mi' pad2_ok m2) as (Lmi' & Vmi' & _).
  pose proof (@pad_ok_spec 2 100 s pad2_ok s1) as (Ls & Vs & _).
  pose proof (@pad_ok_spec 2 100 s' pad2_ok s2) as (Ls' & Vs' & _).
  apply app_same_length in E; [|congruence]. destruct E as [Ey E].
  apply app_same_length in E; [|congruence]. destruct E as [Emo E].
  apply app_same_length in E; [|congruence]. destruct E as [Ed E].
  apply app_same_length in E; [|reflexivity]. destruct E as [_ E].
  apply app_same_length in E; [|congruence]. destruct E as [Eh E].
  apply app_same_length in E; [|congruence]. destruct E as [Emi Es].
  f_equal; congruence.
Qed.

(** The stamp is fifteen characters: digits around one underscore. *)
Lemma strftime_shape t :
  valid_ts t = true ->
  exists d1 d2, strftime t = d1 ++ underscore :: d2
    /\ length d1 = 8 /\ length d2 = 6
    /\ Forall (fun c => in_range 48 57 c = true) d1
    /\ Forall (fun c => in_range 48 57 c = true) d2.
Proof.
  intros V. destruct (valid_ts_bounds _ V) as (Y & M & D & h & m & s).
  pose proof (@pad_ok_spec 4 10000 _ pad4_ok Y) as (Ly & _ & Fy).
  pose proof (@pad_ok_spec 2 100 _ pad2_ok M) as (Lmo & _ & Fmo).
  pose proof (@pad_ok_spec 2 100 _ pad2_ok D) as (Ld & _ & Fd).
  pose proof (@pad_ok_spec 2 100 _ pad2_ok h) as (Lh & _ & Fh).
  pose proof (@pad_ok_spec 2 100 _ pad2_ok m) as (Lmi & _ & Fmi).
  pose proof (@pad_ok_spec 2 100 _ pad2_ok s) as (Ls & _ & Fs).
  exists (pad 4 (year t) ++ pad 2 (month t) ++ pad 2 (day t)),
         (pad 2 (hour t) ++ pad 2 (minute t) ++ pad 2 (second t)).
  split; [unfold strftime; now rewrite <- !app_assoc|].
  rewrite !length_app, Ly, Lmo, Ld, Lh, Lmi, Ls.
  split; [reflexivity|]. split; [reflexivity|].
  split; apply Forall_app; split; try assumption; apply Forall_app; split;
    assumption.
Qed.

Lemma startswith_head b x y :
  b <> [] -> startswith (b ++ x) [sep] = startswith (b ++ y) [sep].
Proof.
  destruct b as [|c b]; [congruence|]. intros _.
  cbn [app startswith]. now rewrite !startswith_nil.
Qed.

Theorem store_path_injective (t1 t2 : timestamp) (output_folder base_name : pystr) :
  valid_ts t1 = true -> valid_ts t2 = true ->
  _unique_gdb_path t1 output_folder base_name
  = _unique_gdb_path t2 output_folder base_name ->
  t1 = t2.
Proof.
  intros V1 V2 E. apply strftime_injective; try assumption.
  unfold _unique_gdb_path, join in E.
  set (prefix := base_name ++ str "_Converted_") in *.
  rewrite !(app_assoc base_name (str "_Converted_")) in E. fold prefix in E.
  rewrite (@startswith_head prefix (strftime t1 ++ str ".gdb")
             (strftime t2 ++ str ".gdb")) in E
    by (unfold prefix; destruct base_name; discriminate).
  destruct (startswith (prefix ++ strftime t2 ++ str ".gdb") [sep]).
  - apply app_inv_head in E. now apply app_inv_tail in E.
  - destruct (negb (truthy output_folder) || endswith output_folder [sep]).
    + do 2 apply app_inv_head in E. now apply app_inv_tail in E.
    + do 3 apply app_inv_head in E. now apply app_inv_tail in E.
Qed.

(** ** The staging name of a short identifier *)

Lemma in_range_spec lo hi c :
  in_range lo hi c = true <-> (lo <= code c <= hi)%N.
Proof.
  unfold in_range. rewrite andb_true_iff, !N.leb_le. tauto.
Qed.

Lemma in_range_out lo hi c :
  (code c < lo \/ hi < code c)%N -> in_range lo hi c = false.
Proof.
  intros H. destruct (in_range lo hi c) eqn:E; [|reflexivity].
  apply in_range_spec in E. lia.
Qed.

Lemma digit_not_space c : in_range 48 57 c = true -> isspace c = false.
Proof.
  intros H. apply in_range_spec in H. unfold isspace.
  rewrite !in_range_out by lia.
  destruct (N.eqb_spec (code c) 133); [lia|].
  destruct (N.eqb_spec (code c) 160); [lia|reflexivity].
Qed.

Lemma digit_not_underscore c :
  in_range 48 57 c = true -> is_underscore c = false.
Proof.
  intros H. apply in_range_spec in H.
  destruct (is_underscore c) eqn:E; [|reflexivity].
  apply is_underscore_eq in E. subst c. vm_compute in H. destruct H as [_ H].
  exfalso. now apply H.
Qed.

Lemma digit_alnum c : in_range 48 57 c = true -> isalnum c = true.
Proof.
  intros H. unfold isalnum, isdigit. rewrite H.
  now rewrite !orb_true_r.
Qed.

Lemma rstrip_last p l c : p c = false -> rstrip p (l ++ [c]) = l ++ [c].
Proof.
  intros H. unfold rstrip. rewrite rev_app_distr. simpl. rewrite H.
  simpl. now rewrite rev_involutive.
Qed.

Lemma opens_app_stop y c r :
  is_underscore c = false ->
  opens_with_underscore (y ++ c :: r) = opens_with_underscore y.
Proof. intros H. destruct y; [exact H|reflexivity]. Qed.

Lemma squeeze_app_stop y c r :
  is_underscore c = false ->
  squeeze (y ++ c :: r) = squeeze y ++ squeeze (c :: r).
Proof.
  intros H. induction y as [|a y IH]; [reflexivity|].
  cbn [app squeeze]. rewrite (@opens_app_stop y c r H), IH.
  destruct (is_underscore a && opens_with_underscore y); reflexivity.
Qed.

Lemma squeeze_plain l r :
  Forall (fun c => is_underscore c = false) l ->
  squeeze (l ++ r) = l ++ squeeze r.
Proof.
  induction 1 as [|a l Ha _ IH]; [reflexivity|].
  cbn [app squeeze]. now rewrite Ha, IH.
Qed.

Lemma squeeze_all_plain l :
  Forall (fun c => is_underscore c = false) l -> squeeze l = l.
Proof.
  intros H. rewrite <- (app_nil_r l) at 1.
  rewrite (squeeze_plain [] H). apply app_nil_r.
Qed.

Lemma squeeze_length s : length (squeeze s) <= length s.
Proof.
  induction s as [|a t IH]; [reflexivity|]. cbn [squeeze].
  destruct (is_underscore a && opens_with_underscore t); simpl; lia.
Qed.

Lemma keep_digit_or_underscore l :
  Forall (fun c => in_range 48 57 c = true) l -> map keep_or_underscore l = l.
Proof.
  induction 1 as [|a l Ha _ IH]; [reflexivity|]. simpl.
  unfold keep_or_underscore at 1. now rewrite (digit_alnum _ Ha), IH.
Qed.

(** The staging name of an identifier of at most 40 characters: a part
    made from the identifier alone, then the whole stamp. *)
Lemma staging_name_shape t name :
  valid_ts t = true -> length name <= 40 ->
  staging_dataset_name t name
  = squeeze (str "CAD_RAW_" ++ map keep_or_underscore name ++ [underscore])
    ++ strftime t.
Proof.
  intros V Hlen.
  destruct (strftime_shape _ V) as (d1 & d2 & ES & L1 & L2 & F1 & F2).
  unfold staging_dataset_name. cbv zeta. rewrite ES.
  destruct d1 as [|h1 d1']; [discriminate|].
  destruct (@exists_last _ d2) as (d2' & z & Ez);
    [destruct d2; discriminate|]. subst d2.
  assert (Hz : in_range 48 57 z = true).
  { apply Forall_app in F2. destruct F2 as [_ F2]. now inversion F2. }
  assert (Hh : in_range 48 57 h1 = true) by now inversion F1.
  set (stamp := (h1 :: d1') ++ underscore :: d2' ++ [z]).
  (* white space at the ends *)
  unfold _clean_name.
  assert (Estrip : strip (str "CAD_RAW_" ++ name ++ str "_" ++ stamp)
                   = str "CAD_RAW_" ++ name ++ str "_" ++ stamp).
  { unfold strip, strip_with, lstrip.
    change (dropwhile isspace (str "CAD_RAW_" ++ name ++ str "_" ++ stamp))
      with (str "CAD_RAW_" ++ name ++ str "_" ++ stamp).
    unfold stamp.
    replace (str "CAD_RAW_" ++ name ++ str "_" ++ (h1 :: d1') ++ underscore :: d2' ++ [z])
      with ((str "CAD_RAW_" ++ name ++ str "_" ++ (h1 :: d1') ++ underscore :: d2') ++ [z])
      by (repeat rewrite <- app_assoc; reflexivity).
    apply rstrip_last. now apply digit_not_space. }
  rewrite Estrip.
  change (str "CAD_RAW_" ++ name ++ str "_" ++ stamp)
    with ("C"%char :: (str "AD_RAW_" ++ name ++ str "_" ++ stamp)).
  cbv beta iota.
  change ("C"%char :: (str "AD_RAW_" ++ name ++ str "_" ++ stamp))
    with (str "CAD_RAW_" ++ name ++ str "_" ++ stamp).
  rewrite !map_app.
  change (map keep_or_underscore (str "CAD_RAW_")) with (str "CAD_RAW_").
  change (map keep_or_underscore (str "_")) with [underscore].
  assert (ES' : map keep_or_underscore stamp = stamp).
  { unfold stamp. rewrite map_app.
    rewrite (keep_digit_or_underscore F1). cbn [map].
    change (keep_or_underscore underscore) with underscore.
    f_equal. f_equal. now apply keep_digit_or_underscore. }
  rewrite ES'.
  set (body := str "CAD_RAW_" ++ map keep_or_underscore name ++ [underscore]).
  replace (str "CAD_RAW_" ++ map keep_or_underscore name ++ [underscore] ++ stamp)
    with (body ++ stamp) by (unfold body; now rewrite <- !app_assoc).
  change (body ++ stamp) with ("C"%char :: (str "AD_RAW_" ++ map keep_or_underscore name ++ [underscore]) ++ stamp).
  cbv beta iota.
  change (isdigit "C"%char) with false. cbv beta iota.
  change ("C"%char :: (str "AD_RAW_" ++ map keep_or_underscore name ++ [underscore]) ++ stamp)
    with (body ++ stamp).
  rewrite collapse_squeeze.
  assert (ESq : squeeze stamp = stamp).
  { unfold stamp. rewrite squeeze_plain
      by (eapply Forall_impl; [|exact F1]; apply digit_not_underscore).
    f_equal. destruct d2' as [|x d2']; [simpl in L2; discriminate|].
    assert (Hx : in_range 48 57 x = true).
    { apply Forall_app in F2. destruct F2 as [F2 _]. now inversion F2. }
    change ((x :: d2') ++ [z]) with (x :: (d2' ++ [z])).
    rewrite squeeze_cons2, (digit_not_underscore _ Hx), andb_false_r.
    f_equal. apply squeeze_all_plain.
    eapply Forall_impl; [|exact F2]. apply digit_not_underscore. }
  unfold stamp at 1. cbn [app].
  rewrite (@squeeze_app_stop body h1 _ (digit_not_underscore _ Hh)).
  change (h1 :: d1' ++ underscore :: d2' ++ [z]) with stamp. rewrite ESq.
  (* underscores at the ends *)
  assert (Ebody : squeeze body = "C"%char :: squeeze (str "AD_RAW_" ++ map keep_or_underscore name ++ [underscore])).
  { reflexivity. }
  assert (Estrip2 : strip_underscores (squeeze body ++ stamp) = squeeze body ++ stamp).
  { unfold strip_underscores, strip_with, lstrip. rewrite Ebody.
    cbn [app dropwhile]. change (is_underscore "C"%char) with false. cbv iota.
    unfold stamp.
    replace ("C"%char :: squeeze (str "AD_RAW_" ++ map keep_or_underscore name ++ [underscore]) ++ (h1 :: d1') ++ underscore :: d2' ++ [z])
      with (("C"%char :: squeeze (str "AD_RAW_" ++ map keep_or_underscore name ++ [underscore]) ++ (h1 :: d1') ++ underscore :: d2') ++ [z]).
    - apply rstrip_last. now apply digit_not_underscore.
    - repeat (rewrite <- app_assoc || rewrite <- app_comm_cons).
      reflexivity. }
  rewrite Estrip2.
  apply firstn_all2.
  rewrite length_app. pose proof (squeeze_length body) as Hb.
  assert (length body = 9 + length name).
  { unfold body. rewrite !length_app, length_map. simpl. lia. }
  assert (length stamp = 15).
  { unfold stamp. change (h1 :: d1') with ([h1] ++ d1'). rewrite !length_app. simpl.
    simpl in L1. lia. }
  unfold MAX_LEN. lia.
Qed.

Theorem staging_name_injective (t1 t2 : timestamp) (name : pystr) :
  valid_ts t1 = true -> valid_ts t2 = true -> length name <= 40 ->
  staging_dataset_name t1 name = staging_dataset_name t2 name -> t1 = t2.
Proof.
  intros V1 V2 Hlen E.
  rewrite (@staging_name_shape t1 name V1 Hlen),
    (@staging_name_shape t2 name V2 Hlen) in E.
  apply app_inv_head in E. now apply strftime_injective.
Qed.


(** ** What holds of the names, stated for the script *)

(** X2: two runs with the same output folder and identifier at different
    seconds get different store paths. *)
Theorem store_paths_differ
        (t1 t2 : timestamp) (output_folder base_name : pystr) :
  valid_ts t1 = true -> valid_ts t2 = true -> t1 <> t2 ->
  _unique_gdb_path t1 output_folder base_name
  <> _unique_gdb_path t2 output_folder base_name.
Proof.
  intros V1 V2 Hne E. apply Hne.
  eapply store_path_injective; eassumption.
Qed.

Lemma store_paths_differ_witness :
  _unique_gdb_path Sample.ts1 (str "/out") (str "roads")
  <> _unique_gdb_path Sample.ts2 (str "/out") (str "roads").
Proof.
  apply (@store_paths_differ Sample.ts1 Sample.ts2 (str "/out") (str "roads")
           eq_refl eq_refl).
  intro H. discriminate H.
Defined.

(** X3: for an identifier of at most 40 characters, two runs at
    different seconds get different staging names: the 64 characters kept
    by the sanitizer hold the whole stamp. *)
Theorem staging_names_differ_when_short
        (t1 t2 : timestamp) (name : pystr) :
  valid_ts t1 = true -> valid_ts t2 = true -> length name <= 40 ->
  t1 <> t2 ->
  staging_dataset_name t1 name <> staging_dataset_name t2 name.
Proof.
  intros V1 V2 Hlen Hne E. apply Hne.
  eapply staging_name_injective; eassumption.
Qed.

Lemma staging_names_differ_witness :
  staging_dataset_name Sample.ts1 (repeat "a"%char 40)
  <> staging_dataset_name Sample.ts2 (repeat "a"%char 40).
Proof.
  apply (@staging_names_differ_when_short Sample.ts1 Sample.ts2
           (repeat "a"%char 40) eq_refl eq_refl).
  - simpl. lia.
  - intro H. discriminate H.
Defined.

(** X4: the identifier derived from a non-empty input folder is the same
    with and without separators at the end of the path. *)
Theorem identifier_ignores_trailing_separators
        (folder name : pystr) (n : nat) :
  folder <> [] ->
  project_identifier (folder ++ repeat sep n) name
  = project_identifier folder name.
Proof.
  intros Hne. unfold project_identifier.
  destruct (truthy name); [reflexivity|]. f_equal.
  induction n as [|n IH]; [now rewrite app_nil_r|].
  rewrite <- IH.
  replace (folder ++ repeat sep (S n)) with ((folder ++ repeat sep n) ++ [sep]).
  - apply basename_normpath_trailing_sep.
    destruct folder; [congruence|discriminate].
  - rewrite <- app_assoc. f_equal. symmetry. apply repeat_cons.
Qed.

Lemma identifier_trailing_witness :
  project_identifier (str "/data/roads" ++ repeat sep 2) []
  = project_identifier (str "/data/roads") [].
Proof.
  apply (@identifier_ignores_trailing_separators (str "/data/roads") [] 2).
  discriminate.
Defined.

(* ================================================================== *)
(** * Further properties of the script *)

Unset Implicit Arguments.

(** ** Names the sanitizer keeps, and names it repairs *)

(** A check that holds of the 256 characters holds of every character. *)
Lemma all_chars (f : ascii -> bool) :
  forallb f (map ascii_of_nat (seq 0 256)) = true -> forall c, f c = true.
Proof.
  intros H c. rewrite forallb_forall in H. apply H.
  apply in_map_iff. exists (nat_of_ascii c).
  split; [apply ascii_nat_embedding|].
  apply in_seq. pose proof (nat_ascii_bounded c). lia.
Qed.

Lemma alnum_not_space c : isalnum c = true -> isspace c = false.
Proof.
  intros H.
  pose proof (all_chars (fun c => negb (isalnum c && isspace c))
                         ltac:(vm_compute; reflexivity) c) as G.
  cbv beta in G. rewrite H in G. now apply negb_true_iff in G.
Qed.

Lemma alnum_not_underscore c : isalnum c = true -> is_underscore c = false.
Proof.
  intros H. destruct (is_underscore c) eqn:E; [|reflexivity].
  apply is_underscore_eq in E. subst c. discriminate H.
Qed.

Lemma name_char_plain c :
  is_name_char c = true -> is_underscore c = false -> isalnum c = true.
Proof. unfold is_name_char. intros H E. rewrite E, orb_false_r in H. exact H. Qed.

Lemma keep_alnum c : isalnum c = true -> keep_or_underscore c = c.
Proof. unfold keep_or_underscore. now intros ->. Qed.

Lemma keep_name_char c : is_name_char c = true -> keep_or_underscore c = c.
Proof.
  unfold is_name_char, keep_or_underscore. intros H.
  destruct (isalnum c); [reflexivity|].
  simpl in H. symmetry. now apply is_underscore_eq.
Qed.

Lemma keep_name_chars (r : pystr) :
  forallb is_name_char r = true -> map keep_or_underscore r = r.
Proof.
  induction r as [|c t IH]; [reflexivity|]. simpl. intros H.
  apply andb_true_iff in H. destruct H as [Hc Ht].
  now rewrite (keep_name_char _ Hc), IH.
Qed.

(** A string whose first and last characters are not removed is left as
    it is by [strip]. *)
Lemma strip_with_id p (c : ascii) (t : pystr) :
  p c = false -> p (last (c :: t) c) = false ->
  strip_with p (c :: t) = c :: t.
Proof.
  intros Hc Hl. unfold strip_with, lstrip. cbn [dropwhile]. rewrite Hc.
  destruct (@exists_last _ (c :: t)) as (l & z & E); [discriminate|].
  rewrite E in Hl |- *. rewrite last_last in Hl. now apply rstrip_last.
Qed.

Lemma last_indep A (l : list A) d d' : l <> [] -> last l d = last l d'.
Proof.
  induction l as [|x [|y t] IH]; intros H; [congruence|reflexivity|].
  apply IH. discriminate.
Qed.

Lemma last_in A (l : list A) d : l <> [] -> In (last l d) l.
Proof.
  induction l as [|x [|y t] IH]; intros H; [congruence|now left|].
  right. apply IH. discriminate.
Qed.

(** X5: a name that is well formed already (not empty, at most 64
    characters, each accepted by [isalnum] or an underscore, no ["__"],
    no underscore at either end, no digit in front) is returned by the
    sanitizer as it is. *)
Theorem sanitizer_keeps_well_formed_names (r : pystr) :
  well_formed_name r = true -> _clean_name r = r.
Proof.
  unfold well_formed_name. intros H.
  repeat (apply andb_true_iff in H; destruct H as [H ?]).
  destruct r as [|c t]; [discriminate|].
  apply andb_true_iff in H. destruct H as [Hd Hu].
  apply negb_true_iff in Hd, Hu.
  match goal with X : negb (contains_uu _) = true |- _ =>
    apply negb_true_iff in X; rename X into Huu end.
  match goal with X : negb (is_underscore _) = true |- _ =>
    apply negb_true_iff in X; rename X into Hlast end.
  match goal with X : forallb _ _ = true |- _ => rename X into Hall end.
  match goal with X : (_ <=? _) = true |- _ =>
    apply Nat.leb_le in X; rename X into Hlen end.
  rewrite (last_indep _ (c :: t) underscore c) in Hlast by discriminate.
  assert (Hc : isalnum c = true).
  { apply name_char_plain; [|exact Hu]. simpl in Hall.
    apply andb_true_iff in Hall. tauto. }
  assert (Hz : isalnum (last (c :: t) c) = true).
  { apply name_char_plain; [|exact Hlast].
    rewrite forallb_forall in Hall. apply Hall. apply last_in. discriminate. }
  unfold _clean_name, strip.
  rewrite (strip_with_id isspace c t (alnum_not_space _ Hc)
             (alnum_not_space _ Hz)).
  rewrite (keep_name_chars _ Hall). rewrite Hd.
  rewrite collapse_squeeze, (squeeze_fixed _ Huu).
  unfold strip_underscores. rewrite (strip_with_id is_underscore c t Hu Hlast).
  now apply firstn_all2.
Qed.

Lemma sanitizer_keeps_witness :
  _clean_name (str "US_550_Bridge") = str "US_550_Bridge".
Proof.
  apply (sanitizer_keeps_well_formed_names (str "US_550_Bridge")).
  reflexivity.
Defined.

Lemma squeeze_head c t :
  is_underscore c = false -> squeeze (c :: t) = c :: squeeze t.
Proof. intros H. cbn [squeeze]. now rewrite H. Qed.

Lemma strip_with_keeps_head p c t :
  p c = false -> exists rest, strip_with p (c :: t) = c :: rest.
Proof.
  intros H. unfold strip_with, lstrip. cbn [dropwhile]. rewrite H.
  rewrite (@rstrip_cons p c t H). eauto.
Qed.

(** X6: when the input, once stripped of white space, starts with a
    character that [isalnum] accepts, the result of the sanitizer is not
    empty and starts with that character, or with [X] when the character
    is a digit; so it does not start with a digit. *)
Theorem sanitizer_repairs_names_that_start_with_alnum
        (s : pystr) (c0 : ascii) (t : pystr) :
  strip s = c0 :: t -> isalnum c0 = true ->
  exists rest,
    _clean_name s = (if isdigit c0 then "X"%char else c0) :: rest
    /\ isdigit (if isdigit c0 then "X"%char else c0) = false.
Proof.
  intros Es Hc. unfold _clean_name, strip_underscores. rewrite Es. cbn [map].
  rewrite !(keep_alnum _ Hc).
  destruct (isdigit c0) eqn:Hd.
  - change (str "X_" ++ c0 :: map keep_or_underscore t)
      with ("X"%char :: underscore :: c0 :: map keep_or_underscore t).
    rewrite collapse_squeeze, squeeze_head by reflexivity.
    destruct (strip_with_keeps_head is_underscore "X"%char
                (squeeze (underscore :: c0 :: map keep_or_underscore t))
                eq_refl) as [rest ->].
    exists (firstn 63 rest). split; reflexivity.
  - rewrite collapse_squeeze, squeeze_head by now apply alnum_not_underscore.
    destruct (strip_with_keeps_head is_underscore c0
                (squeeze (map keep_or_underscore t))
                (alnum_not_underscore _ Hc)) as [rest ->].
    exists (firstn 63 rest). split; [reflexivity|exact Hd].
Qed.

Lemma sanitizer_repairs_witness :
  exists rest,
    _clean_name (str " 2024 plans!") = "X"%char :: rest
    /\ isdigit "X"%char = false.
Proof.
  exact (sanitizer_repairs_names_that_start_with_alnum
           (str " 2024 plans!") "2"%char (str "024 plans!") eq_refl eq_refl).
Defined.

(** ** The staging name of a well-formed identifier *)

Lemma contains_uu_join l z b :
  contains_uu (l ++ z :: b) = contains_uu (l ++ [z]) || contains_uu (z :: b).
Proof.
  induction l as [|x l IH]; [reflexivity|].
  destruct l as [|y l'].
  - cbn [app contains_uu]. now rewrite orb_false_r.
  - change ((x :: y :: l') ++ z :: b) with (x :: (y :: l') ++ z :: b).
    change ((x :: y :: l') ++ [z]) with (x :: (y :: l') ++ [z]).
    change (contains_uu (x :: (y :: l') ++ z :: b))
      with ((is_underscore x && is_underscore y)
            || contains_uu ((y :: l') ++ z :: b)).
    change (contains_uu (x :: (y :: l') ++ [z]))
      with ((is_underscore x && is_underscore y)
            || contains_uu ((y :: l') ++ [z])).
    rewrite IH. now rewrite orb_assoc.
Qed.

Lemma contains_uu_cons2 a b t :
  contains_uu (a :: b :: t)
  = (is_underscore a && is_underscore b) || contains_uu (b :: t).
Proof. reflexivity. Qed.

Lemma contains_uu_plain_head z b :
  is_underscore z = false -> contains_uu (z :: b) = contains_uu b.
Proof.
  intros H. destruct b as [|y b]; [reflexivity|].
  cbn [contains_uu]. now rewrite H.
Qed.

Lemma contains_uu_plain_last l z :
  is_underscore z = false -> contains_uu (l ++ [z]) = contains_uu l.
Proof.
  intros H. induction l as [|x l IH]; [reflexivity|].
  destruct l as [|y l'].
  - cbn [app contains_uu]. now rewrite H, andb_false_r.
  - change ((x :: y :: l') ++ [z]) with (x :: (y :: l') ++ [z]).
    change (contains_uu (x :: (y :: l') ++ [z]))
      with ((is_underscore x && is_underscore y)
            || contains_uu ((y :: l') ++ [z])).
    now rewrite IH.
Qed.

(** X7: for a well-formed identifier of at most 40 characters the
    staging name is [CAD_RAW_], the identifier, an underscore and the
    stamp of the second reading of the clock: the sanitizer changes
    nothing in it. *)
Theorem staging_name_has_documented_form (t : timestamp) (id : pystr) :
  valid_ts t = true -> well_formed_name id = true -> length id <= 40 ->
  staging_dataset_name t id = str "CAD_RAW_" ++ id ++ str "_" ++ strftime t.
Proof.
  intros V Hwf Hlen. rewrite (@staging_name_shape t id V Hlen).
  unfold well_formed_name in Hwf.
  repeat (apply andb_true_iff in Hwf; destruct Hwf as [Hwf ?]).
  destruct id as [|c r]; [discriminate|].
  apply andb_true_iff in Hwf. destruct Hwf as [_ Hu].
  apply negb_true_iff in Hu.
  match goal with X : negb (contains_uu _) = true |- _ =>
    apply negb_true_iff in X; rename X into Huu end.
  match goal with X : negb (is_underscore _) = true |- _ =>
    apply negb_true_iff in X; rename X into Hlast end.
  match goal with X : forallb _ _ = true |- _ => rename X into Hall end.
  rewrite (keep_name_chars _ Hall).
  rewrite squeeze_fixed; [now rewrite <- !app_assoc|].
  destruct (@exists_last _ (c :: r)) as (l & z & E); [discriminate|].
  rewrite E in Hlast, Huu |- *. rewrite last_last in Hlast.
  rewrite <- app_assoc. cbn [app].
  rewrite app_assoc, contains_uu_join.
  rewrite (contains_uu_plain_last _ _ Hlast).
  rewrite (contains_uu_plain_head _ _ Hlast). cbn [contains_uu]. rewrite orb_false_r.
  rewrite (contains_uu_plain_last _ _ Hlast) in Huu.
  (* the prefix ends with an underscore, the identifier does not start
     with one *)
  assert (El : str "CAD_RAW_" ++ l = str "CAD_RAW" ++ underscore :: l)
    by reflexivity.
  rewrite El, contains_uu_join.
  change (contains_uu (str "CAD_RAW" ++ [underscore])) with false.
  cbn [orb].
  destruct l as [|x l'].
  - reflexivity.
  - simpl in E. inversion E; subst x.
    rewrite contains_uu_cons2, Hu, andb_false_r. exact Huu.
Qed.

Lemma staging_name_form_witness :
  staging_dataset_name Sample.ts1 (str "roads")
  = str "CAD_RAW_" ++ str "roads" ++ str "_" ++ strftime Sample.ts1.
Proof.
  apply (staging_name_has_documented_form Sample.ts1 (str "roads")).
  - reflexivity.
  - reflexivity.
  - simpl. lia.
Defined.

(** ** The identifier taken from the input folder *)

Lemma split_sep_free k : sep_free k -> split sep k = [k].
Proof.
  unfold sep_free. induction k as [|c k IH]; intros H; [reflexivity|].
  cbn [split]. destruct (Ascii.eqb c sep) eqn:E.
  - apply Ascii.eqb_eq in E. subst c. exfalso. apply H. now left.
  - rewrite IH; [reflexivity|]. intros Hin. apply H. now right.
Qed.

Lemma split_at_sep a b :
  split sep (a ++ sep :: b) = split sep a ++ split sep b.
Proof.
  induction a as [|c a IH].
  - cbn [app split]. now rewrite Ascii.eqb_refl.
  - cbn [app split]. rewrite IH. destruct (Ascii.eqb c sep); [reflexivity|].
    destruct (split sep a) eqn:E; [now apply (@split_nonempty a) in E|reflexivity].
Qed.

Lemma endswith_sep_inv a :
  endswith a [sep] = true -> exists a', a = a' ++ [sep].
Proof.
  unfold endswith. intros H. destruct (rev a) as [|c r] eqn:E; [discriminate|].
  cbn [rev app startswith] in H. apply andb_true_iff in H. destruct H as [H _].
  apply Ascii.eqb_eq in H. subst c. exists (rev r).
  rewrite <- (rev_involutive a), E. reflexivity.
Qed.

Lemma base_shape a : base a = [] \/ exists a', base a = a' ++ [sep].
Proof.
  unfold base. destruct a as [|c t]; [now left|]. right.
  cbn [truthy negb orb].
  destruct (endswith (c :: t) [sep]) eqn:E; [now apply endswith_sep_inv|eauto].
Qed.

Lemma join_with_snoc s acc k :
  join_with s (acc ++ [k])
  = match acc with [] => k | _ :: _ => join_with s acc ++ s ++ k end.
Proof.
  induction acc as [|x acc IH]; [reflexivity|].
  destruct acc as [|y acc'].
  - reflexivity.
  - change (join_with s ((x :: y :: acc') ++ [k]))
      with (x ++ s ++ join_with s ((y :: acc') ++ [k])).
    rewrite IH.
    change (join_with s (x :: y :: acc'))
      with (x ++ s ++ join_with s (y :: acc')).
    now rewrite <- !app_assoc.
Qed.

Lemma basename_sep_free k : sep_free k -> basename k = k.
Proof. intros H. unfold basename. now rewrite split_sep_free. Qed.

Lemma basename_after_sep x k : sep_free k -> basename (x ++ sep :: k) = k.
Proof.
  intros H. unfold basename. rewrite split_at_sep, (split_sep_free _ H).
  apply last_last.
Qed.

Lemma norm_step_name i acc k :
  k <> [] -> k <> dot -> k <> dotdot -> norm_step i acc k = acc ++ [k].
Proof.
  intros H1 H2 H3. unfold norm_step.
  apply eqs_false in H1, H2, H3. now rewrite H1, H2, H3.
Qed.

Lemma valid_name_not_special k :
  valid_name k = true -> k <> dot /\ k <> dotdot.
Proof.
  unfold valid_name. intros H.
  repeat (apply andb_true_iff in H; destruct H as [H ?]).
  split; apply eqs_false; now apply negb_true_iff.
Qed.

Lemma basename_normpath_child parent k :
  valid_name k = true -> basename (normpath (join parent k)) = k.
Proof.
  intros Hv. destruct (@valid_name_inv k Hv) as [Hne Hsf].
  destruct (valid_name_not_special _ Hv) as [Hd Hdd].
  rewrite (@join_base parent k Hsf).
  assert (Hp : base parent ++ k <> []).
  { destruct (base parent); [exact Hne|discriminate]. }
  rewrite (@basename_normpath _ Hp). cbv zeta.
  set (i := initial_slashes (base parent ++ k)).
  assert (Hs : exists X, split sep (base parent ++ k) = X ++ [k]).
  { destruct (base_shape parent) as [->|[a' ->]].
    - exists []. now apply split_sep_free.
    - rewrite <- app_assoc. cbn [app].
      rewrite split_at_sep, (split_sep_free _ Hsf). eauto. }
  destruct Hs as [X ->].
  rewrite fold_left_app. cbn [fold_left].
  rewrite (norm_step_name i _ k Hne Hd Hdd), join_with_snoc.
  destruct (fold_left (norm_step i) X []) as [|y acc].
  - destruct k; [congruence|]. cbn [truthy negb]. rewrite andb_false_r.
    now apply basename_sep_free.
  - set (J := join_with [sep] (y :: acc)).
    assert (Ht : truthy (J ++ [sep] ++ k) = true)
      by (destruct J; reflexivity).
    rewrite Ht. cbn [negb]. rewrite andb_false_r.
    now apply basename_after_sep.
Qed.

(** X8: with no project name, the identifier is the sanitized name of
    the last component of the input folder, whatever stands before that
    component and however many separators follow it. *)
Theorem identifier_defaults_to_folder_name (parent k : pystr) (n : nat) :
  valid_name k = true ->
  project_identifier (join parent k ++ repeat sep n) [] = _clean_name k.
Proof.
  intros Hv. unfold project_identifier. cbn [truthy]. f_equal.
  assert (Hp : join parent k <> []).
  { destruct (@valid_name_inv k Hv) as [Hne Hsf]. rewrite (@join_base parent k Hsf).
    destruct (base parent); [exact Hne|discriminate]. }
  induction n as [|n IH]; [rewrite app_nil_r; now apply basename_normpath_child|].
  etransitivity; [|exact IH].
  replace (join parent k ++ repeat sep (S n))
    with ((join parent k ++ repeat sep n) ++ [sep]).
  - apply (@basename_normpath_trailing_sep (join parent k ++ repeat sep n)).
    destruct (join parent k); [congruence|discriminate].
  - rewrite <- app_assoc. f_equal. symmetry. apply repeat_cons.
Qed.

Lemma identifier_default_witness :
  project_identifier (join (str "/data") (str "I-25 widening") ++ repeat sep 1) []
  = _clean_name (str "I-25 widening").
Proof.
  apply (identifier_defaults_to_folder_name (str "/data") (str "I-25 widening") 1).
  reflexivity.
Defined.

(** ** The discovery and the order of the listing *)

Lemma sorted_unique (l l' : list pystr) :
  StronglySorted le_str l -> StronglySorted le_str l' ->
  Permutation l l' -> l = l'.
Proof.
  intros Hs. revert l'. induction Hs as [|x t Hs IH Hx]; intros l' Hs' Hp.
  - apply Permutation_nil in Hp. now subst.
  - destruct Hs' as [|y t' Hs' Hy].
    + apply Permutation_sym, Permutation_nil in Hp. discriminate.
    + assert (x = y).
      { rewrite Forall_forall in Hx, Hy.
        assert (Hyl : In y (x :: t))
          by (apply (Permutation_in _ (Permutation_sym Hp)); now left).
        assert (Hxl : In x (y :: t'))
          by (apply (Permutation_in _ Hp); now left).
        destruct Hyl as [E|Hyl]; [exact E|].
        destruct Hxl as [E|Hxl]; [now symmetry|].
        apply leb_antisym; [now apply Hx|now apply Hy]. }
      subst y. f_equal. apply IH; [exact Hs'|].
      now apply Permutation_cons_inv in Hp.
Qed.

Lemma sorted_of_permutation (l l' : list pystr) :
  Permutation l l' -> sorted l = sorted l'.
Proof.
  intros Hp. apply sorted_unique; try apply sorted_sorted.
  rewrite (sorted_perm l), (sorted_perm l'). exact Hp.
Qed.

Lemma same_shape_kind n : forall n' cs,
  wf n = true -> wf n' = true -> same_shape n n' = true ->
  kind_of (lookup n cs) = kind_of (lookup n' cs).
Proof.
  induction n as [d|es IH] using node_rect_nested; intros n' cs Hwf Hwf' Hs.
  - destruct n' as [d'|es']; [|discriminate].
    destruct cs; reflexivity.
  - destruct n' as [d'|es']; [discriminate|].
    destruct cs as [|c cs]; [reflexivity|].
    cbn [same_shape] in Hs. apply andb_true_iff in Hs. destruct Hs as [H1 H2].
    rewrite forallb_forall in H1, H2. rewrite Forall_forall in IH.
    destruct (@wf_dir es Hwf) as [Hnd _]. destruct (@wf_dir es' Hwf') as [Hnd' _].
    cbn [lookup].
    destruct (assoc c es) as [ch|] eqn:A.
    + pose proof (@assoc_in c ch es A) as Hin.
      specialize (H1 _ Hin). cbn [fst snd] in H1.
      destruct (assoc c es') as [ch'|] eqn:A'; [|discriminate].
      apply (IH _ Hin); [|  |exact H1].
      * now destruct (@wf_entry es c ch Hwf Hin).
      * pose proof (@assoc_in c ch' es' A') as Hin'.
        now destruct (@wf_entry es' c ch' Hwf' Hin').
    + destruct (assoc c es') as [ch'|] eqn:A'; [|reflexivity].
      pose proof (@assoc_in c ch' es' A') as Hin'.
      specialize (H2 _ Hin'). cbn [fst] in H2. rewrite A in H2. discriminate.
Qed.

Lemma kind_file o : kind_of o = IsFile -> exists d, o = Some (File d).
Proof. destruct o as [[d|es]|]; try discriminate. eauto. Qed.

Lemma through_file_kinds cs : forall n n',
  (forall ds, kind_of (lookup n ds) = kind_of (lookup n' ds)) ->
  through_file n cs = through_file n' cs.
Proof.
  induction cs as [|c cs IH]; intros n n' Hk; [reflexivity|].
  pose proof (Hk []) as H0. pose proof (Hk [c]) as H1.
  destruct n as [d|es], n' as [d'|es']; try discriminate H0; [reflexivity|].
  rewrite !lookup_child in H1. cbn [through_file].
  destruct (assoc c es) as [ch|] eqn:A, (assoc c es') as [ch'|] eqn:A';
    try reflexivity.
  - apply IH. intros ds. specialize (Hk (c :: ds)). cbn [lookup] in Hk.
    now rewrite A, A' in Hk.
  - destruct ch; discriminate H1.
  - destruct ch'; discriminate H1.
Qed.

Lemma cad_chains_same_kinds n n' :
  wf n = true ->
  (forall cs, kind_of (lookup n cs) = kind_of (lookup n' cs)) ->
  forall cs, In cs (cad_chains n) -> In cs (cad_chains n').
Proof.
  intros Hwf Hk cs Hin.
  destruct (@cad_chains_sound n Hwf cs Hin) as (Hne & _ & (d & Hd) & Hext).
  specialize (Hk cs). rewrite Hd in Hk. symmetry in Hk.
  destruct (kind_file _ Hk) as [d' Hd'].
  eapply cad_chains_complete; eassumption.
Qed.

Lemma names_same_kinds es es' :
  NoDup (map fst es) -> NoDup (map fst es') ->
  (forall cs, kind_of (lookup (Dir es) cs) = kind_of (lookup (Dir es') cs)) ->
  forall name, In name (map fst es) -> In name (map fst es').
Proof.
  intros Hnd Hnd' Hk name Hin.
  apply (proj1 (@names_assoc es name Hnd)) in Hin. destruct Hin as [ch Hch].
  apply (proj2 (@names_assoc es' name Hnd')).
  specialize (Hk [name]). rewrite !lookup_child, Hch in Hk.
  destruct (assoc name es') as [ch'|]; [eauto|].
  destruct ch; discriminate.
Qed.

Lemma deep_listing_nodup folder es :
  wf (Dir es) = true ->
  NoDup (map (joins folder) (cad_chains (Dir es))).
Proof.
  intros Hwd.
  apply NoDup_map_NoDup_ForallPairs; [|now apply cad_chains_nodup].
  intros a b Ha Hb E.
  destruct (@cad_chains_sound _ Hwd _ Ha) as (Ha1 & Ha2 & _).
  destruct (@cad_chains_sound _ Hwd _ Hb) as (Hb1 & Hb2 & _).
  eapply joins_inj; eassumption.
Qed.

Lemma flat_listing_nodup folder es :
  wf (Dir es) = true ->
  NoDup (map (join folder) (filter has_cad_ext (map fst es))).
Proof.
  intros Hwd. destruct (@wf_dir es Hwd) as [Hnd _].
  assert (Hgood : forall x, In x (filter has_cad_ext (map fst es)) -> sep_free x).
  { intros x Hx. apply filter_In in Hx. destruct Hx as [Hx _].
    apply in_map_iff in Hx. destruct Hx as ([k v] & <- & Hx).
    now destruct (@wf_entry es k v Hwd Hx) as [[_ ?] _]. }
  apply NoDup_map_NoDup_ForallPairs; [|now apply NoDup_filter].
  intros a b Ha Hb E.
  rewrite (@join_base folder a (Hgood _ Ha)), (@join_base folder b (Hgood _ Hb)) in E.
  now apply app_inv_head in E.
Qed.

(** X9: the discovery depends neither on the order in which the system
    lists the entries of a directory nor on what the files hold: on two
    well-formed trees with the same names at the same places, files for
    files and directories for directories, it gives the same result (the
    same sorted list, or the same exception), with and without
    recursion. *)
Theorem discovery_ignores_listing_order
  (fs fs' : node) (folder : pystr) (recursive : bool) :
  wf fs = true -> wf fs' = true -> same_shape fs fs' = true ->
  _find_cad_files fs folder recursive = _find_cad_files fs' folder recursive.
Proof.
  intros Hwf Hwf' Hs.
  pose proof (fun cs => same_shape_kind fs fs' cs Hwf Hwf' Hs) as Hk.
  assert (Hsub : forall ds,
             kind_of (match lookup fs (locate folder) with
                      | Some m => lookup m ds | None => None end)
             = kind_of (match lookup fs' (locate folder) with
                        | Some m => lookup m ds | None => None end)).
  { intros ds. rewrite <- !lookup_app. apply Hk. }
  pose proof (Hk (locate folder)) as Hk0.
  unfold _find_cad_files, walk, listdir.
  rewrite (through_file_kinds (locate folder) fs fs' Hk).
  destruct (lookup fs (locate folder)) as [[d|es]|] eqn:L;
    destruct (lookup fs' (locate folder)) as [[d'|es']|] eqn:L';
    try discriminate Hk0; try (destruct recursive; reflexivity).
  assert (Hwd : wf (Dir es) = true)
    by exact (@wf_lookup (locate folder) fs _ Hwf L).
  assert (Hwd' : wf (Dir es') = true)
    by exact (@wf_lookup (locate folder) fs' _ Hwf' L').
  destruct (@wf_dir es Hwd) as [Hnd _]. destruct (@wf_dir es' Hwd') as [Hnd' _].
  destruct recursive; f_equal; apply sorted_of_permutation.
  - rewrite !walk_collect. apply Permutation_map.
    apply NoDup_Permutation; try now apply cad_chains_nodup.
    intros cs. split; apply cad_chains_same_kinds; trivial.
    intros ds. symmetry. apply Hsub.
  - apply Permutation_map.
    apply NoDup_Permutation; try now apply NoDup_filter.
    intros name. rewrite !filter_In.
    split; intros [Hin Hext]; (split; [|exact Hext]);
      revert Hin; apply names_same_kinds; trivial.
    intros ds. symmetry. apply Hsub.
Qed.

Lemma discovery_order_witness :
  _find_cad_files Sample.tree (str "/data/roads") true
  = _find_cad_files shuffled (str "/data/roads") true.
Proof.
  apply (discovery_ignores_listing_order Sample.tree shuffled
           (str "/data/roads") true); vm_compute; reflexivity.
Defined.

(** X10: a directory of the input folder whose name ends like a drawing
    is returned by the discovery without recursion ([os.listdir] does not
    tell files from directories) and is not returned by the discovery with
    recursion (which takes the files of [os.walk] only). *)
Theorem directory_named_like_a_drawing
  (fs : node) (folder name : pystr) (es' : list (pystr * node)) :
  wf fs = true ->
  isdir fs folder = true ->
  lookup fs (locate folder ++ [name]) = Some (Dir es') ->
  has_cad_ext name = true ->
  exists flat deep,
    _find_cad_files fs folder false = Ok flat
    /\ _find_cad_files fs folder true = Ok deep
    /\ In (join folder name) flat
    /\ ~ In (join folder name) deep.
Proof.
  intros Hwf Hdir Hl Hext. destruct (isdir_lookup _ _ Hdir) as [es L].
  assert (Hwd : wf (Dir es) = true)
    by exact (@wf_lookup (locate folder) fs _ Hwf L).
  destruct (@wf_dir es Hwd) as [Hnd _].
  rewrite lookup_app, L, lookup_child in Hl.
  unfold _find_cad_files, walk, listdir. rewrite L.
  do 2 eexists. split; [reflexivity|]. split; [reflexivity|]. split.
  - apply sorted_in, in_map, filter_In. split; [|exact Hext].
    apply (proj2 (@names_assoc es name Hnd)). eauto.
  - rewrite sorted_in, walk_collect, in_map_iff. intros (cs & E & Hcs).
    destruct (@cad_chains_sound _ Hwd _ Hcs) as (Hne & Hgood & (d & Hd) & _).
    destruct (@wf_entry es name (Dir es') Hwd (@assoc_in _ _ _ Hl)) as [Hname _].
    assert (cs = [name]).
    { apply (@joins_inj folder cs [name]); trivial.
      - discriminate.
      - constructor; [exact Hname|constructor]. }
    subst cs. rewrite lookup_child, Hl in Hd. discriminate.
Qed.

Lemma directory_named_like_a_drawing_witness :
  exists flat deep,
    _find_cad_files site (str "/site") false = Ok flat
    /\ _find_cad_files site (str "/site") true = Ok deep
    /\ In (str "/site/plans.dwg") flat
    /\ ~ In (str "/site/plans.dwg") deep.
Proof.
  apply (directory_named_like_a_drawing site (str "/site") (str "plans.dwg")
           [(str "sheet1.txt", File [])]); reflexivity.
Defined.

Lemma file_on_the_way_file d cs : file_on_the_way (File d) cs = true.
Proof. reflexivity. Qed.





(** ** Where the store is put *)

Lemma locate_step_name acc k :
  valid_name k = true -> locate_step acc k = acc ++ [k].
Proof.
  intros Hv. destruct (@valid_name_inv k Hv) as [Hne _].
  destruct (valid_name_not_special _ Hv) as [Hd Hdd].
  unfold locate_step. apply eqs_false in Hne, Hd, Hdd.
  now rewrite Hne, Hd, Hdd.
Qed.

Lemma locate_snoc a k :
  sep_free k -> locate (a ++ sep :: k) = locate_step (locate a) k.
Proof.
  intros Hk. unfold locate.
  rewrite split_at_sep, (split_sep_free _ Hk), fold_left_app. reflexivity.
Qed.

Lemma locate_trailing_sep a : locate (a ++ [sep]) = locate a.
Proof.
  unfold locate. rewrite split_snoc_sep, fold_left_app. reflexivity.
Qed.

Lemma locate_join_child out k :
  valid_name k = true -> locate (join out k) = locate out ++ [k].
Proof.
  intros Hv. destruct (@valid_name_inv k Hv) as [Hne Hsf].
  rewrite (@join_base out k Hsf). unfold base.
  destruct out as [|c t].
  - cbn [truthy negb orb app]. unfold locate.
    rewrite (split_sep_free _ Hsf). cbn [fold_left split app].
    now rewrite locate_step_name.
  - cbn [truthy negb orb].
    destruct (endswith (c :: t) [sep]) eqn:E.
    + destruct (endswith_sep_inv _ E) as [a' Ea]. rewrite Ea.
      rewrite <- app_assoc. cbn [app].
      rewrite (locate_snoc _ _ Hsf), locate_trailing_sep.
      now apply locate_step_name.
    + replace (((c :: t) ++ [sep]) ++ k) with ((c :: t) ++ sep :: k)
        by now rewrite <- app_assoc.
      rewrite (locate_snoc _ _ Hsf). now apply locate_step_name.
Qed.

Lemma clean_name_chars s : Forall name_char (_clean_name s).
Proof.
  unfold _clean_name. destruct (strip s) as [|c0 t] eqn:Es.
  - apply Forall_forall. intros c Hin. apply name_char_b.
    revert c Hin. apply forallb_forall. reflexivity.
  - set (cleaned := map keep_or_underscore (c0 :: t)).
    assert (Hc : Forall name_char cleaned).
    { unfold cleaned. apply Forall_forall. intros c Hin.
      apply in_map_iff in Hin. destruct Hin as (x & <- & _).
      unfold keep_or_underscore.
      destruct (isalnum x) eqn:E; [now left|now right]. }
    apply Forall_prefix, Forall_strip_with, Forall_collapse; [now right|].
    destruct cleaned as [|c r]; [constructor|].
    destruct (isdigit c); [|exact Hc].
    constructor; [now left|]. constructor; [now right|exact Hc].
Qed.

Lemma name_char_not_sep c : name_char c -> Ascii.eqb c sep = false.
Proof.
  intros [H|H].
  - destruct (Ascii.eqb c sep) eqn:E; [|reflexivity].
    apply Ascii.eqb_eq in E. subst c. discriminate H.
  - subst c. reflexivity.
Qed.

Lemma digit_not_sep c : in_range 48 57 c = true -> Ascii.eqb c sep = false.
Proof. intros H. apply name_char_not_sep. left. now apply digit_alnum. Qed.

Lemma existsb_app_false A (f : A -> bool) l1 l2 :
  existsb f l1 = false -> existsb f l2 = false -> existsb f (l1 ++ l2) = false.
Proof. intros H1 H2. now rewrite existsb_app, H1, H2. Qed.

Lemma existsb_none A (f : A -> bool) l :
  Forall (fun x => f x = false) l -> existsb f l = false.
Proof. induction 1 as [|x t Hx _ IH]; simpl; [reflexivity|]. now rewrite Hx. Qed.

Lemma gdb_name_valid t id :
  valid_ts t = true -> Forall name_char id -> valid_name (gdb_name t id) = true.
Proof.
  intros V Hid.
  destruct (strftime_shape _ V) as (d1 & d2 & ES & L1 & L2 & F1 & F2).
  assert (Hlen : 2 < length (gdb_name t id)).
  { unfold gdb_name. rewrite !length_app. cbn [str length list_ascii_of_string]. lia. }
  assert (Hsep : existsb (fun c => Ascii.eqb c sep) (gdb_name t id) = false).
  { unfold gdb_name. rewrite ES.
    apply existsb_app_false; [|apply existsb_app_false; [reflexivity|]].
    - apply existsb_none. eapply Forall_impl; [|exact Hid].
      intros c. apply name_char_not_sep.
    - apply existsb_app_false; [|reflexivity].
      apply existsb_app_false.
      + apply existsb_none. eapply Forall_impl; [|exact F1].
        intros c. apply digit_not_sep.
      + cbn [existsb]. rewrite existsb_none; [reflexivity|].
        eapply Forall_impl; [|exact F2]. intros c. apply digit_not_sep. }
  unfold valid_name. rewrite Hsep.
  destruct (gdb_name t id) as [|a [|b [|c r]]] eqn:Eg;
    cbn [length] in Hlen; try lia.
  assert (H1 : eqs (a :: b :: c :: r) dot = false)
    by (apply eqs_false; discriminate).
  assert (H2 : eqs (a :: b :: c :: r) dotdot = false)
    by (apply eqs_false; discriminate).
  rewrite H1, H2. reflexivity.
Qed.

(** X12: for a sanitized base name the store path names a direct child
    of the output folder: its place in the tree is the place of the
    output folder followed by one name, [<base>_Converted_<stamp>.gdb],
    which holds no separator and is neither [.] nor [..]; no input of the
    sanitizer can move the store elsewhere. *)
Theorem store_is_a_child_of_the_output_folder
  (t : timestamp) (out s : pystr) :
  valid_ts t = true ->
  locate (_unique_gdb_path t out (_clean_name s))
  = locate out ++ [gdb_name t (_clean_name s)]
  /\ valid_name (gdb_name t (_clean_name s)) = true.
Proof.
  intros V.
  pose proof (gdb_name_valid t (_clean_name s) V (clean_name_chars s)) as Hv.
  split; [|exact Hv].
  unfold _unique_gdb_path. cbv zeta. now apply locate_join_child.
Qed.

Lemma store_child_witness :
  locate (_unique_gdb_path Sample.ts1 (str "/out") (_clean_name (str "../../etc")))
  = locate (str "/out") ++ [gdb_name Sample.ts1 (_clean_name (str "../../etc"))]
  /\ valid_name (gdb_name Sample.ts1 (_clean_name (str "../../etc"))) = true.
Proof.
  apply (store_is_a_child_of_the_output_folder
           Sample.ts1 (str "/out") (str "../../etc")).
  reflexivity.
Defined.

(** ** Provisioning a store that is not there yet *)

Lemma lookup_snoc_none es k :
  lookup (Dir es) [k] = None -> assoc k es = None.
Proof. rewrite lookup_child. trivial. Qed.

Lemma mkdirs_child cs : forall n es k,
  lookup n cs = Some (Dir es) -> lookup n (cs ++ [k]) = None ->
  exists n', mkdirs n (cs ++ [k]) = Some n'.
Proof.
  induction cs as [|c cs IH]; intros n es k H Hnone.
  - cbn [lookup] in H. inversion H; subst n. cbn [app] in *.
    apply lookup_snoc_none in Hnone. cbn [mkdirs]. rewrite Hnone.
    eexists; reflexivity.
  - destruct n as [d|es0]; [discriminate|].
    cbn [app lookup] in H, Hnone. cbn [app mkdirs].
    destruct (assoc c es0) as [ch|] eqn:A; [|discriminate].
    destruct (IH ch es k H Hnone) as [n' ->]. eexists; reflexivity.
Qed.

Lemma is_prefix_refl a : is_prefix a a = true.
Proof. induction a as [|x a IH]; [reflexivity|]. cbn. now rewrite eqs_refl. Qed.

Lemma is_prefix_snoc a : forall b k,
  is_prefix a (b ++ [k]) = true -> is_prefix a b = true \/ a = b ++ [k].
Proof.
  induction a as [|x a IH]; intros b k H; [now left|].
  destruct b as [|y b].
  - cbn [app is_prefix] in H. apply andb_true_iff in H. destruct H as [E H].
    apply eqs_true in E. subst x. destruct a; [now right|discriminate].
  - cbn [app is_prefix] in H. apply andb_true_iff in H. destruct H as [E H].
    apply eqs_true in E. subst x.
    destruct (IH b k H) as [Hp| ->].
    + left. cbn [is_prefix]. now rewrite eqs_refl.
    + now right.
Qed.

(** X13: provisioning a store that is not there yet, as a child of an
    output folder that is a directory, from a template that is a
    directory and not above the output folder, succeeds: the new store
    is a copy of the template and the rest of the tree is as before. *)
Theorem provisioning_makes_a_fresh_store
  (fs : node) (template out k : pystr) (es : list (pystr * node)) :
  lookup fs (locate template) = Some (Dir es) ->
  isdir fs out = true ->
  valid_name k = true ->
  exists_ fs (join out k) = false ->
  is_prefix (locate template) (locate out) = false ->
  exists fs',
    _copy_template_gdb template (join out k) fs = Ok fs'
    /\ lookup fs' (locate (join out k)) = Some (Dir es)
    /\ (forall p, apart (locate (join out k)) p = true ->
                  lookup fs' p = lookup fs p).
Proof.
  intros Htpl Hout Hv Hno Hpre.
  destruct (isdir_lookup _ _ Hout) as [es0 Ho].
  assert (Hgone : lookup fs (locate (join out k)) = None).
  { unfold exists_ in Hno.
    destruct (lookup fs (locate (join out k))); [discriminate|reflexivity]. }
  assert (Hp : is_prefix (locate template) (locate (join out k)) = false).
  { destruct (is_prefix (locate template) (locate (join out k))) eqn:E;
      [|reflexivity].
    rewrite (locate_join_child out k Hv) in E, Hgone.
    destruct (is_prefix_snoc _ _ _ E) as [H|H]; congruence. }
  pose proof Hgone as Hg2. rewrite (locate_join_child out k Hv) in Hg2.
  destruct (mkdirs_child _ _ _ k Ho Hg2) as [n1 Hmk].
  rewrite <- (locate_join_child out k Hv) in Hmk.
  destruct (@mkdirs_lookup _ _ _ Hmk) as [es2 Hdir].
  destruct (@put_lookup _ _ _ (Dir es) Hdir) as (n2 & Hput & Hnew).
  exists n2. split; [|split].
  - unfold _copy_template_gdb. rewrite Hno. unfold copytree.
    rewrite Htpl, Hno, Hp. cbn [andb]. rewrite Hmk, Hput. reflexivity.
  - exact Hnew.
  - intros p Hap.
    rewrite (@put_lookup_other _ _ _ _ _ Hput Hap).
    apply (@mkdirs_lookup_other _ _ _ _ Hmk Hap).
Qed.

Lemma provisioning_fresh_witness :
  exists fs',
    _copy_template_gdb Sample.template_path
      (join (str "/out") (str "new.gdb")) Sample.tree = Ok fs'
    /\ lookup fs' (locate (join (str "/out") (str "new.gdb")))
       = Some Sample.template_node
    /\ (forall p, apart (locate (join (str "/out") (str "new.gdb"))) p = true ->
                  lookup fs' p = lookup Sample.tree p).
Proof.
  apply (provisioning_makes_a_fresh_store Sample.tree Sample.template_path
           (str "/out") (str "new.gdb")
           [(str "gdb", File (str "template")); (str "schema", Dir [])]);
    reflexivity.
Defined.

(** ** What every run keeps *)

Section Keeps.

Variable P : world -> world -> Prop.
Hypothesis P_refl : forall w, P w w.
Hypothesis P_trans : forall a b c, P a b -> P b c -> P a c.

Lemma keeps_ret A (a : A) : keeps P (ret a).
Proof. intros w r w' H. inversion H; subst. apply P_refl. Qed.

Lemma keeps_raise A (e : exn) : keeps P (@raise A e).
Proof. intros w r w' H. inversion H; subst. apply P_refl. Qed.

Lemma keeps_lift A (x : result A) : keeps P (lift x).
Proof. intros w r w' H. inversion H; subst. apply P_refl. Qed.

Lemma keeps_ask A (f : node -> A) : keeps P (ask f).
Proof. intros w r w' H. inversion H; subst. apply P_refl. Qed.

Lemma keeps_bind A B (m : M A) (k : A -> M B) :
  keeps P m -> (forall a, keeps P (k a)) -> keeps P (bind m k).
Proof.
  intros Hm Hk w r w' H. unfold bind in H.
  destruct (m w) as [[a|e] w1] eqn:E.
  - eapply P_trans; [eapply Hm; exact E|eapply Hk; exact H].
  - inversion H; subst. eapply Hm; exact E.
Qed.

Lemma keeps_try_except A (m : M A) (h : exn -> M A) :
  keeps P m -> (forall e, keeps P (h e)) -> keeps P (try_except m h).
Proof.
  intros Hm Hh w r w' H. unfold try_except in H.
  destruct (m w) as [[a|e] w1] eqn:E.
  - inversion H; subst. eapply Hm; exact E.
  - eapply P_trans; [eapply Hm; exact E|eapply Hh; exact H].
Qed.

Lemma keeps_copy_template_step tpl tgt :
  keeps P (change (fun fs => rmtree fs tgt)) ->
  keeps P (change (fun fs => copytree fs tpl tgt)) ->
  keeps P (copy_template_step tpl tgt).
Proof.
  intros Hr Hc. unfold copy_template_step.
  apply keeps_bind; [apply keeps_ask|]. intros there.
  apply keeps_bind; [destruct there; [exact Hr|apply keeps_ret]|].
  intros _. exact Hc.
Qed.

Hypothesis P_emit : forall l t, keeps P (emit l t).
Hypothesis P_record : forall c, keeps P (record c).

Ltac keeps_step :=
  lazymatch goal with
  | |- keeps _ (bind _ _) => apply keeps_bind; [|intros ?]
  | |- keeps _ (emit _ _) => apply P_emit
  | |- keeps _ (record _) => apply P_record
  | |- keeps _ (lift _) => apply keeps_lift
  | |- keeps _ (ask _) => apply keeps_ask
  | |- keeps _ (ret _) => apply keeps_ret
  | |- keeps _ (raise _) => apply keeps_raise
  end.

Lemma keeps_banner t : keeps P (banner t).
Proof. unfold banner, AddMessage. repeat keeps_step. Qed.

Lemma keeps_report_sr sr : keeps P (report_sr sr).
Proof.
  unfold report_sr, AddMessage. destruct sr as [r|]; repeat keeps_step.
Qed.

Lemma keeps_extent_check ev p : keeps P (_warn_if_extent_suspicious ev p).
Proof.
  unfold _warn_if_extent_suspicious, AddWarning. apply keeps_try_except.
  - keeps_step; [keeps_step|].
    match goal with a : extent |- _ => destruct (suspicious a) end; keeps_step.
  - intros _. keeps_step.
Qed.

Lemma keeps_registration ev p : keeps P (_add_dataset_to_map ev p).
Proof.
  unfold _add_dataset_to_map, AddWarning, AddMessage. apply keeps_try_except.
  - destruct (current_project ev) as [e| |add]; repeat keeps_step.
  - intros e. keeps_step.
Qed.

Variable ev : env.
Variable rq : request.

Hypothesis P_makedirs :
  keeps P (change (fun fs => makedirs fs (output_folder rq))).
Hypothesis P_copy :
  forall template,
    keeps P (copy_template_step template
               (_unique_gdb_path (now_store ev) (output_folder rq)
                  (project_identifier (cad_folder rq) (project_name rq)))).

Lemma keeps_convert files sr template :
  keeps P (convert ev rq
             (project_identifier (cad_folder rq) (project_name rq))
             files sr template).
Proof.
  unfold convert, AddMessage. cbv zeta.
  repeat lazymatch goal with
         | |- keeps _ (banner _) => apply keeps_banner
         | |- keeps _ (copy_template_step _ _) => apply P_copy
         | |- keeps _ (_warn_if_extent_suspicious _ _) => apply keeps_extent_check
         | |- keeps _ (if _ then _ else _) =>
             destruct (auto_add rq); [apply keeps_registration|]
         | |- _ => keeps_step
         end.
Qed.

Lemma keeps_main_try : keeps P (main_try ev rq).
Proof.
  unfold main_try, AddError, AddWarning, AddMessage.
  cbv zeta.
  repeat lazymatch goal with
         | |- keeps _ (report_sr _) => apply keeps_report_sr
         | |- keeps _ (change _) => apply P_makedirs
         | |- keeps _ (convert _ _ _ _ _ _) => apply keeps_convert
         | |- keeps _ (if ?b then _ else _) => destruct b
         | |- _ => keeps_step
         end.
Qed.

End Keeps.

Lemma same_outputs_change f : keeps same_outputs (change f).
Proof.
  intros w r w' H. unfold change in H.
  destruct (f (w_fs w)); inversion H; reflexivity.
Qed.

Lemma same_outputs_refl w : same_outputs w w.
Proof. reflexivity. Qed.

Lemma same_outputs_trans a b c :
  same_outputs a b -> same_outputs b c -> same_outputs a c.
Proof. unfold same_outputs. intros H1 H2. now rewrite H2. Qed.

Lemma main_try_same_outputs ev rq : keeps same_outputs (main_try ev rq).
Proof.
  apply keeps_main_try.
  - exact same_outputs_refl.
  - exact same_outputs_trans.
  - intros l t w r w' H. inversion H. reflexivity.
  - intros c w r w' H. inversion H. reflexivity.
  - apply same_outputs_change.
  - intros template.
    apply (keeps_copy_template_step same_outputs
             same_outputs_refl same_outputs_trans);
      apply same_outputs_change.
Qed.

Lemma log_grows_change f : keeps log_grows (change f).
Proof.
  intros w r w' H. unfold change in H. exists [].
  destruct (f (w_fs w)); inversion H; cbn [w_log]; now rewrite app_nil_r.
Qed.

Lemma log_grows_refl w : log_grows w w.
Proof. exists []. now rewrite app_nil_r. Qed.

Lemma log_grows_trans a b c : log_grows a b -> log_grows b c -> log_grows a c.
Proof.
  intros [n1 H1] [n2 H2]. exists (n1 ++ n2). now rewrite H2, H1, app_assoc.
Qed.

Lemma main_try_log_grows ev rq : keeps log_grows (main_try ev rq).
Proof.
  apply keeps_main_try.
  - exact log_grows_refl.
  - exact log_grows_trans.
  - intros l t w r w' H. inversion H. now exists [(l, t)].
  - intros c w r w' H. inversion H. exists []. cbn [w_log]. now rewrite app_nil_r.
  - apply log_grows_change.
  - intros template.
    apply (keeps_copy_template_step log_grows log_grows_refl log_grows_trans);
      apply log_grows_change.
Qed.

(** X15: a run that raises has written, as its last two messages, the
    headline of the handler for the kind of the exception and the text of
    the exception, both as errors, after everything logged before; it
    has set no derived output, and the exception is raised again. *)
Theorem failed_run_reports_the_exception
  (ev : env) (rq : request) (w w' : world) (e : exn) :
  main ev rq w = (Raise e, w') ->
  (exists new,
     w_log w' = w_log w ++ new
                ++ [(Error, handler_headline e); (Error, exn_text e)])
  /\ w_derived w' = w_derived w.
Proof.
  intros H. unfold main in H.
  destruct (main_try ev rq w) as [[[[g s]|]|e0] w1] eqn:E.
  - discriminate H.
  - discriminate H.
  - destruct (main_try_log_grows ev rq _ _ _ E) as [new Hl].
    pose proof (main_try_same_outputs ev rq _ _ _ E) as Hd.
    unfold same_outputs in Hd.
    destruct e0 as [m|t]; inversion H; subst; clear H;
      cbn [w_log w_derived handler_headline exn_text];
      (split; [exists new; rewrite Hl, <- !app_assoc; reflexivity|exact Hd]).
Qed.

Lemma failed_run_witness :
  (exists new,
     w_log (snd (main (mkEnv (str "/tool") Sample.ts1 Sample.ts1
                        (fun _ => Raise Sample.boom)
                        (fun _ _ _ => Ok tt)
                        (fun _ _ _ _ => Raise (ExecuteError (str "ERROR 000732")))
                        (fun _ => Raise Sample.boom) NoActiveMap)
                      Sample.rq1 Sample.world0))
     = w_log Sample.world0 ++ new
       ++ [(Error, handler_headline (ExecuteError (str "ERROR 000732")));
           (Error, exn_text (ExecuteError (str "ERROR 000732")))])
  /\ w_derived (snd (main (mkEnv (str "/tool") Sample.ts1 Sample.ts1
                        (fun _ => Raise Sample.boom)
                        (fun _ _ _ => Ok tt)
                        (fun _ _ _ _ => Raise (ExecuteError (str "ERROR 000732")))
                        (fun _ => Raise Sample.boom) NoActiveMap)
                      Sample.rq1 Sample.world0))
     = w_derived Sample.world0.
Proof.
  apply (failed_run_reports_the_exception
           (mkEnv (str "/tool") Sample.ts1 Sample.ts1
                  (fun _ => Raise Sample.boom)
                  (fun _ _ _ => Ok tt)
                  (fun _ _ _ _ => Raise (ExecuteError (str "ERROR 000732")))
                  (fun _ => Raise Sample.boom) NoActiveMap)
           Sample.rq1 Sample.world0 _ (ExecuteError (str "ERROR 000732"))).
  vm_compute. reflexivity.
Defined.

(** ** A run that returns early *)

Ltac log_tail l0 :=
  rewrite (app_assoc l0); f_equal;
  repeat rewrite <- (app_assoc l0); reflexivity.

(** X14: a run that returns early has not called the engine or the
    host and has set no derived output, and it is one of four runs:
    the input folder is empty or no directory, and the one new message
    is the error on the input folder; or the discovery found nothing,
    and the one new message is the error on the drawings; or the output
    folder is empty, and the error on it follows the count of the
    drawings; in these three the file system is untouched; or the output
    folder was made, the template is no directory, and the last message
    is the error on the template.  (So the second test for drawings, at
    line 229, never ends a run.) *)
Theorem early_return_is_announced
  (ev : env) (rq : request) (w w' : world) :
  main ev rq w = (Ok None, w') ->
  w_calls w' = w_calls w
  /\ w_derived w' = w_derived w
  /\ ((truthy (cad_folder rq) && isdir (w_fs w) (cad_folder rq) = false
       /\ w_fs w' = w_fs w
       /\ w_log w' = w_log w ++ [(Error, MSG_INVALID_INPUT)])
      \/ (_find_cad_files (w_fs w) (cad_folder rq) (search_subfolders rq)
          = Ok []
          /\ w_fs w' = w_fs w
          /\ w_log w'
             = w_log w ++ [(Error, no_files_message (search_subfolders rq))])
      \/ (output_folder rq = []
          /\ w_fs w' = w_fs w
          /\ exists found,
               w_log w' = w_log w ++ [(Message, found);
                                      (Error, MSG_OUTPUT_REQUIRED)])
      \/ (makedirs (w_fs w) (output_folder rq) = Ok (w_fs w')
          /\ isdir (w_fs w') (template_gdb_path ev) = false
          /\ exists new,
               w_log w'
               = w_log w ++ new
                 ++ [(Error, MSG_NO_TEMPLATE (template_gdb_path ev))])).
Proof.
  intros Hm. unfold main in Hm. destruct w as [fs0 log0 calls0 der0].
  destruct (main_try ev rq _) as [[[[g s]|]|e] w1] eqn:E.
  - exfalso. revert Hm.
    unfold bind, AddWarning, emit, SetParameterAsText, ret. simpl. discriminate.
  - inversion Hm; subst w1. clear Hm. norm_run E.
    destruct (negb (truthy (cad_folder rq) && isdir fs0 (cad_folder rq))) eqn:Hin; norm_run E.
    { inversion E; subst; clear E. cbn [w_fs w_log w_calls w_derived].
      split; [reflexivity|]. split; [reflexivity|]. left.
      apply negb_true_iff in Hin. auto. }
    destruct (_find_cad_files fs0 (cad_folder rq) (search_subfolders rq)) as [files|e] eqn:Hf; norm_run E.
    2:{ discriminate E. }
    destruct (is_nil files) eqn:Hnil; norm_run E.
    { inversion E; subst; clear E. cbn [w_fs w_log w_calls w_derived].
      split; [reflexivity|]. split; [reflexivity|]. right; left.
      destruct files; [auto|discriminate Hnil]. }
    destruct (negb (truthy (output_folder rq))) eqn:Hout; norm_run E.
    { inversion E; subst; clear E. cbn [w_fs w_log w_calls w_derived].
      split; [reflexivity|]. split; [reflexivity|]. right; right; left.
      split; [destruct (output_folder rq); [reflexivity|discriminate Hout]|].
      split; [reflexivity|]. eexists. rewrite <- app_assoc. reflexivity. }
    destruct (makedirs fs0 (output_folder rq)) as [made|e] eqn:Hmk; norm_run E.
    2:{ discriminate E. }
    destruct (negb (truthy (prj_file rq) && isfile made (prj_file rq))) eqn:Hprj; norm_run E.
    + destruct (negb (isdir made (template_gdb_path ev))) eqn:Ht; norm_run E.
      * inversion E; subst; clear E. cbn [w_fs w_log w_calls w_derived].
        split; [reflexivity|]. split; [reflexivity|]. right; right; right.
        split; [exact Hmk|]. split; [now apply negb_true_iff|].
        eexists. log_tail log0.
      * exfalso; eapply convert_not_early; eassumption.
    + destruct (SpatialReference ev (prj_file rq)) as [r|e] eqn:Hsr; norm_run E.
      2:{ discriminate E. }
      destruct (negb (isdir made (template_gdb_path ev))) eqn:Ht; norm_run E.
      * inversion E; subst; clear E. cbn [w_fs w_log w_calls w_derived].
        split; [reflexivity|]. split; [reflexivity|]. right; right; right.
        split; [exact Hmk|]. split; [now apply negb_true_iff|].
        eexists. log_tail log0.
      * exfalso; eapply convert_not_early; eassumption.
  - destruct e; revert Hm; unfold bind, AddError, emit, raise; simpl;
      discriminate.
Qed.

Lemma early_return_witness :
  w_calls (snd (main Sample.env1
                  (mkRequest (str "/data/roads") [] [] [] true true)
                  Sample.world0)) = w_calls Sample.world0
  /\ w_derived (snd (main Sample.env1
                       (mkRequest (str "/data/roads") [] [] [] true true)
                       Sample.world0)) = w_derived Sample.world0
  /\ ((truthy (str "/data/roads")
        && isdir (w_fs Sample.world0) (str "/data/roads") = false
       /\ w_fs (snd (main Sample.env1
                       (mkRequest (str "/data/roads") [] [] [] true true)
                       Sample.world0)) = w_fs Sample.world0
       /\ w_log (snd (main Sample.env1
                        (mkRequest (str "/data/roads") [] [] [] true true)
                        Sample.world0))
          = w_log Sample.world0 ++ [(Error, MSG_INVALID_INPUT)])
      \/ (_find_cad_files (w_fs Sample.world0) (str "/data/roads") true = Ok []
          /\ w_fs (snd (main Sample.env1
                          (mkRequest (str "/data/roads") [] [] [] true true)
                          Sample.world0)) = w_fs Sample.world0
          /\ w_log (snd (main Sample.env1
                           (mkRequest (str "/data/roads") [] [] [] true true)
                           Sample.world0))
             = w_log Sample.world0 ++ [(Error, no_files_message true)])
      \/ (@nil ascii = []
          /\ w_fs (snd (main Sample.env1
                          (mkRequest (str "/data/roads") [] [] [] true true)
                          Sample.world0)) = w_fs Sample.world0
          /\ exists found,
               w_log (snd (main Sample.env1
                             (mkRequest (str "/data/roads") [] [] [] true true)
                             Sample.world0))
               = w_log Sample.world0 ++ [(Message, found);
                                         (Error, MSG_OUTPUT_REQUIRED)])
      \/ (makedirs (w_fs Sample.world0) []
          = Ok (w_fs (snd (main Sample.env1
                             (mkRequest (str "/data/roads") [] [] [] true true)
                             Sample.world0)))
          /\ isdir (w_fs (snd (main Sample.env1
                                 (mkRequest (str "/data/roads") [] [] [] true true)
                                 Sample.world0)))
                   (template_gdb_path Sample.env1) = false
          /\ exists new,
               w_log (snd (main Sample.env1
                             (mkRequest (str "/data/roads") [] [] [] true true)
                             Sample.world0))
               = w_log Sample.world0 ++ new
                 ++ [(Error, MSG_NO_TEMPLATE (template_gdb_path Sample.env1))])).
Proof.
  apply (early_return_is_announced Sample.env1
           (mkRequest (str "/data/roads") [] [] [] true true)
           Sample.world0).
  vm_compute. reflexivity.
Defined.

(** ** A run that reaches its end *)

Lemma extent_check_effect ev p w :
  exists new,
    _warn_if_extent_suspicious ev p w
    = (Ok tt, mkWorld (w_fs w) (w_log w ++ new) (w_calls w) (w_derived w)).
Proof.
  destruct w as [fs lg cs dr].
  unfold _warn_if_extent_suspicious, try_except, bind, lift, AddWarning, emit, ret.
  cbn [w_fs w_log w_calls w_derived].
  destruct (describe_extent ev p) as [ext|e].
  - destruct (suspicious ext); [eexists; reflexivity|].
    exists []. now rewrite app_nil_r.
  - exists []. now rewrite app_nil_r.
Qed.

Lemma registration_effect ev p w :
  exists new added,
    _add_dataset_to_map ev p w
    = (Ok tt, mkWorld (w_fs w) (w_log w ++ new) (w_calls w ++ added)
                      (w_derived w))
    /\ (added = [] \/ added = [AddDataFromPath p]).
Proof.
  destruct w as [fs lg cs dr].
  unfold _add_dataset_to_map, try_except, bind, lift, record, raise,
    AddWarning, AddMessage, emit.
  cbn [w_fs w_log w_calls w_derived].
  destruct (current_project ev) as [e| |add].
  - exists [(Message, MSG_SKIPPED e)], []. rewrite app_nil_r. auto.
  - exists [(Warning, MSG_NO_MAP)], []. rewrite app_nil_r. auto.
  - destruct (add p) as [[]|e]; eexists [_], [AddDataFromPath p]; auto.
Qed.

Ltac norm_conv E :=
  cbv beta iota zeta
      delta [convert banner bind lift change AddError AddWarning AddMessage
             emit ret record w_fs w_log w_calls w_derived] in E.

Ltac pair_inv E :=
  let H1 := fresh in
  let H2 := fresh in
  pose proof (f_equal fst E) as H1; pose proof (f_equal snd E) as H2;
  cbn [fst snd] in H1, H2; clear E;
  injection H1 as <- <-; subst.

Lemma convert_inv ev rq name files sr tpl w g s w' :
  convert ev rq name files sr tpl w = (Ok (Some (g, s)), w') ->
  g = _unique_gdb_path (now_store ev) (output_folder rq) name
  /\ s = join g (staging_dataset_name (now_staging ev) name)
  /\ exists added,
       _copy_template_gdb tpl g (w_fs w) = Ok (w_fs w')
       /\ create_feature_dataset ev g
            (staging_dataset_name (now_staging ev) name) sr = Ok tt
       /\ cad_to_geodatabase ev (join_with (str ";") files) g
            (staging_dataset_name (now_staging ev) name) sr = Ok tt
       /\ w_calls w'
          = w_calls w
            ++ [CreateFeatureDataset g
                  (staging_dataset_name (now_staging ev) name) sr;
                CADToGeodatabase (join_with (str ";") files) g
                  (staging_dataset_name (now_staging ev) name) 1000 sr]
            ++ added
       /\ (added = [] \/ (auto_add rq = true /\ added = [AddDataFromPath s]))
       /\ w_derived w' = w_derived w.
Proof.
  intros E. destruct w as [fs0 log0 calls0 der0]. norm_conv E.
  remember (_unique_gdb_path (now_store ev) (output_folder rq) name) as G.
  remember (staging_dataset_name (now_staging ev) name) as staging.
  destruct (_copy_template_gdb tpl G fs0) as [fs1|e] eqn:Hcp.
  2:{ match type of E with
      | context [copy_template_step _ _ (mkWorld _ ?l ?c ?d)] =>
          destruct (@copy_template_step_raise tpl G fs0 l c d e Hcp)
            as (fs1 & Hstep & _)
      end.
      rewrite Hstep in E. discriminate E. }
  match type of E with
  | context [copy_template_step _ _ (mkWorld _ ?l ?c ?d)] =>
      rewrite (@copy_template_step_ok tpl G fs0 l c d fs1 Hcp) in E
  end.
  norm_conv E.
  destruct (create_feature_dataset ev G staging sr) as [[]|e] eqn:Hfd; norm_conv E.
  2:{ discriminate E. }
  destruct (cad_to_geodatabase ev (join_with (str ";") files) G staging sr)
    as [[]|e] eqn:Hconv; norm_conv E.
  2:{ discriminate E. }
  match type of E with
  | context [_warn_if_extent_suspicious ?e ?p ?W] =>
      destruct (extent_check_effect e p W) as [new1 Hx]; rewrite Hx in E
  end.
  clear Hx. norm_conv E.
  destruct (auto_add rq) eqn:Hauto.
  - match type of E with
    | context [_add_dataset_to_map ?e ?p ?W] =>
        destruct (registration_effect e p W) as (new2 & added & Hr & Hadd);
        rewrite Hr in E
    end.
    clear Hr. norm_conv E. pair_inv E.
    cbn [w_fs w_calls w_derived].
    split; [reflexivity|]. split; [reflexivity|]. exists added.
    repeat (split; [assumption || reflexivity|]).
    split; [now rewrite <- !app_assoc|].
    split; [|reflexivity].
    destruct Hadd as [->| ->]; [now left|right; now split].
  - pair_inv E.
    cbn [w_fs w_calls w_derived].
    split; [reflexivity|]. split; [reflexivity|]. exists [].
    repeat (split; [assumption || reflexivity|]).
    split; [now rewrite <- !app_assoc|].
    split; [now left|reflexivity].
Qed.

(** X16: a run that reaches its end, on paths in normal form, has done
    every step, in order: the discovery gave a list that is not empty,
    the output folder was made, the template was copied to the store
    path; the engine was called exactly twice, to create
    the staging dataset and to convert the drawings joined with [;], with
    the same store, staging name and spatial reference, and both calls
    returned; the host was called at most once, only when asked, with the
    staging path; the two paths returned are the store path and the
    staging name joined to it; they are set as the derived outputs 6 and
    7, in this order; the last message is the reminder, a warning; the
    input folder and the template are directories; the spatial reference
    is the one read from the projection file when that is a file, and
    none otherwise. *)
Theorem successful_run_did_every_step
  (ev : env) (rq : request) (w w' : world) (g s : pystr) :
  let name := project_identifier (cad_folder rq) (project_name rq) in
  let staging := staging_dataset_name (now_staging ev) name in
  plain_request ev rq = true ->
  main ev rq w = (Ok (Some (g, s)), w') ->
  g = _unique_gdb_path (now_store ev) (output_folder rq) name
  /\ s = join g staging
  /\ exists files sr made added,
       _find_cad_files (w_fs w) (cad_folder rq) (search_subfolders rq) = Ok files
       /\ files <> []
       /\ makedirs (w_fs w) (output_folder rq) = Ok made
       /\ (exists copied,
             _copy_template_gdb (template_gdb_path ev) g made = Ok copied)
       /\ create_feature_dataset ev g staging sr = Ok tt
       /\ cad_to_geodatabase ev (join_with (str ";") files) g staging sr = Ok tt
       /\ w_calls w'
          = w_calls w
            ++ [CreateFeatureDataset g staging sr;
                CADToGeodatabase (join_with (str ";") files) g staging 1000 sr]
            ++ added
       /\ (added = [] \/ (auto_add rq = true /\ added = [AddDataFromPath s]))
       /\ w_derived w' = w_derived w ++ [(6%N, g); (7%N, s)]
       /\ last (w_log w') (Message, []) = (Warning, MSG_REMINDER)
       /\ isdir (w_fs w) (cad_folder rq) = true
       /\ isdir made (template_gdb_path ev) = true
       /\ (if truthy (prj_file rq) && isfile made (prj_file rq)
           then exists r, SpatialReference ev (prj_file rq) = Ok r
                          /\ sr = Some r
           else sr = None).
Proof.
  intros name staging _ Hm. subst staging name. unfold main in Hm.
  destruct w as [fs0 log0 calls0 der0].
  destruct (main_try ev rq _) as [[[[g0 s0]|]|e] [fs1 log1 calls1 der1]] eqn:E.
  2:{ discriminate Hm. }
  2:{ exfalso. destruct e; revert Hm; unfold bind, AddError, emit, raise; simpl;
      discriminate. }
  cbv beta iota zeta delta [bind AddWarning emit SetParameterAsText ret
                            w_fs w_log w_calls w_derived] in Hm.
  inversion Hm; subst g0 s0 w'; clear Hm.
  cbn [w_fs w_log w_calls w_derived]. rewrite last_snoc.
  norm_run E.
  destruct (negb (truthy (cad_folder rq) && isdir fs0 (cad_folder rq))) eqn:Hin; norm_run E.
  { discriminate E. }
  destruct (_find_cad_files fs0 (cad_folder rq) (search_subfolders rq)) as [files|e] eqn:Hf; norm_run E.
  2:{ discriminate E. }
  destruct (is_nil files) eqn:Hnil; norm_run E.
  { discriminate E. }
  destruct (negb (truthy (output_folder rq))) eqn:Hout; norm_run E.
  { discriminate E. }
  destruct (makedirs fs0 (output_folder rq)) as [made|e] eqn:Hmk; norm_run E.
  2:{ discriminate E. }
  assert (Hne : files <> []) by (intros ->; discriminate Hnil).
  destruct (negb (truthy (prj_file rq) && isfile made (prj_file rq))) eqn:Hprj; norm_run E.
  - destruct (negb (isdir made (template_gdb_path ev))) eqn:Ht; norm_run E.
    { discriminate E. }
    destruct (convert_inv _ _ _ _ _ _ _ _ _ _ E)
      as (Hg & Hs & added & Hcp & Hfd & Hconv & Hcalls & Hadd & Hder).
    cbn [w_fs w_calls w_derived] in *.
    split; [exact Hg|]. split; [exact Hs|].
    exists files, None, made, added.
    repeat (split; [first [assumption|reflexivity|eexists; eassumption]|]).
    split; [rewrite Hder, <- app_assoc; reflexivity|].
    split; [reflexivity|].
    apply negb_false_iff, andb_true_iff in Hin.
    apply negb_false_iff in Ht. apply negb_true_iff in Hprj.
    split; [tauto|]. split; [exact Ht|]. now rewrite Hprj.
  - destruct (SpatialReference ev (prj_file rq)) as [r|e] eqn:Hsr; norm_run E.
    2:{ discriminate E. }
    destruct (negb (isdir made (template_gdb_path ev))) eqn:Ht; norm_run E.
    { discriminate E. }
    destruct (convert_inv _ _ _ _ _ _ _ _ _ _ E)
      as (Hg & Hs & added & Hcp & Hfd & Hconv & Hcalls & Hadd & Hder).
    cbn [w_fs w_calls w_derived] in *.
    split; [exact Hg|]. split; [exact Hs|].
    exists files, (Some r), made, added.
    repeat (split; [first [assumption|reflexivity|eexists; eassumption]|]).
    split; [rewrite Hder, <- app_assoc; reflexivity|].
    split; [reflexivity|].
    apply negb_false_iff, andb_true_iff in Hin.
    apply negb_false_iff in Ht. apply negb_false_iff in Hprj.
    split; [tauto|]. split; [exact Ht|]. rewrite Hprj. eauto.
Qed.

Lemma successful_run_witness :
  Sample.store1
  = _unique_gdb_path (now_store Sample.env1) (output_folder Sample.rq1)
      (project_identifier (cad_folder Sample.rq1) (project_name Sample.rq1))
  /\ join Sample.store1 (str "CAD_RAW_roads_20251215_190010")
     = join Sample.store1
         (staging_dataset_name (now_staging Sample.env1)
            (project_identifier (cad_folder Sample.rq1)
                                (project_name Sample.rq1)))
  /\ exists files sr made added,
       _find_cad_files (w_fs Sample.world0) (cad_folder Sample.rq1)
         (search_subfolders Sample.rq1) = Ok files
       /\ files <> []
       /\ makedirs (w_fs Sample.world0) (output_folder Sample.rq1) = Ok made
       /\ (exists copied,
             _copy_template_gdb (template_gdb_path Sample.env1)
               Sample.store1 made = Ok copied)
       /\ create_feature_dataset Sample.env1 Sample.store1
            (staging_dataset_name (now_staging Sample.env1)
               (project_identifier (cad_folder Sample.rq1)
                                   (project_name Sample.rq1))) sr = Ok tt
       /\ cad_to_geodatabase Sample.env1 (join_with (str ";") files)
            Sample.store1
            (staging_dataset_name (now_staging Sample.env1)
               (project_identifier (cad_folder Sample.rq1)
                                   (project_name Sample.rq1))) sr = Ok tt
       /\ w_calls (snd (main Sample.env1 Sample.rq1 Sample.world0))
          = w_calls Sample.world0
            ++ [CreateFeatureDataset Sample.store1
                  (staging_dataset_name (now_staging Sample.env1)
                     (project_identifier (cad_folder Sample.rq1)
                                         (project_name Sample.rq1))) sr;
                CADToGeodatabase (join_with (str ";") files) Sample.store1
                  (staging_dataset_name (now_staging Sample.env1)
                     (project_identifier (cad_folder Sample.rq1)
                                         (project_name Sample.rq1))) 1000 sr]
            ++ added
       /\ (added = []
           \/ (auto_add Sample.rq1 = true
               /\ added = [AddDataFromPath
                             (join Sample.store1
                                (str "CAD_RAW_roads_20251215_190010"))]))
       /\ w_derived (snd (main Sample.env1 Sample.rq1 Sample.world0))
          = w_derived Sample.world0
            ++ [(6%N, Sample.store1);
                (7%N, join Sample.store1 (str "CAD_RAW_roads_20251215_190010"))]
       /\ last (w_log (snd (main Sample.env1 Sample.rq1 Sample.world0)))
               (Message, [])
          = (Warning, MSG_REMINDER)
       /\ isdir (w_fs Sample.world0) (cad_folder Sample.rq1) = true
       /\ isdir made (template_gdb_path Sample.env1) = true
       /\ (if truthy (prj_file Sample.rq1) && isfile made (prj_file Sample.rq1)
           then exists r, SpatialReference Sample.env1 (prj_file Sample.rq1)
                          = Ok r /\ sr = Some r
           else sr = None).
Proof.
  apply (successful_run_did_every_step Sample.env1 Sample.rq1 Sample.world0
           (snd (main Sample.env1 Sample.rq1 Sample.world0))
           Sample.store1
           (join Sample.store1 (str "CAD_RAW_roads_20251215_190010"))).
  - reflexivity.
  - vm_compute. reflexivity.
Defined.

(** ** What a run leaves alone in the file system *)

Lemma is_prefix_app_l a : forall b p,
  is_prefix (a ++ b) p = true -> is_prefix a p = true.
Proof.
  induction a as [|x a IH]; intros b p H; [reflexivity|].
  destruct p as [|y p]; [discriminate|].
  cbn [app is_prefix] in *. apply andb_true_iff in H. destruct H as [E H].
  rewrite E. cbn [andb]. now apply (IH b).
Qed.

Lemma is_prefix_app_r a b : is_prefix a (a ++ b) = true.
Proof.
  induction a as [|x a IH]; [reflexivity|].
  cbn [app is_prefix]. now rewrite eqs_refl.
Qed.

Lemma apart_child a k p : apart a p = true -> apart (a ++ [k]) p = true.
Proof.
  unfold apart. intros H. apply andb_true_iff in H. destruct H as [H1 H2].
  apply negb_true_iff in H1, H2. apply andb_true_iff. split; apply negb_true_iff.
  - destruct (is_prefix (a ++ [k]) p) eqn:E; [|reflexivity].
    apply is_prefix_app_l in E. congruence.
  - destruct (is_prefix p (a ++ [k])) eqn:E; [|reflexivity].
    destruct (is_prefix_snoc _ _ _ E) as [H| ->]; [congruence|].
    rewrite is_prefix_app_r in H1. discriminate.
Qed.

Lemma copytree_frame fs src dst fs' :
  copytree fs src dst = Ok fs' ->
  (exists es, lookup fs' (locate dst) = Some (Dir es))
  /\ forall p, apart (locate dst) p = true -> lookup fs' p = lookup fs p.
Proof.
  unfold copytree.
  destruct (lookup fs (locate src)) as [[d|es]|]; try discriminate.
  destruct (exists_ fs dst); [discriminate|].
  destruct (is_prefix (locate src) (locate dst)
            && negb (length (locate dst) =? S (length (locate src))));
    [discriminate|].
  destruct (mkdirs fs (locate dst)) as [fs1|] eqn:Hmk; [|discriminate].
  destruct (put fs1 (locate dst) (Dir es)) as [fs2|] eqn:Hput; [|discriminate].
  intros H. inversion H; subst fs2; clear H. split.
  - destruct (@mkdirs_lookup _ _ _ Hmk) as [es2 Hdir].
    destruct (@put_lookup _ _ _ (Dir es) Hdir) as (n & Hn & Hnew).
    rewrite Hput in Hn. inversion Hn; subst n. eauto.
  - intros p Hap.
    rewrite (@put_lookup_other _ _ _ _ _ Hput Hap).
    apply (@mkdirs_lookup_other _ _ _ _ Hmk Hap).
Qed.

Lemma copy_template_frame tpl tgt fs fs' :
  _copy_template_gdb tpl tgt fs = Ok fs' ->
  (exists es, lookup fs' (locate tgt) = Some (Dir es))
  /\ forall p, apart (locate tgt) p = true -> lookup fs' p = lookup fs p.
Proof.
  unfold _copy_template_gdb. destruct (exists_ fs tgt).
  - unfold rmtree.
    destruct (lookup fs (locate tgt)) as [[d|old]|]; try discriminate.
    destruct (remove fs (locate tgt)) as [fs1|] eqn:Hrm; [|discriminate].
    intros H. destruct (copytree_frame _ _ _ _ H) as [Hdir Hfr].
    split; [exact Hdir|]. intros p Hap. rewrite (Hfr p Hap).
    apply (@remove_lookup_other _ _ _ _ Hrm Hap).
  - apply copytree_frame.
Qed.

Lemma rmtree_frame fs tgt fs' :
  rmtree fs tgt = Ok fs' ->
  forall p, apart (locate tgt) p = true -> lookup fs' p = lookup fs p.
Proof.
  unfold rmtree.
  destruct (lookup fs (locate tgt)) as [[d|old]|]; try discriminate.
  destruct (remove fs (locate tgt)) as [fs1|] eqn:Hrm; [|discriminate].
  intros H p Hap. inversion H; subst fs1.
  apply (@remove_lookup_other _ _ _ _ Hrm Hap).
Qed.

Lemma remove_keeps_parent cs k : forall n n1 es,
  remove n (cs ++ [k]) = Some n1 -> lookup n cs = Some (Dir es) ->
  exists es', lookup n1 cs = Some (Dir es').
Proof.
  induction cs as [|c cs IH]; intros n n1 es R L.
  - cbn [app] in R. destruct n as [d|es0]; [discriminate|]. cbn [remove] in R.
    destruct (assoc k es0); [|discriminate]. inversion R. cbn. eauto.
  - destruct n as [d|es0]; [discriminate|]. cbn [lookup] in L.
    destruct (assoc c es0) as [ch|] eqn:A; [|discriminate].
    assert (R' : match remove ch (cs ++ [k]) with
                 | Some ch' => Some (Dir (set_entry c ch' es0))
                 | None => None
                 end = Some n1).
    { cbn [app] in R. destruct (cs ++ [k]) as [|x t] eqn:Ex.
      - destruct cs; discriminate Ex.
      - cbn [remove] in R. now rewrite A in R. }
    destruct (remove ch (cs ++ [k])) as [ch'|] eqn:Rc; [|discriminate].
    inversion R'; subst n1. destruct (IH ch ch' es Rc L) as [es' H].
    exists es'. cbn [lookup]. now rewrite assoc_set_same.
Qed.

Lemma same_outside_refl cs w : same_outside cs w w.
Proof. intros p _. reflexivity. Qed.

Lemma same_outside_trans cs a b c :
  same_outside cs a b -> same_outside cs b c -> same_outside cs a c.
Proof. intros H1 H2 p Hap. now rewrite (H2 p Hap), (H1 p Hap). Qed.

Lemma same_beside_refl dir cs w : same_beside dir cs w w.
Proof. intros Hd. split; [exact Hd|]. apply same_outside_refl. Qed.

Lemma same_beside_trans dir cs a b c :
  same_beside dir cs a b -> same_beside dir cs b c -> same_beside dir cs a c.
Proof.
  intros H1 H2 Ha. destruct (H1 Ha) as [Hb Hab]. destruct (H2 Hb) as [Hc Hbc].
  split; [exact Hc|]. eapply same_outside_trans; eassumption.
Qed.

Lemma same_beside_change dir cs f :
  (forall fs fs', f fs = Ok fs' -> isdir fs dir = true ->
     isdir fs' dir = true
     /\ forall p, apart cs p = true -> lookup fs' p = lookup fs p) ->
  keeps (same_beside dir cs) (change f).
Proof.
  intros Hf w r w' H Hd. unfold change in H.
  destruct (f (w_fs w)) as [fs'|e] eqn:E; inversion H; subst; clear H.
  - destruct (Hf _ _ E Hd) as [Hd' Hfr]. split; [exact Hd'|].
    intros p Hap. cbn [w_fs]. now apply Hfr.
  - split; [exact Hd|]. apply same_outside_refl.
Qed.

Lemma makedirs_frame fs out fs' :
  makedirs fs out = Ok fs' ->
  forall p, apart (locate out) p = true -> lookup fs' p = lookup fs p.
Proof.
  unfold makedirs. destruct out as [|c t]; [discriminate|].
  destruct (mkdirs fs (locate (c :: t))) as [n|] eqn:Hmk;
    [|destruct (through_file fs (locate (c :: t))); discriminate].
  intros H p Hap. inversion H; subst n.
  apply (@mkdirs_lookup_other _ _ _ _ Hmk Hap).
Qed.

Lemma set_entry_same k v es : assoc k es = Some v -> set_entry k v es = es.
Proof.
  induction es as [|[k' v'] t IH]; [discriminate|]. cbn [assoc set_entry].
  destruct (eqs k k') eqn:E.
  - apply eqs_true in E. subst k'. intros H. inversion H. reflexivity.
  - intros H. now rewrite (IH H).
Qed.

Lemma mkdirs_existing cs : forall n es,
  lookup n cs = Some (Dir es) -> mkdirs n cs = Some n.
Proof.
  induction cs as [|c cs IH]; intros n es H.
  - cbn in H. inversion H. reflexivity.
  - destruct n as [d|es0]; [discriminate|]. cbn [lookup] in H. cbn [mkdirs].
    destruct (assoc c es0) as [ch|] eqn:A; [|discriminate].
    rewrite (IH ch es H). now rewrite (set_entry_same _ _ _ A).
Qed.

Lemma lookup_parent cs k : forall n x,
  lookup n (cs ++ [k]) = Some x -> exists es, lookup n cs = Some (Dir es).
Proof.
  intros n x H. rewrite lookup_app in H.
  destruct (lookup n cs) as [[d|es]|]; try discriminate; eauto.
Qed.

Lemma same_outside_change cs f :
  (forall fs fs', f fs = Ok fs' ->
     forall p, apart cs p = true -> lookup fs' p = lookup fs p) ->
  keeps (same_outside cs) (change f).
Proof.
  intros Hf w r w' H. unfold change in H.
  destruct (f (w_fs w)) as [fs'|e] eqn:E; inversion H; subst; clear H.
  - intros p Hap. cbn [w_fs]. now apply (Hf _ _ E).
  - intros p _. reflexivity.
Qed.

Lemma store_place ev rq :
  valid_ts (now_store ev) = true ->
  exists k,
    valid_name k = true
    /\ locate (_unique_gdb_path (now_store ev) (output_folder rq)
                 (project_identifier (cad_folder rq) (project_name rq)))
       = locate (output_folder rq) ++ [k].
Proof.
  intros V. unfold project_identifier.
  set (s := if truthy (project_name rq) then project_name rq
            else basename (normpath (cad_folder rq))).
  exists (gdb_name (now_store ev) (_clean_name s)). split.
  - apply gdb_name_valid; [exact V|apply clean_name_chars].
  - unfold _unique_gdb_path. cbv zeta. apply locate_join_child.
    apply gdb_name_valid; [exact V|apply clean_name_chars].
Qed.

Lemma main_fs ev rq w r w' :
  main ev rq w = (r, w') ->
  exists r1 w1, main_try ev rq w = (r1, w1) /\ w_fs w' = w_fs w1.
Proof.
  unfold main. destruct (main_try ev rq w) as [[[[g s]|]|[m|t]] w1];
    intros H; do 2 eexists; (split; [reflexivity|]);
    cbv beta iota zeta delta [bind AddWarning AddError emit
                              SetParameterAsText ret raise] in H;
    inversion H; reflexivity.
Qed.

(** X17: whatever the outcome of a run whose output folder is given by
    a path in normal form (or not given), its own file operations
    ([os.makedirs], [shutil.rmtree], [shutil.copytree]) change nothing
    apart from the output folder: every place of the tree that is neither
    above nor below the output folder holds after them what it held
    before. *)
Theorem run_leaves_the_rest_of_the_tree
  (ev : env) (rq : request) (w w' : world) (r : result (option (pystr * pystr))) :
  valid_ts (now_store ev) = true ->
  output_folder rq = [] \/ plain_path (output_folder rq) = true ->
  main ev rq w = (r, w') ->
  forall p, apart (locate (output_folder rq)) p = true ->
            lookup (w_fs w') p = lookup (w_fs w) p.
Proof.
  intros V _ Hm. destruct (main_fs _ _ _ _ _ Hm) as (r1 & w1 & E & Hfs).
  rewrite Hfs.
  cut (keeps (same_outside (locate (output_folder rq))) (main_try ev rq));
    [intros K; exact (K _ _ _ E)|].
  clear - V.
  destruct (store_place ev rq V) as (k & Hk & Hloc).
  apply keeps_main_try.
  - apply same_outside_refl.
  - apply same_outside_trans.
  - intros l t w r0 w0 H. inversion H. intros p _. reflexivity.
  - intros c w r0 w0 H. inversion H. intros p _. reflexivity.
  - apply same_outside_change. intros fs fs'. apply makedirs_frame.
  - intros template.
    apply keeps_copy_template_step;
      [apply same_outside_refl|apply same_outside_trans| |];
      apply same_outside_change; intros fs fs' H p Hap.
    + apply (rmtree_frame _ _ _ H). rewrite Hloc. now apply apart_child.
    + destruct (copytree_frame _ _ _ _ H) as [_ Hfr].
      apply Hfr. rewrite Hloc. now apply apart_child.
Qed.

Lemma main_try_same_beside ev rq :
  valid_ts (now_store ev) = true ->
  keeps (same_beside (output_folder rq)
           (locate (_unique_gdb_path (now_store ev) (output_folder rq)
                      (project_identifier (cad_folder rq) (project_name rq)))))
        (main_try ev rq).
Proof.
  intros V. destruct (store_place ev rq V) as (k & Hk & Hloc).
  apply keeps_main_try.
  - apply same_beside_refl.
  - apply same_beside_trans.
  - intros l t w r0 w0 H. inversion H. intros Hd. split; [exact Hd|].
    intros p _. reflexivity.
  - intros c w r0 w0 H. inversion H. intros Hd. split; [exact Hd|].
    intros p _. reflexivity.
  - intros w r0 w0 H Hd. unfold change, makedirs in H.
    destruct (isdir_lookup _ _ Hd) as [es Hl].
    destruct (output_folder rq) as [|c t] eqn:Eo.
    + inversion H; subst. split; [exact Hd|]. intros p _. reflexivity.
    + rewrite (mkdirs_existing _ _ _ Hl) in H. inversion H; subst.
      cbn [w_fs]. split; [exact Hd|]. intros p _. reflexivity.
  - intros template.
    apply keeps_copy_template_step;
      [apply same_beside_refl|apply same_beside_trans| |];
      apply same_beside_change; intros fs fs' H Hd.
    + split; [|now apply (rmtree_frame _ _ _ H)].
      destruct (isdir_lookup _ _ Hd) as [es Hl].
      unfold rmtree in H. rewrite Hloc in H.
      destruct (lookup fs (locate (output_folder rq) ++ [k]))
        as [[d|old]|]; try discriminate.
      destruct (remove fs (locate (output_folder rq) ++ [k]))
        as [fs1|] eqn:Hrm; [|discriminate].
      inversion H; subst fs1.
      destruct (remove_keeps_parent _ _ _ _ _ Hrm Hl) as [es' H'].
      unfold isdir. now rewrite H'.
    + destruct (copytree_frame _ _ _ _ H) as [[es Hes] Hfr].
      split; [|exact Hfr].
      rewrite Hloc in Hes. destruct (lookup_parent _ _ _ _ Hes) as [es0 H0].
      unfold isdir. now rewrite H0.
Qed.

(** X18: when the output folder, given by a path in normal form, is a
    directory already, the file operations of a run change nothing apart
    from the store of this run:
    every place that is neither above nor below the store path, the other
    stores of the output folder among them, holds after the run what it
    held before. *)
Theorem run_touches_only_its_store
  (ev : env) (rq : request) (w w' : world) (r : result (option (pystr * pystr))) :
  valid_ts (now_store ev) = true ->
  plain_path (output_folder rq) = true ->
  isdir (w_fs w) (output_folder rq) = true ->
  main ev rq w = (r, w') ->
  forall p,
    apart (locate (_unique_gdb_path (now_store ev) (output_folder rq)
                     (project_identifier (cad_folder rq) (project_name rq))))
          p = true ->
    lookup (w_fs w') p = lookup (w_fs w) p.
Proof.
  intros V _ Hd Hm. destruct (main_fs _ _ _ _ _ Hm) as (r1 & w1 & E & Hfs).
  rewrite Hfs.
  destruct (main_try_same_beside ev rq V _ _ _ E Hd) as [_ H]. exact H.
Qed.

Lemma run_leaves_the_rest_witness :
  valid_ts (now_store Sample.env1) = true
  /\ plain_path (output_folder Sample.rq1) = true
  /\ forall p, apart (locate (output_folder Sample.rq1)) p = true ->
               lookup (w_fs (snd (main Sample.env1 Sample.rq1 Sample.world0))) p
               = lookup (w_fs Sample.world0) p.
Proof.
  split; [reflexivity|]. split; [reflexivity|].
  apply (run_leaves_the_rest_of_the_tree Sample.env1 Sample.rq1 Sample.world0
           (snd (main Sample.env1 Sample.rq1 Sample.world0))
           (fst (main Sample.env1 Sample.rq1 Sample.world0))).
  - reflexivity.
  - right. reflexivity.
  - vm_compute. reflexivity.
Defined.

Lemma run_touches_only_its_store_witness :
  isdir (w_fs Sample.world0) (output_folder Sample.rq_again) = true
  /\ plain_path (output_folder Sample.rq_again) = true
  /\ forall p,
    apart (locate (_unique_gdb_path (now_store Sample.env1)
                     (output_folder Sample.rq_again)
                     (project_identifier (cad_folder Sample.rq_again)
                                         (project_name Sample.rq_again))))
          p = true ->
    lookup (w_fs (snd (main Sample.env1 Sample.rq_again Sample.world0))) p
    = lookup (w_fs Sample.world0) p.
Proof.
  split; [reflexivity|]. split; [reflexivity|].
  apply (run_touches_only_its_store Sample.env1 Sample.rq_again Sample.world0
           (snd (main Sample.env1 Sample.rq_again Sample.world0))
           (fst (main Sample.env1 Sample.rq_again Sample.world0))).
  - reflexivity.
  - reflexivity.
  - reflexivity.
  - vm_compute. reflexivity.
Defined.

(** ** The discovery, with the extensions as the specification names them *)












